(** * The multi-head training loss of lib/core/loss.py

    A shallow embedding of [smooth_BCE], [FocalLoss], [MultiHeadLoss] and
    [get_loss], and the properties of the loss aggregation proved on it.

    Numbers.  Python floats and torch tensors of floats are modelled by the
    mathematical reals [R]: rounding, overflow, [inf] and [nan] are outside
    that model.  Where torch would produce [nan] from finite inputs (the mean
    of an empty tensor) it stops with the outcome [NotANumber].  The end of
    [_forward_impl], where the losses are scaled, frozen and added, is
    modelled a second time on float32 values with the infinities and nan
    ([weigh32], [_forward_impl32]): what the code returns for a loss that is
    not finite is stated on that model.

    Tensors.  A tensor is its row-major list of elements together with what
    the code needs of its shape.  Index tensors hold integers ([Z]); a
    negative index counts from the end, an index out of range raises
    [IndexError], as in torch on the CPU. *)

From Stdlib Require Import Reals Lra ZArith Floats.
From stdpp Require Import base decidable option list strings.

Open Scope R_scope.

(** ** Outcomes of a call *)

Inductive error : Set :=
| AssertionError
| IndexError
| ValueError
| ZeroDivisionError
| RuntimeError
| NotANumber.   (* not an exception: torch yields nan, which [R] lacks *)

Inductive res (A : Type) : Type :=
| Ok (a : A)
| Raise (e : error).
Arguments Ok {A} a.
Arguments Raise {A} e.

#[global] Instance res_ret : MRet res := @Ok.
#[global] Instance res_bind : MBind res := fun A B f m =>
  match m with
  | Ok a => f a
  | Raise e => Raise e
  end.

(** [d[i]] on a Python list: [IndexError] past the end. *)
Definition getitem {A} (l : list A) (i : nat) : res A :=
  match l !! i with
  | Some x => Ok x
  | None => Raise IndexError
  end.

(** Monadic map, left to right: the first failure aborts. *)
Fixpoint mapM_res {A B} (f : A -> res B) (l : list A) : res (list B) :=
  match l with
  | [] => Ok []
  | x :: l' => y ← f x; ys ← mapM_res f l'; Ok (y :: ys)
  end.

(** ** Decidable comparisons on the reals *)

#[global] Instance Rle_decision : RelDecision Rle := Rle_dec.
#[global] Instance Rlt_decision : RelDecision Rlt := Rlt_dec.
#[global] Instance Req_decision : EqDecision R := Req_dec_T.

(** ** Elementary tensor operations *)

Definition sum_R (l : list R) : R := foldr Rplus 0 l.

(** [torch.sigmoid]. *)
Definition sigmoid (z : R) : R := 1 / (1 + exp (- z)).

(** [x ** y] for a float exponent.  For a positive base it is the real
    power; any base to the power 0 is 1; 0 to a positive power is 0.  A
    negative base with a non-zero exponent, and 0 to a negative power, give
    nan, inf or a signed power in torch; the model has no value for them and
    returns 0 there. *)
Definition tpow (x y : R) : R :=
  if decide (y = 0) then 1
  else if decide (0 < x) then Rpower x y
  else 0.

(** A 0-dim tensor (a scalar) or a tensor with elements, row-major. *)
Inductive value : Type :=
| Scalar (r : R)
| Elems (l : list R).

(** Reduction of an elementwise loss by torch ([mean]/[sum]/[none]). *)
Definition mean_R (l : list R) : res R :=
  match l with
  | [] => Raise NotANumber
  | _ => Ok (sum_R l / INR (length l))
  end.

Definition t_mean (l : list R) : res value := r ← mean_R l; Ok (Scalar r).

Definition t_sum (l : list R) : res value := Ok (Scalar (sum_R l)).

(** ** smooth_BCE *)

Definition smooth_BCE (eps : R) : R * R := (1.0 - 0.5 * eps, 0.5 * eps).

(** The same expression on binary64 floats, which is what Python computes. *)
Definition smooth_BCE_f64 (eps : float) : float * float :=
  (1.0 - 0.5 * eps, 0.5 * eps)%float.

(** ** nn.BCEWithLogitsLoss

    The objects are mutable ([FocalLoss.__init__] assigns to [reduction]), so
    they live in a store, addressed by their position. *)

Record BCEWithLogitsLoss : Type := mkBCE {
  pos_weight : R;
  reduction : string;
}.

Abbreviation loc := nat (only parsing).
Abbreviation store := (list BCEWithLogitsLoss) (only parsing).

(** Allocation of a new object. *)
Definition alloc (o : BCEWithLogitsLoss) (h : store) : loc * store :=
  (length h, h ++ [o]).

(** The loss of one element: [-(pw * t * log σ(z) + (1 - t) * log (1 - σ(z)))]. *)
Definition bce_elem (pw z t : R) : R :=
  - (pw * t * ln (sigmoid z) + (1 - t) * ln (1 - sigmoid z)).

(** [F.binary_cross_entropy_with_logits]: the reduction name is checked
    (["elementwise_mean"] is torch's deprecated alias of ["mean"]), then the
    sizes, then the elementwise loss is reduced.  Both checks raise
    [ValueError]. *)
Definition bce_with_logits (pw : R) (red : string) (input target : list R)
  : res value :=
  if decide (red = "none" \/ red = "mean" \/ red = "elementwise_mean"
             \/ red = "sum")%string then
    if decide (length input = length target) then
      let l := zip_with (bce_elem pw) input target in
      if decide (red = "mean" \/ red = "elementwise_mean")%string then t_mean l
      else if decide (red = "sum")%string then t_sum l
      else Ok (Elems l)
    else Raise ValueError
  else Raise ValueError.

(** Calling the object at [l]. *)
Definition BCE_call (h : store) (l : loc) (input target : list R) : res value :=
  o ← getitem h l;
  bce_with_logits (pos_weight o) (reduction o) input target.

(** ** FocalLoss *)

Record FocalLoss : Type := mkFocal {
  loss_fcn : loc;            (* a reference to the wrapped object *)
  gamma : R;
  alpha : R;
  fl_reduction : string;     (* self.reduction *)
}.

(** [FocalLoss.__init__]: remembers the reduction of the wrapped object and
    then overwrites it, in the store, with ["none"]. *)
Definition FocalLoss_init (h : store) (l : loc) (gamma alpha : R)
  : res (FocalLoss * store) :=
  o ← getitem h l;
  Ok (mkFocal l gamma alpha (reduction o),
      <[l := mkBCE (pos_weight o) "none"]> h).

(** The factor [alpha_factor * modulating_factor] of one element. *)
Definition focal_factor (gamma alpha z t : R) : R :=
  let pred_prob := sigmoid z in
  let p_t := t * pred_prob + (1 - t) * (1 - pred_prob) in
  let alpha_factor := t * alpha + (1 - t) * (1 - alpha) in
  let modulating_factor := tpow (1.0 - p_t) gamma in
  alpha_factor * modulating_factor.

(** [loss *= alpha_factor * modulating_factor].  The factor has the shape of
    [pred] and [true]; the product is in place, so [loss] must already have
    that shape: a scalar [loss] (the wrapped object no longer reduces with
    ["none"]) makes torch raise [RuntimeError]. *)
Definition focal_scale (gamma alpha : R) (loss : value) (pred true : list R)
  : res (list R) :=
  let f := zip_with (focal_factor gamma alpha) pred true in
  match loss with
  | Elems l =>
      if decide (length l = length f) then Ok (zip_with Rmult l f)
      else Raise RuntimeError
  | Scalar _ => Raise RuntimeError
  end.

Definition FocalLoss_forward (h : store) (w : FocalLoss) (pred true : list R)
  : res value :=
  loss ← BCE_call h (loss_fcn w) pred true;
  loss' ← focal_scale (gamma w) (alpha w) loss pred true;
  if decide (fl_reduction w = "mean")%string then t_mean loss'
  else if decide (fl_reduction w = "sum")%string then t_sum loss'
  else Ok (Elems loss').

(** ** The criteria held by MultiHeadLoss

    [get_loss] puts plain [BCEWithLogitsLoss] objects and focal wrappers in
    one list; calling an element dispatches on what it is. *)

Inductive Criterion : Type :=
| Plain (l : loc)
| Focal (w : FocalLoss).

Definition call (h : store) (c : Criterion) (input target : list R) : res value :=
  match c with
  | Plain l => BCE_call h l input target
  | Focal w => FocalLoss_forward h w input target
  end.

(** ** Configuration and model attributes read by the loss *)

Record LossCfg : Type := mkLossCfg {
  CLS_POS_WEIGHT : R;
  OBJ_POS_WEIGHT : R;
  SEG_POS_WEIGHT : R;
  FL_GAMMA : R;
  MULTI_HEAD_LAMBDA : option (list R);
  CLS_GAIN : R;
  OBJ_GAIN : R;
  BOX_GAIN : R;
  SEG_GAIN : R;
}.

Record TrainCfg : Type := mkTrainCfg {
  FREEZE_SEG : bool;
}.

Record Cfg : Type := mkCfg {
  LOSS : LossCfg;
  TRAIN : TrainCfg;
}.

Record Model : Type := mkModel {
  gr : R;
  nc : Z;
}.

(** ** MultiHeadLoss.__init__ *)

Record MultiHeadLoss : Type := mkMultiHeadLoss {
  losses : list Criterion;
  lambdas : list R;
  cfg : Cfg;
}.

(** [not lambdas]: [None] and the empty list are falsy. *)
Definition falsy (lambdas : option (list R)) : bool :=
  match lambdas with
  | None | Some [] => true
  | Some (_ :: _) => false
  end.

Definition MultiHeadLoss_init (losses : list Criterion) (cfg : Cfg)
    (lambdas : option (list R)) : res MultiHeadLoss :=
  let lambdas :=
    if falsy lambdas then (fun _ => 1.0) <$> seq 0 (length losses + 1)
    else default [] lambdas in
  if forallb (fun lam => bool_decide (0.0 <= lam)) lambdas then
    Ok (mkMultiHeadLoss losses lambdas cfg)
  else Raise AssertionError.

(** ** get_loss *)

Definition get_loss (cfg : Cfg) (h : store) : res (MultiHeadLoss * store) :=
  let '(BCEcls, h) := alloc (mkBCE (CLS_POS_WEIGHT (LOSS cfg)) "mean") h in
  let '(BCEobj, h) := alloc (mkBCE (OBJ_POS_WEIGHT (LOSS cfg)) "mean") h in
  let '(BCEseg, h) := alloc (mkBCE (SEG_POS_WEIGHT (LOSS cfg)) "mean") h in
  let gamma := FL_GAMMA (LOSS cfg) in
  '(BCEcls, BCEobj, h) ←
    (if decide (0 < gamma) then
       '(fcls, h) ← FocalLoss_init h BCEcls gamma 0.25;
       '(fobj, h) ← FocalLoss_init h BCEobj gamma 0.25;
       Ok (Focal fcls, Focal fobj, h)
     else Ok (Plain BCEcls, Plain BCEobj, h));
  let loss_list := [BCEcls; BCEobj; Plain BCEseg] in
  loss ← MultiHeadLoss_init loss_list cfg (MULTI_HEAD_LAMBDA (LOSS cfg));
  Ok (loss, h).

(** ** Tensors of the detection head *)

(** One grid cell of a detection scale: the channels
    [tx, ty, tw, th, objectness, class logits...] that the code reads as
    [ps[:, :2]], [ps[:, 2:4]], [pi[..., 4]] and [ps[:, 5:]]. *)
Record Cell : Type := mkCell {
  tx : R;
  ty : R;
  tw : R;
  th : R;
  obj : R;
  cls : list R;
}.

(** A per-scale prediction of shape (batch, anchors, grid height, grid
    width, channels): its first four sizes and its cells, row-major. *)
Record Tensor : Type := mkTensor {
  shape : nat * nat * nat * nat;
  cells : list Cell;
}.

(** A box as (x, y, w, h). *)
Record Box : Type := mkBox {
  bx : R;
  by_ : R;
  bw : R;
  bh : R;
}.

(** Modelled from the spec: [build_targets] (lib/core/postprocess.py) is
    not among the sources.  By the spec's data model it returns, per
    detection scale, a sequence of matches, each an (image index, anchor
    index, grid row, grid column, target box, target class id, anchor box
    dimensions).  The code receives the columns of that sequence:
    [b, a, gj, gi = indices[i]], [tbox[i]], [tcls[i]], [anchors[i]]. *)
Record Match : Type := mkMatch {
  m_b : Z;
  m_a : Z;
  m_gj : Z;
  m_gi : Z;
  m_tbox : Box;
  m_tcls : Z;
  m_anchor : R * R;
}.

(** An index into a dimension of [size] elements. *)
Definition norm_index (size : nat) (i : Z) : res nat :=
  if decide (0 <= i < Z.of_nat size)%Z then Ok (Z.to_nat i)
  else if decide (- Z.of_nat size <= i < 0)%Z then Ok (Z.to_nat (i + Z.of_nat size))
  else Raise IndexError.

(** The cell [(b, a, gj, gi)] addressed by a match in a tensor of the given
    shape. *)
Definition cell_of (sh : nat * nat * nat * nat) (m : Match)
  : res (nat * nat * nat * nat) :=
  let '(B, A, H, W) := sh in
  b ← norm_index B (m_b m);
  a ← norm_index A (m_a m);
  gj ← norm_index H (m_gj m);
  gi ← norm_index W (m_gi m);
  Ok (b, a, gj, gi).

(** Row-major position of a cell. *)
Definition offset (sh c : nat * nat * nat * nat) : nat :=
  let '(_, A, H, W) := sh in
  let '(b, a, gj, gi) := c in
  (((b * A + a) * H + gj) * W + gi)%nat.

(** One row of [pi[b, a, gj, gi]]: the position and the channels of the
    cell a match addresses. *)
Definition gather (pi : Tensor) (m : Match) : res (nat * Cell) :=
  c ← cell_of (shape pi) m;
  let o := offset (shape pi) c in
  x ← getitem (cells pi) o;
  Ok (o, x).

(** [tobj[b, a, gj, gi] = vals]: the model applies the writes in the order
    of the matches, as torch does on the CPU.  When two matches address one
    cell torch does not say which value stays; what is proved about the
    objectness target of a match holds for every outcome of the assignment
    ([assigned] below). *)
Definition scatter (tobj : list R) (writes : list (nat * R)) : list R :=
  foldl (fun t w => <[w.1 := w.2]> t) tobj writes.

(** The predicted box of a matched cell:
    [pxy = sigmoid(ps[:, :2]) * 2. - 0.5],
    [pwh = (sigmoid(ps[:, 2:4]) * 2) ** 2 * anchors[i]]. *)
Definition decode (c : Cell) (anchor : R * R) : Box :=
  mkBox (sigmoid (tx c) * 2 - 0.5)
        (sigmoid (ty c) * 2 - 0.5)
        ((sigmoid (tw c) * 2) ^ 2 * anchor.1)
        ((sigmoid (th c) * 2) ^ 2 * anchor.2).

(** The objectness target of a match with the given IoU:
    [(1.0 - model.gr) + model.gr * iou.detach().clamp(0)]. *)
Definition obj_target (model : Model) (iou : R) : R :=
  (1.0 - gr model) + gr model * Rmax iou 0.

(** One row of the classification target: [cn] everywhere, [cp] at the
    class of the match ([t = full_like(ps[:, 5:], cn)],
    [t[range(n), tcls[i]] = cp]). *)
Definition cls_target_row (cp cn : R) (m : Match) (c : Cell) : res (list R) :=
  let row := (fun _ => cn) <$> cls c in
  k ← norm_index (length row) (m_tcls m);
  Ok (<[k := cp]> row).

(** [acc += v] on an accumulator of shape [1]: in place, so [v] must be a
    scalar; a tensor of two or four dimensions does not broadcast into it. *)
Definition iadd (acc : R) (v : value) : res R :=
  match v with
  | Scalar r => Ok (acc + r)
  | Elems _ => Raise RuntimeError
  end.

(** [v.item()]. *)
Definition item (v : value) : res R :=
  match v with
  | Scalar r => Ok r
  | Elems [x] => Ok x
  | Elems _ => Raise ValueError
  end.

(** [v * c] for a float [c]. *)
Definition scale (v : value) (c : R) : value :=
  match v with
  | Scalar r => Scalar (r * c)
  | Elems l => Elems ((fun x => x * c) <$> l)
  end.

Definition balance (no : nat) : list R :=
  if decide (no = 3%nat) then [4.0; 1.0; 0.4] else [4.0; 1.0; 0.4; 0.1].

(** The accumulators of the detection loop. *)
Record Acc : Type := mkAcc {
  lcls : R;
  lbox : R;
  lobj : R;
  nt : nat;
}.

(** Inputs of [_forward_impl]. *)
Record Predictions : Type := mkPredictions {
  det : list Tensor;          (* predictions[0] *)
  seg : list R;               (* predictions[-1].view(-1) *)
}.

(** [0 * lseg] on the reals, where it is always 0; [freeze32] below is the
    same product on float32 values. *)
Definition freeze (v : value) : value :=
  match v with
  | Scalar r => Scalar (0 * r)
  | Elems l => Elems ((fun x => 0 * x) <$> l)
  end.

(** The end of [_forward_impl]: the output-count factor, the gains and the
    weights, the freeze flag, the sum and the tuple of plain numbers. *)
Definition weigh (self : MultiHeadLoss) (no : nat) (st : Acc) (lseg : value)
  : res (R * (R * R * R * R * R)) :=
  let cfg := cfg self in
  if decide (no = 0%nat) then Raise ZeroDivisionError else
  let s := 3 / INR no in
  lam0 ← getitem (lambdas self) 0;
  let lcls := lcls st * (CLS_GAIN (LOSS cfg) * s * lam0) in
  lam1 ← getitem (lambdas self) 1;
  let lobj := lobj st * (OBJ_GAIN (LOSS cfg) * s
                         * (if decide (no = 4%nat) then 1.4 else 1.0) * lam1) in
  lam2 ← getitem (lambdas self) 2;
  let lbox := lbox st * (BOX_GAIN (LOSS cfg) * s * lam2) in
  lam3 ← getitem (lambdas self) 3;
  let lseg := scale lseg (SEG_GAIN (LOSS cfg) * lam3) in
  let lseg := if FREEZE_SEG (TRAIN cfg) then freeze lseg else lseg in
  lseg ← item lseg;
  let loss := lbox + lobj + lcls + lseg in
  Ok (loss, (lbox, lobj, lcls, lseg, loss)).

(** ** float32 values at the end of the pass

    The losses that the end of [_forward_impl] scales, freezes and adds are
    float32 tensors, and some of what the code does there depends on the
    values of a float32 that are not real numbers.  For that part the model
    also has those values.  A finite value is carried as a real (its
    rounding stays outside the model, and so does the sign of a zero); an
    exact result too large for a float32 is an infinity. *)
Inductive f32 : Type :=
| Fin (r : R)
| Inf (negative : bool)
| NaN.

(** Half-way between the largest float32, (2 - 2^-23) * 2^127, and 2^128,
    that is 2^128 - 2^103: rounding to nearest turns an exact result of
    this size or more into an infinity. *)
Definition FLT_OVERFLOW : R := 340282356779733661637539395458142568448.

(** The float32 of an exact result, and of a Python float. *)
Definition f32_of (r : R) : f32 :=
  if decide (FLT_OVERFLOW <= r) then Inf false
  else if decide (r <= - FLT_OVERFLOW) then Inf true
  else Fin r.

Definition negative (r : R) : bool := bool_decide (r < 0).

(** Product and sum of two float32 (IEEE 754): 0 times an infinity and the
    sum of two opposite infinities are nan, and nan stays nan. *)
Definition fmul (x y : f32) : f32 :=
  match x, y with
  | NaN, _ | _, NaN => NaN
  | Fin a, Fin b => f32_of (a * b)
  | Fin a, Inf s | Inf s, Fin a =>
      if decide (a = 0) then NaN else Inf (xorb s (negative a))
  | Inf s, Inf s' => Inf (xorb s s')
  end.

Definition fadd (x y : f32) : f32 :=
  match x, y with
  | NaN, _ | _, NaN => NaN
  | Fin a, Fin b => f32_of (a + b)
  | Fin _, Inf s | Inf s, Fin _ => Inf s
  | Inf s, Inf s' => if decide (s = s') then Inf s else NaN
  end.

(** [x *= c] for a float32 tensor [x] and a Python float [c]: torch takes
    the scalar to the type of the tensor and multiplies there. *)
Definition imul (x : f32) (c : R) : f32 := fmul x (f32_of c).

(** A float32 tensor of no or of one dimension, as [value] on the reals. *)
Inductive value32 : Type :=
| Scalar32 (x : f32)
| Elems32 (l : list f32).

(** The float32 tensor that a value of the model on the reals stands for. *)
Definition to32 (v : value) : value32 :=
  match v with
  | Scalar r => Scalar32 (f32_of r)
  | Elems l => Elems32 (f32_of <$> l)
  end.

Definition map32 (f : f32 -> f32) (v : value32) : value32 :=
  match v with
  | Scalar32 x => Scalar32 (f x)
  | Elems32 l => Elems32 (f <$> l)
  end.

(** [v.item()]. *)
Definition item32 (v : value32) : res f32 :=
  match v with
  | Scalar32 x => Ok x
  | Elems32 [x] => Ok x
  | Elems32 _ => Raise ValueError
  end.

(** [0 * lseg]. *)
Definition freeze32 (v : value32) : value32 := map32 (fmul (Fin 0)) v.

(** The result on float32 values: [loss] and the tuple
    [(lbox, lobj, lcls, lseg, loss)]. *)
Definition Result32 : Type := f32 * (f32 * f32 * f32 * f32 * f32).

(** The end of [_forward_impl], as [weigh], on float32 values: the
    accumulators and the segmentation loss enter as the float32 they are. *)
Definition weigh32 (self : MultiHeadLoss) (no : nat) (st : Acc) (lseg : value)
  : res Result32 :=
  let cfg := cfg self in
  if decide (no = 0%nat) then Raise ZeroDivisionError else
  let s := 3 / INR no in
  lam0 ← getitem (lambdas self) 0;
  let lcls := imul (f32_of (lcls st)) (CLS_GAIN (LOSS cfg) * s * lam0) in
  lam1 ← getitem (lambdas self) 1;
  let lobj := imul (f32_of (lobj st))
                (OBJ_GAIN (LOSS cfg) * s
                 * (if decide (no = 4%nat) then 1.4 else 1.0) * lam1) in
  lam2 ← getitem (lambdas self) 2;
  let lbox := imul (f32_of (lbox st)) (BOX_GAIN (LOSS cfg) * s * lam2) in
  lam3 ← getitem (lambdas self) 3;
  let lseg := map32 (fun x => imul x (SEG_GAIN (LOSS cfg) * lam3)) (to32 lseg) in
  let lseg := if FREEZE_SEG (TRAIN cfg) then freeze32 lseg else lseg in
  lseg ← item32 lseg;
  let loss := fadd (fadd (fadd lbox lobj) lcls) lseg in
  Ok (loss, (lbox, lobj, lcls, lseg, loss)).

Record Targets (D : Type) : Type := mkTargets {
  det_targets : D;            (* targets[0] *)
  seg_targets : list R;       (* targets[-1].view(-1) *)
}.
Arguments mkTargets {D} _ _.
Arguments det_targets {D} _.
Arguments seg_targets {D} _.

(** ** MultiHeadLoss._forward_impl *)

Section Forward.

(** The ground truth of the detection head, as the data loader gives it. *)
Variable DetTargets : Type.

(** Modelled from the spec: [build_targets] (lib/core/postprocess.py) is
    not among the sources; it is called once and returns the matches of
    every detection scale. *)
Variable build_targets :
  Cfg -> list Tensor -> DetTargets -> Model -> list (list Match).

(** Modelled from the spec: [bbox_iou] (lib/core/general.py) is not among
    the sources; with [x1y1x2y2=False, CIoU=True] it compares the k-th
    predicted box with the k-th target box, elementwise over the matches. *)
Variable bbox_iou : Box -> Box -> R.

(** The body of [if n:] for the matches [ms] of the scale [pi]: returns
    the accumulators and the objectness target. *)
Definition match_block (h : store) (BCEcls : Criterion) (model : Model)
    (cp cn : R) (pi : Tensor) (ms : list Match) (st : Acc) (tobj : list R)
  : res (Acc * list R) :=
  let nt' := (nt st + length ms)%nat in
  ps ← mapM_res (gather pi) ms;
  let iou := zip_with (fun m p => bbox_iou (decode p.2 (m_anchor m)) (m_tbox m))
               ms ps in
  l ← mean_R ((fun x => 1.0 - x) <$> iou);
  let lbox' := lbox st + l in
  let tobj' := scatter tobj (zip (fst <$> ps) (obj_target model <$> iou)) in
  lcls' ←
    (if decide (1 < nc model)%Z then
       t ← mapM_res (fun mp => cls_target_row cp cn mp.1 mp.2.2) (zip ms ps);
       v ← call h BCEcls (concat ((fun p => cls p.2) <$> ps)) (concat t);
       iadd (lcls st) v
     else Ok (lcls st));
  Ok (mkAcc lcls' lbox' (lobj st) nt', tobj').

(** The loop body up to the objectness loss. *)
Definition scale_targets (h : store) (BCEcls : Criterion) (model : Model)
    (cp cn : R) (bt : list (list Match)) (i : nat) (pi : Tensor) (st : Acc)
  : res (Acc * list R) :=
  ms ← getitem bt i;
  let tobj := (fun _ => 0) <$> cells pi in
  if decide (length ms ≠ 0%nat) then
    match_block h BCEcls model cp cn pi ms st tobj
  else Ok (st, tobj).

(** One iteration of [for i, pi in enumerate(predictions[0])]. *)
Definition scale_step (h : store) (BCEcls BCEobj : Criterion) (model : Model)
    (cp cn : R) (bal : list R) (bt : list (list Match))
    (i : nat) (pi : Tensor) (st : Acc) : res Acc :=
  '(st, tobj) ← scale_targets h BCEcls model cp cn bt i pi st;
  v ← call h BCEobj (obj <$> cells pi) tobj;
  w ← getitem bal i;
  lobj' ← iadd (lobj st) (scale v w);
  Ok (mkAcc (lcls st) (lbox st) lobj' (nt st)).

Fixpoint detection_loop (h : store) (BCEcls BCEobj : Criterion)
    (model : Model) (cp cn : R) (bal : list R) (bt : list (list Match))
    (i : nat) (pis : list Tensor) (st : Acc) : res Acc :=
  match pis with
  | [] => Ok st
  | pi :: pis' =>
      st' ← scale_step h BCEcls BCEobj model cp cn bal bt i pi st;
      detection_loop h BCEcls BCEobj model cp cn bal bt (S i) pis' st'
  end.

(** The result: [loss] and the tuple
    [(lbox, lobj, lcls, lseg, loss)] of plain numbers. *)
Definition Result : Type := R * (R * R * R * R * R).

Definition _forward_impl (h : store) (self : MultiHeadLoss)
    (predictions : Predictions) (targets : Targets DetTargets)
    (model : Model) : res Result :=
  let cfg := cfg self in
  let bt := build_targets cfg (det predictions) (det_targets targets) model in
  let '(cp, cn) := smooth_BCE 0.0 in
  match losses self with
  | [BCEcls; BCEobj; BCEseg] =>
      let no := length (det predictions) in
      let bal := balance no in
      st ← detection_loop h BCEcls BCEobj model cp cn bal bt 0
              (det predictions) (mkAcc 0 0 0 0);
      lseg ← call h BCEseg (seg predictions) (seg_targets targets);
      weigh self no st lseg
  | _ => Raise ValueError
  end.

(** The matches [_forward_impl] works with, and its detection loop from
    the zero accumulators: the two first steps of [_forward_impl], named
    for the statements below. *)
Definition matches_of (self : MultiHeadLoss) (predictions : Predictions)
    (targets : Targets DetTargets) (model : Model) : list (list Match) :=
  build_targets (cfg self) (det predictions) (det_targets targets) model.

Definition run_loop (h : store) (self : MultiHeadLoss)
    (BCEcls BCEobj : Criterion) (predictions : Predictions)
    (targets : Targets DetTargets) (model : Model) : res Acc :=
  detection_loop h BCEcls BCEobj model (smooth_BCE 0.0).1 (smooth_BCE 0.0).2
    (balance (length (det predictions)))
    (matches_of self predictions targets model) 0
    (det predictions) (mkAcc 0 0 0 0).

(** [_forward_impl] with its end, from [s = 3 / no] on, on float32 values:
    the detection loop and the criteria are those of the model on the
    reals. *)
Definition _forward_impl32 (h : store) (self : MultiHeadLoss)
    (predictions : Predictions) (targets : Targets DetTargets)
    (model : Model) : res Result32 :=
  let cfg := cfg self in
  let bt := build_targets cfg (det predictions) (det_targets targets) model in
  let '(cp, cn) := smooth_BCE 0.0 in
  match losses self with
  | [BCEcls; BCEobj; BCEseg] =>
      let no := length (det predictions) in
      let bal := balance no in
      st ← detection_loop h BCEcls BCEobj model cp cn bal bt 0
              (det predictions) (mkAcc 0 0 0 0);
      lseg ← call h BCEseg (seg predictions) (seg_targets targets);
      weigh32 self no st lseg
  | _ => Raise ValueError
  end.

(** [MultiHeadLoss.forward] *)
Definition forward (h : store) (self : MultiHeadLoss)
    (head_fields : Predictions) (head_targets : Targets DetTargets)
    (model : Model) : res Result :=
  '(total_loss, head_losses) ← _forward_impl h self head_fields head_targets model;
  Ok (total_loss, head_losses).

End Forward.

(** ** Notions used in the statements *)

(** The four terms of the returned tuple as the scaling step defines them:
    an accumulator of the detection loop, or the value [rseg] of the
    segmentation loss, times its gain, the output-count factor [3 / no]
    (not for the segmentation), the factor 1.4 of the objectness for four
    scales, and its weight [lam]. *)
Definition lcls_term (self : MultiHeadLoss) (no : nat) (st : Acc) (lam : R) : R :=
  lcls st * (CLS_GAIN (LOSS (cfg self)) * (3 / INR no) * lam).

Definition lobj_term (self : MultiHeadLoss) (no : nat) (st : Acc) (lam : R) : R :=
  lobj st * (OBJ_GAIN (LOSS (cfg self)) * (3 / INR no)
             * (if decide (no = 4%nat) then 1.4 else 1.0) * lam).

Definition lbox_term (self : MultiHeadLoss) (no : nat) (st : Acc) (lam : R) : R :=
  lbox st * (BOX_GAIN (LOSS (cfg self)) * (3 / INR no) * lam).

Definition lseg_term (self : MultiHeadLoss) (rseg : R) (lam : R) : R :=
  rseg * (SEG_GAIN (LOSS (cfg self)) * lam).

(** The same loss object with [cfg.TRAIN.FREEZE_SEG] set to [b]. *)
Definition set_freeze (b : bool) (self : MultiHeadLoss) : MultiHeadLoss :=
  mkMultiHeadLoss (losses self) (lambdas self)
    (mkCfg (LOSS (cfg self)) (mkTrainCfg b)).

(** The IoU of every match of a scale, as [match_block] computes them from
    the gathered cells [ps]. *)
Definition ious (bbox_iou : Box -> Box -> R) (ms : list Match)
    (ps : list (nat * Cell)) : list R :=
  zip_with (fun m p => bbox_iou (decode p.2 (m_anchor m)) (m_tbox m)) ms ps.

(** The objectness target the code computes for the match [m] on a cell
    with channels [x]. *)
Definition match_target (bbox_iou : Box -> Box -> R) (model : Model)
    (m : Match) (x : Cell) : R :=
  obj_target model (bbox_iou (decode x (m_anchor m)) (m_tbox m)).

(** The writes of [tobj[b, a, gj, gi] = ...], in the order of the matches. *)
Definition writes (bbox_iou : Box -> Box -> R) (model : Model)
    (ms : list Match) (ps : list (nat * Cell)) : list (nat * R) :=
  zip (fst <$> ps) (obj_target model <$> ious bbox_iou ms ps).

(** A cell lies inside a tensor of the given shape. *)
Definition in_bounds (sh c : nat * nat * nat * nat) : Prop :=
  let '(B, A, H, W) := sh in
  let '(b, a, gj, gi) := c in
  (b < B /\ a < A /\ gj < H /\ gi < W)%nat.

(** The loss of one element under a criterion of [get_loss]: the elementwise
    BCE, times the focal factor with [alpha = 0.25] when focal loss is on. *)
Definition criterion_elem (gamma pw z t : R) : R :=
  if decide (0 < gamma) then bce_elem pw z t * focal_factor gamma 0.25 z t
  else bce_elem pw z t.

(** One value lies between 0 and another, element by element. *)
Definition value_between (v b : value) : Prop :=
  match v, b with
  | Scalar x, Scalar y => 0 <= x <= y
  | Elems xs, Elems ys => Forall2 (fun x y => 0 <= x <= y) xs ys
  | _, _ => False
  end.

(** A value without a negative element. *)
Definition value_nonneg (v : value) : Prop :=
  match v with
  | Scalar x => 0 <= x
  | Elems xs => Forall (fun x => 0 <= x) xs
  end.

(** What makes the value of a criterion non-negative: a non-negative
    [pos_weight] of the object it calls and, for a focal wrapper, an [alpha]
    between 0 and 1. *)
Definition criterion_nonneg (h : store) (c : Criterion) : Prop :=
  match c with
  | Plain l => exists o, h !! l = Some o /\ 0 <= pos_weight o
  | Focal w => exists o, h !! loss_fcn w = Some o /\ 0 <= pos_weight o
                         /\ 0 <= alpha w <= 1
  end.

(** A criterion that reduces to a scalar whenever its two inputs have the
    same, non-zero, number of elements. *)
Definition returns_scalar (h : store) (c : Criterion) : Prop :=
  forall input target : list R,
    length input = length target -> input ≠ [] ->
    exists r, call h c input target = Ok (Scalar r).

(** The matches [ms] of a scale fit its prediction [pi]: the objectness
    channel is not empty, every match addresses a stored cell and, when
    classes are trained ([nc > 1]), its class indexes a class logit. *)
Definition scale_fits (nc : Z) (pi : Tensor) (ms : list Match) : Prop :=
  cells pi ≠ []
  /\ forall m, m ∈ ms ->
       exists c x,
         cell_of (shape pi) m = Ok c
         /\ cells pi !! offset (shape pi) c = Some x
         /\ ((1 < nc)%Z ->
             exists k, norm_index (length (cls x)) (m_tcls m) = Ok k).

(** The four terms of the returned tuple on float32 values, before the
    freeze flag is looked at. *)
Definition lcls_term32 (self : MultiHeadLoss) (no : nat) (st : Acc) (lam : R) : f32 :=
  imul (f32_of (lcls st)) (CLS_GAIN (LOSS (cfg self)) * (3 / INR no) * lam).

Definition lobj_term32 (self : MultiHeadLoss) (no : nat) (st : Acc) (lam : R) : f32 :=
  imul (f32_of (lobj st))
    (OBJ_GAIN (LOSS (cfg self)) * (3 / INR no)
     * (if decide (no = 4%nat) then 1.4 else 1.0) * lam).

Definition lbox_term32 (self : MultiHeadLoss) (no : nat) (st : Acc) (lam : R) : f32 :=
  imul (f32_of (lbox st)) (BOX_GAIN (LOSS (cfg self)) * (3 / INR no) * lam).

Definition lseg_term32 (self : MultiHeadLoss) (rseg : R) (lam : R) : f32 :=
  imul (f32_of rseg) (SEG_GAIN (LOSS (cfg self)) * lam).

(** A float32 that is a number. *)
Definition is_finite (x : f32) : bool :=
  match x with
  | Fin _ => true
  | _ => false
  end.

(** A finite float32 lies within the range of the type. *)
Definition representable (x : f32) : Prop :=
  match x with
  | Fin r => - FLT_OVERFLOW < r < FLT_OVERFLOW
  | _ => True
  end.

(** A float32 that is not below zero: a non-negative number, the positive
    infinity, or nan. *)
Definition not_negative (x : f32) : Prop :=
  match x with
  | Fin r => 0 <= r
  | Inf s => s = false
  | NaN => True
  end.

(** [t[idx] = vals] for index tensors that may address an element more than
    once: the result has the size of [t], an element that no write addresses
    is kept, and an element that writes address holds the value of one of
    them.  Which one, torch does not say; [scatter] is the outcome in which
    the writes happen in their order. *)
Definition assigned (t : list R) (ws : list (nat * R)) (t' : list R) : Prop :=
  length t' = length t
  /\ (forall o, Forall (fun w => w.1 ≠ o) ws -> t' !! o = t !! o)
  /\ (forall o, (o < length t)%nat -> Exists (fun w => w.1 = o) ws ->
        exists v, (o, v) ∈ ws /\ t' !! o = Some v).


(** ** tools/train.py: the decisions of [main] that are computed in place

    [main] is a sequence of calls into torch and into modules that are not
    among the sources; what it computes itself are the arguments and
    conditions below. *)

(** [shuffle=(cfg.TRAIN.SHUFFLE & rank == -1)]: [&] binds tighter than [==],
    and a bool is the integer 0 or 1 under [&]. *)
Definition train_shuffle (SHUFFLE : bool) (rank : Z) : bool :=
  bool_decide (Z.land (Z.b2z SHUFFLE) rank = (-1)%Z).

(** [range(begin_epoch+1, cfg.TRAIN.END_EPOCH+1)]. *)
Definition epochs (begin_epoch END_EPOCH : Z) : list Z :=
  seqZ (begin_epoch + 1) ((END_EPOCH + 1) - (begin_epoch + 1)).

(** [epoch % cfg.TRAIN.VAL_FREQ == 0 or epoch == cfg.TRAIN.END_EPOCH+1 and
    rank in [-1, 0]]: [and] binds tighter than [or]; the remainder has the
    sign of the divisor and raises [ZeroDivisionError] for a zero divisor. *)
Definition validates (VAL_FREQ END_EPOCH rank epoch : Z) : res bool :=
  if decide (VAL_FREQ = 0)%Z then Raise ZeroDivisionError
  else Ok (bool_decide (epoch `mod` VAL_FREQ = 0)%Z
           || (bool_decide (epoch = END_EPOCH + 1)%Z
               && bool_decide (rank = -1 \/ rank = 0)%Z)).

(** An IoU function for runs in which every prediction is perfect. *)
Definition unit_iou : Box -> Box -> R := fun _ _ => 1.

(** ** A small run

    One detection scale of one cell, one segmentation pixel, the three
    criteria as [get_loss] builds them without focal loss, all gains and
    weights 1.  [stub_iou] stands for an IoU function: it reads the overlap
    off the target box, so that two targets on one cell differ in IoU. *)
Module Scenario.

Definition cfg0 (freeze : bool) : Cfg :=
  mkCfg (mkLossCfg 1 1 1 0 None 1 1 1 1) (mkTrainCfg freeze).

Definition h0 : store := [mkBCE 1 "mean"; mkBCE 1 "mean"; mkBCE 1 "mean"].

Definition self0 (freeze : bool) : MultiHeadLoss :=
  mkMultiHeadLoss [Plain 0; Plain 1; Plain 2]%nat [1; 1; 1; 1] (cfg0 freeze).

Definition pi0 : Tensor := mkTensor (1, 1, 1, 1)%nat [mkCell 0 0 0 0 0 []].

Definition predictions0 : Predictions := mkPredictions [pi0] [0].

Definition targets0 : Targets unit := mkTargets tt [1].

Definition model0 : Model := mkModel 1 1.

Definition st0 : Acc := mkAcc 0 0 0 0.

Definition no_matches : Cfg -> list Tensor -> unit -> Model -> list (list Match) :=
  fun _ _ _ _ => [[]].

Definition stub_iou : Box -> Box -> R := fun _ t => bx t.

Definition one_match : list Match :=
  [mkMatch 0 0 0 0 (mkBox 1 0 0 0) 0 (1, 1)].

Definition two_matches : list Match :=
  [mkMatch 0 0 0 0 (mkBox 1 0 0 0) 0 (1, 1);
   mkMatch 0 0 0 0 (mkBox 0.5 0 0 0) 0 (1, 1)].

(** A scale of two cells with a match on each of them, of IoU 1 and 0.5
    under [stub_iou]. *)
Definition pi2 : Tensor :=
  mkTensor (1, 1, 1, 2)%nat [mkCell 0 0 0 0 0 []; mkCell 0 0 0 0 0 []].

Definition apart : list Match :=
  [mkMatch 0 0 0 0 (mkBox 1 0 0 0) 0 (1, 1);
   mkMatch 0 0 0 1 (mkBox 0.5 0 0 0) 0 (1, 1)].

(** A second run, in which the scale has a match and two class logits, the
    gains and the weights differ from each other, and the segmentation gain
    and the number of classes can be chosen.  [half_iou] is an IoU function
    that gives every pair of boxes the overlap 0.5. *)
Definition cfg1 (seg_gain : R) (freeze : bool) : Cfg :=
  mkCfg (mkLossCfg 1 1 1 0 (Some [1; 2; 3; 4]) 0.5 1 0.05 seg_gain)
    (mkTrainCfg freeze).

Definition self1 (seg_gain : R) (freeze : bool) : MultiHeadLoss :=
  mkMultiHeadLoss [Plain 0; Plain 1; Plain 2]%nat [1; 2; 3; 4]
    (cfg1 seg_gain freeze).

Definition cell1 : Cell := mkCell 0 0 0 0 0 [0; 0].

Definition pi1 : Tensor := mkTensor (1, 1, 1, 1)%nat [cell1].

Definition predictions1 : Predictions := mkPredictions [pi1] [0].

Definition model1 (nc : Z) : Model := mkModel 1 nc.

Definition a_match (tbox : Box) : Match := mkMatch 0 0 0 0 tbox 1 (1, 1).

Definition matched_by (ms : list Match)
  : Cfg -> list Tensor -> unit -> Model -> list (list Match) :=
  fun _ _ _ _ => [ms].

Definition half_iou : Box -> Box -> R := fun _ _ => 0.5.

(** The criteria of [get_loss] with focal loss on, [FL_GAMMA = 1.5]. *)
Definition cfg_focal : Cfg :=
  mkCfg (mkLossCfg 1 1 1 1.5 None 1 1 1 1) (mkTrainCfg false).

Definition h_focal : store :=
  [mkBCE 1 "none"; mkBCE 1 "none"; mkBCE 1 "mean"].

Definition self_focal : MultiHeadLoss :=
  mkMultiHeadLoss
    [Focal (mkFocal 0 1.5 0.25 "mean"); Focal (mkFocal 1 1.5 0.25 "mean");
     Plain 2]%nat [1; 1; 1; 1] cfg_focal.

(** A segmentation gain of 2^125: with the weight 4 of the run the
    segmentation loss is multiplied by 2^127, a float32. *)
Definition steep_gain : R := 42535295865117307932921825928971026432.

(** Target assignment that gives every scale the same matches. *)
Definition match_each (ms : list Match)
  : Cfg -> list Tensor -> unit -> Model -> list (list Match) :=
  fun _ pis _ _ => (fun _ => ms) <$> pis.

End Scenario.

Import Scenario.

(** * Properties *)

(** ** Outcomes *)

Lemma bind_Ok {A B} (m : res A) (f : A -> res B) (b : B) :
  m ≫= f = Ok b -> exists a, m = Ok a /\ f a = Ok b.
Proof. destruct m as [a|e]; simpl; [eauto | discriminate]. Qed.

Lemma bind_ret_r {A} (m : res A) : (m ≫= Ok) = m.
Proof. destruct m; reflexivity. Qed.

Lemma getitem_Ok {A} (l : list A) (i : nat) (x : A) :
  getitem l i = Ok x <-> l !! i = Some x.
Proof. unfold getitem. destruct (l !! i); split; congruence. Qed.

Lemma getitem_lookup {A} (l : list A) (i : nat) (x : A) :
  l !! i = Some x -> getitem l i = Ok x.
Proof. apply getitem_Ok. Qed.

Lemma mapM_res_lookup {A B} (f : A -> res B) (l : list A) (ys : list B) :
  mapM_res f l = Ok ys ->
  length ys = length l
  /\ forall k x, l !! k = Some x -> exists y, ys !! k = Some y /\ f x = Ok y.
Proof.
  revert ys. induction l as [|a l IH]; intros ys H; simpl in H.
  - inversion H. split; [reflexivity|]. intros k x Hk. discriminate.
  - apply bind_Ok in H as (y & Hy & H). apply bind_Ok in H as (ys' & Hys & H).
    inversion H; subst. destruct (IH _ Hys) as [Hlen Hl].
    split; [simpl; congruence|].
    intros [|k] x Hk; simpl in Hk.
    + inversion Hk; subst. exists y. auto.
    + apply Hl, Hk.
Qed.

(** ** smooth_BCE *)

(** C6.  For every smoothing factor [eps] (so for every [eps] in [0,1))
    [smooth_BCE] returns the pair (1 - 0.5 eps, 0.5 eps); it returns (1, 0)
    for [eps = 0] and (0.95, 0.05) for [eps = 0.1], over the reals and also
    in binary64 arithmetic.  The function reads and writes no state: its
    result depends on [eps] alone. *)
Theorem smooth_BCE_pair :
  (forall eps : R, smooth_BCE eps = (1 - 0.5 * eps, 0.5 * eps))
  /\ smooth_BCE 0 = (1, 0)
  /\ smooth_BCE 0.1 = (0.95, 0.05)
  /\ smooth_BCE_f64 0%float = (1.0, 0.0)%float
  /\ smooth_BCE_f64 0x1.999999999999ap-4%float
     = (0x1.e666666666666p-1, 0x1.999999999999ap-5)%float.
Proof.
  unfold smooth_BCE.
  split; [intros eps; f_equal; lra|].
  split; [f_equal; lra|].
  split; [f_equal; lra|].
  split; reflexivity.
Qed.

(** ** MultiHeadLoss.__init__ and get_loss *)

Lemma nonneg_forallb (l : list R) :
  forallb (fun lam => bool_decide (0.0 <= lam)) l = true
  <-> Forall (fun lam => 0 <= lam) l.
Proof.
  induction l as [|x l IH]; simpl.
  - split; auto.
  - rewrite andb_true_iff, IH, bool_decide_eq_true, Forall_cons.
    split; intros []; split; auto; lra.
Qed.

Lemma negative_forallb (l : list R) :
  Exists (fun lam => lam < 0) l ->
  forallb (fun lam => bool_decide (0.0 <= lam)) l = false.
Proof.
  intros H. apply not_true_is_false. rewrite nonneg_forallb.
  intros HF. apply Exists_exists in H as (x & Hx & Hneg).
  rewrite Forall_forall in HF. specialize (HF x Hx). lra.
Qed.

Lemma ones_nonneg (n : nat) :
  Forall (fun lam => 0 <= lam) ((fun _ : nat => 1.0) <$> seq 0 n).
Proof.
  apply Forall_fmap, Forall_forall. intros ? _. simpl. lra.
Qed.

Lemma ones_replicate (k n : nat) :
  (fun _ : nat => 1.0) <$> seq k n = replicate n 1.
Proof.
  revert k. induction n as [|n IH]; intros k; simpl; [reflexivity|].
  f_equal; [lra | apply IH].
Qed.

Lemma MultiHeadLoss_init_falsy (losses : list Criterion) (cfg : Cfg)
    (lambdas : option (list R)) :
  falsy lambdas = true ->
  MultiHeadLoss_init losses cfg lambdas
  = Ok (mkMultiHeadLoss losses (replicate (length losses + 1) 1) cfg).
Proof.
  intros Hf. unfold MultiHeadLoss_init. rewrite Hf.
  rewrite (proj2 (nonneg_forallb _) (ones_nonneg _)).
  now rewrite ones_replicate.
Qed.

Lemma MultiHeadLoss_init_given (losses : list Criterion) (cfg : Cfg)
    (lambdas : list R) :
  lambdas ≠ [] -> Forall (fun lam => 0 <= lam) lambdas ->
  MultiHeadLoss_init losses cfg (Some lambdas)
  = Ok (mkMultiHeadLoss losses lambdas cfg).
Proof.
  intros Hne Hall. unfold MultiHeadLoss_init.
  destruct lambdas as [|x l]; [congruence|]. simpl falsy. cbv iota. simpl default.
  now rewrite (proj2 (nonneg_forallb _) Hall).
Qed.

(** C7.  Construction raises [AssertionError] as soon as the weight vector
    holds a negative element, and every vector of non-negative weights is
    accepted (the empty one is replaced by the default first).  The check is
    part of the constructor: a [MultiHeadLoss] on which a forward pass could
    run exists only as its [Ok] result. *)
Theorem MultiHeadLoss_init_validates (losses : list Criterion) (cfg : Cfg)
    (lambdas : list R) :
  (Exists (fun lam => lam < 0) lambdas ->
   MultiHeadLoss_init losses cfg (Some lambdas) = Raise AssertionError)
  /\ (Forall (fun lam => 0 <= lam) lambdas ->
      exists self, MultiHeadLoss_init losses cfg (Some lambdas) = Ok self).
Proof.
  split.
  - intros Hneg. unfold MultiHeadLoss_init.
    destruct lambdas as [|x l]; [inversion Hneg|]. simpl falsy.
    cbv iota. simpl default. now rewrite (negative_forallb _ Hneg).
  - intros Hall. destruct lambdas as [|x l].
    + rewrite MultiHeadLoss_init_falsy by reflexivity. eauto.
    + rewrite MultiHeadLoss_init_given by (auto; discriminate). eauto.
Qed.

Lemma MultiHeadLoss_init_validates_witness :
  MultiHeadLoss_init [] (cfg0 false) (Some [1; -1]) = Raise AssertionError
  /\ exists self,
      MultiHeadLoss_init [] (cfg0 false) (Some [1; 1; 1; 1]) = Ok self.
Proof.
  split.
  - apply (MultiHeadLoss_init_validates [] (cfg0 false) [1; -1]).
    apply Exists_cons_tl, Exists_cons_hd. lra.
  - apply (MultiHeadLoss_init_validates [] (cfg0 false) [1; 1; 1; 1]).
    repeat constructor; lra.
Defined.

Lemma FocalLoss_init_Ok (h : store) (l : loc) (o : BCEWithLogitsLoss) (g a : R) :
  h !! l = Some o ->
  FocalLoss_init h l g a
  = Ok (mkFocal l g a (reduction o), <[l := mkBCE (pos_weight o) "none"]> h).
Proof. intros H. unfold FocalLoss_init. now rewrite (getitem_lookup _ _ _ H). Qed.

Lemma get_loss_Ok (cfg : Cfg) (h : store) :
  exists c1 c2 h',
    get_loss cfg h
    = (loss ← MultiHeadLoss_init [c1; c2; Plain (length h + 2)%nat] cfg
                (MULTI_HEAD_LAMBDA (LOSS cfg));
       Ok (loss, h')).
Proof.
  unfold get_loss, alloc. rewrite !length_app. simpl length.
  destruct (decide (0 < FL_GAMMA (LOSS cfg))) as [Hg|Hg].
  - erewrite FocalLoss_init_Ok.
    2:{ rewrite lookup_app_l by (rewrite !length_app; simpl; lia).
        rewrite lookup_app_l by (rewrite !length_app; simpl; lia).
        apply list_lookup_middle. reflexivity. }
    simpl. erewrite FocalLoss_init_Ok.
    2:{ rewrite list_lookup_insert_ne by lia.
        rewrite lookup_app_l by (rewrite !length_app; simpl; lia).
        apply list_lookup_middle. rewrite length_app. reflexivity. }
    simpl. replace (length h + 1 + 1)%nat with (length h + 2)%nat by lia.
    eauto.
  - simpl. replace (length h + 1 + 1)%nat with (length h + 2)%nat by lia. eauto.
Qed.

(** The run of [Scenario] is what [get_loss] builds from its configuration. *)
Lemma get_loss_scenario (f : bool) : get_loss (cfg0 f) [] = Ok (self0 f, h0).
Proof.
  unfold get_loss. simpl.
  destruct (decide (0 < 0)) as [H|_]; [lra|].
  cbn [mbind res_bind].
  rewrite (MultiHeadLoss_init_falsy _ _ None eq_refl). reflexivity.
Qed.

(** C10.  With a falsy [lambdas] ([None] or the empty list) the stored
    weights are all ones, one more than there are losses, and construction
    succeeds; [get_loss] passes three losses, so its default has length 4.
    A non-empty vector of non-negative weights is stored as it is, whatever
    its length: nothing checks that it has four elements. *)
Theorem MultiHeadLoss_default_lambdas :
  (forall losses cfg lambdas, falsy lambdas = true ->
     MultiHeadLoss_init losses cfg lambdas
     = Ok (mkMultiHeadLoss losses (replicate (length losses + 1) 1) cfg))
  /\ (forall cfg (h : store), falsy (MULTI_HEAD_LAMBDA (LOSS cfg)) = true ->
      exists self h',
        get_loss cfg h = Ok (self, h')
        /\ length (losses self) = 3%nat
        /\ lambdas self = [1; 1; 1; 1])
  /\ (forall losses cfg (lambdas : list R),
        lambdas ≠ [] -> Forall (fun lam => 0 <= lam) lambdas ->
        MultiHeadLoss_init losses cfg (Some lambdas)
        = Ok (mkMultiHeadLoss losses lambdas cfg)).
Proof.
  split; [|split].
  - apply MultiHeadLoss_init_falsy.
  - intros cfg h Hf. destruct (get_loss_Ok cfg h) as (c1 & c2 & h' & ->).
    rewrite (MultiHeadLoss_init_falsy _ _ _ Hf). simpl. eauto.
  - apply MultiHeadLoss_init_given.
Qed.

Lemma MultiHeadLoss_default_lambdas_witness :
  let ls := [Plain 0; Plain 1; Plain 2]%nat in
  MultiHeadLoss_init ls (cfg0 false) (Some [])
  = Ok (mkMultiHeadLoss ls [1; 1; 1; 1] (cfg0 false))
  /\ (exists self h',
        get_loss (cfg0 false) [] = Ok (self, h')
        /\ length (losses self) = 3%nat
        /\ lambdas self = [1; 1; 1; 1])
  /\ MultiHeadLoss_init ls (cfg0 false) (Some [1; 2])
     = Ok (mkMultiHeadLoss ls [1; 2] (cfg0 false)).
Proof.
  intros ls.
  destruct MultiHeadLoss_default_lambdas as (Hdef & Hget & Hgiven).
  split; [|split].
  - apply (Hdef ls (cfg0 false) (Some [])). reflexivity.
  - apply (Hget (cfg0 false) []). reflexivity.
  - apply (Hgiven ls (cfg0 false) [1; 2]).
    + discriminate.
    + repeat constructor; lra.
Defined.

(** ** BCEWithLogitsLoss and FocalLoss *)

Lemma BCE_call_lookup (h : store) (l : loc) (o : BCEWithLogitsLoss)
    (input target : list R) :
  h !! l = Some o ->
  BCE_call h l input target
  = bce_with_logits (pos_weight o) (reduction o) input target.
Proof. intros H. unfold BCE_call. now rewrite (getitem_lookup _ _ _ H). Qed.

Lemma bce_with_logits_none (pw : R) (input target : list R) :
  bce_with_logits pw "none" input target
  = if decide (length input = length target)
    then Ok (Elems (zip_with (bce_elem pw) input target))
    else Raise ValueError.
Proof.
  unfold bce_with_logits.
  destruct (decide (_ \/ _)) as [_|Hn]; [|exfalso; apply Hn; auto].
  destruct (decide (length input = length target)); reflexivity.
Qed.

Lemma bce_with_logits_mean (pw : R) (input target : list R) :
  length input = length target ->
  bce_with_logits pw "mean" input target
  = t_mean (zip_with (bce_elem pw) input target).
Proof.
  intros Hlen. unfold bce_with_logits.
  destruct (decide (_ \/ _)) as [_|Hn]; [|exfalso; apply Hn; auto].
  destruct (decide (length input = length target)); [|congruence].
  reflexivity.
Qed.

Lemma FocalLoss_init_lookup (h : store) (l : loc) (o : BCEWithLogitsLoss) :
  h !! l = Some o ->
  <[l := mkBCE (pos_weight o) "none"]> h !! l = Some (mkBCE (pos_weight o) "none").
Proof. intros H. apply list_lookup_insert_eq. eapply lookup_lt_Some, H. Qed.

Lemma focal_scale_Elems (g a : R) (f : R -> R -> R) (pred true : list R) :
  focal_scale g a (Elems (zip_with f pred true)) pred true
  = Ok (zip_with Rmult (zip_with f pred true)
          (zip_with (focal_factor g a) pred true)).
Proof.
  unfold focal_scale. rewrite !length_zip_with.
  destruct (decide _); [reflexivity | congruence].
Qed.

Lemma BCE_call_wrapped (h : store) (l : loc) (o : BCEWithLogitsLoss)
    (pred true : list R) :
  h !! l = Some o ->
  BCE_call (<[l := mkBCE (pos_weight o) "none"]> h) l pred true
  = if decide (length pred = length true)
    then Ok (Elems (zip_with (bce_elem (pos_weight o)) pred true))
    else Raise ValueError.
Proof.
  intros Hl. rewrite (BCE_call_lookup _ _ _ _ _ (FocalLoss_init_lookup _ _ _ Hl)).
  apply bce_with_logits_none.
Qed.

Lemma FocalLoss_forward_wrapped (h : store) (l : loc) (o : BCEWithLogitsLoss)
    (g a : R) (pred true : list R) :
  h !! l = Some o ->
  FocalLoss_forward (<[l := mkBCE (pos_weight o) "none"]> h)
    (mkFocal l g a (reduction o)) pred true
  = if decide (length pred = length true) then
      let e := zip_with Rmult
                 (zip_with (bce_elem (pos_weight o)) pred true)
                 (zip_with (focal_factor g a) pred true) in
      if decide (reduction o = "mean"%string) then t_mean e
      else if decide (reduction o = "sum"%string) then t_sum e
      else Ok (Elems e)
    else Raise ValueError.
Proof.
  intros Hl. unfold FocalLoss_forward. simpl loss_fcn.
  rewrite (BCE_call_wrapped _ _ _ _ _ Hl).
  destruct (decide (length pred = length true)); [|reflexivity].
  cbn [mbind res_bind]. rewrite focal_scale_Elems. reflexivity.
Qed.

(** C5.  Wrapping sets the reduction of the wrapped object to ["none"] in
    the store, so that a later call of it returns the elementwise loss, and
    the wrapper reduces its reweighted elements with the reduction the
    object had when it was wrapped: the mean for ["mean"], the sum for
    ["sum"], the elements themselves for anything else. *)
Theorem FocalLoss_replays_reduction (h : store) (l : loc)
    (o : BCEWithLogitsLoss) (g a : R) :
  h !! l = Some o ->
  exists w h',
    FocalLoss_init h l g a = Ok (w, h')
    /\ reduction <$> h' !! l = Some "none"%string
    /\ forall pred true : list R,
        BCE_call h' l pred true
        = (if decide (length pred = length true)
           then Ok (Elems (zip_with (bce_elem (pos_weight o)) pred true))
           else Raise ValueError)
        /\ FocalLoss_forward h' w pred true
           = (if decide (length pred = length true) then
                let e := zip_with Rmult
                           (zip_with (bce_elem (pos_weight o)) pred true)
                           (zip_with (focal_factor g a) pred true) in
                if decide (reduction o = "mean"%string) then t_mean e
                else if decide (reduction o = "sum"%string) then t_sum e
                else Ok (Elems e)
              else Raise ValueError).
Proof.
  intros Hl. eexists _, _. split; [apply (FocalLoss_init_Ok _ _ _ _ _ Hl)|].
  split; [now rewrite (FocalLoss_init_lookup _ _ _ Hl)|].
  intros pred true. split.
  - apply (BCE_call_wrapped _ _ _ _ _ Hl).
  - apply (FocalLoss_forward_wrapped _ _ _ _ _ _ _ Hl).
Qed.

Lemma FocalLoss_replays_reduction_witness :
  exists w h',
    FocalLoss_init [mkBCE 1 "sum"] 0 1.5 0.25 = Ok (w, h')
    /\ reduction <$> h' !! 0%nat = Some "none"%string
    /\ forall pred true : list R,
        BCE_call h' 0 pred true
        = (if decide (length pred = length true)
           then Ok (Elems (zip_with (bce_elem 1) pred true))
           else Raise ValueError)
        /\ FocalLoss_forward h' w pred true
           = (if decide (length pred = length true) then
                t_sum (zip_with Rmult (zip_with (bce_elem 1) pred true)
                         (zip_with (focal_factor 1.5 0.25) pred true))
              else Raise ValueError).
Proof.
  exact (FocalLoss_replays_reduction [mkBCE 1 "sum"] 0 (mkBCE 1 "sum") 1.5 0.25
           eq_refl).
Defined.

Lemma tpow_0 (x : R) : tpow x 0 = 1.
Proof. unfold tpow. destruct (decide (0 = 0)); [reflexivity | congruence]. Qed.

Lemma focal_factor_0_half (z t : R) : focal_factor 0 0.5 z t = 0.5.
Proof. unfold focal_factor. cbv zeta. rewrite tpow_0. lra. Qed.

Lemma zip_with_mul_half (f : R -> R -> R) (pred true : list R) :
  zip_with Rmult (zip_with f pred true)
    (zip_with (focal_factor 0 0.5) pred true)
  = (fun x => x * 0.5) <$> zip_with f pred true.
Proof.
  revert true. induction pred as [|z pred IH]; intros [|t true]; simpl;
    try reflexivity.
  rewrite focal_factor_0_half. f_equal. apply IH.
Qed.

Lemma sum_R_scale (c : R) (l : list R) :
  sum_R ((fun x => x * c) <$> l) = sum_R l * c.
Proof.
  unfold sum_R. induction l as [|x l IH]; [simpl; lra|].
  rewrite fmap_cons. cbn [foldr]. rewrite IH. lra.
Qed.

Lemma t_mean_scale (c : R) (l : list R) :
  t_mean ((fun x => x * c) <$> l) = (v ← t_mean l; Ok (scale v c)).
Proof.
  unfold t_mean, mean_R. destruct l as [|x l]; [reflexivity|].
  rewrite fmap_cons. cbn [mbind res_bind scale].
  change (x * c :: ((fun x0 => x0 * c) <$> l))
    with ((fun x0 => x0 * c) <$> (x :: l)).
  rewrite sum_R_scale, length_fmap. do 2 f_equal. unfold Rdiv. lra.
Qed.

Lemma t_mean_singleton (x : R) : t_mean [x] = Ok (Scalar x).
Proof.
  unfold t_mean, mean_R, sum_R. simpl. do 2 f_equal. lra.
Qed.

Lemma sigmoid_0 : sigmoid 0 = / 2.
Proof. unfold sigmoid. rewrite Ropp_0, exp_0. lra. Qed.

Lemma bce_elem_0_1 : bce_elem 1 0 1 = ln 2.
Proof.
  unfold bce_elem. rewrite sigmoid_0, ln_Rinv by lra. lra.
Qed.

Lemma bce_elem_0_0 : bce_elem 1 0 0 = ln 2.
Proof.
  unfold bce_elem. rewrite sigmoid_0.
  replace (1 - / 2) with (/ 2) by lra. rewrite ln_Rinv by lra. lra.
Qed.

Lemma ln_2_pos : 0 < ln 2.
Proof. pose proof ln_lt_2. lra. Qed.

(** C2, as amended.  With [gamma = 0] and [alpha = 0.5] the reweighting
    factor of a target between 0 and 1 is 0.5, for every logit, and for
    targets between 0 and 1 the wrapper returns the base loss under its
    original reduction ([none], [mean] or [sum]) multiplied by 0.5; it fails
    exactly when the base loss fails. *)
Theorem FocalLoss_gamma0_alpha_half_halves (h : store) (l : loc)
    (o : BCEWithLogitsLoss) :
  h !! l = Some o ->
  (reduction o = "none" \/ reduction o = "mean" \/ reduction o = "sum")%string ->
  exists w h',
    FocalLoss_init h l 0 0.5 = Ok (w, h')
    /\ (forall z t, 0 <= t <= 1 -> focal_factor 0 0.5 z t = 0.5)
    /\ forall pred true : list R,
        Forall (fun t => 0 <= t <= 1) true ->
        FocalLoss_forward h' w pred true
        = (v ← BCE_call h l pred true; Ok (scale v 0.5)).
Proof.
  intros Hl Hred. eexists _, _. split; [apply (FocalLoss_init_Ok _ _ _ _ _ Hl)|].
  split; [intros z t _; apply focal_factor_0_half|].
  intros pred true _. rewrite (FocalLoss_forward_wrapped _ _ _ _ _ _ _ Hl).
  rewrite (BCE_call_lookup _ _ _ _ _ Hl). unfold bce_with_logits.
  destruct (decide (_ \/ _)) as [_|Hn]; [|tauto].
  destruct (decide (length pred = length true)); [|reflexivity].
  cbv zeta. rewrite zip_with_mul_half.
  destruct Hred as [Hr|[Hr|Hr]]; rewrite Hr.
  - reflexivity.
  - destruct (decide ("mean" = "mean")%string); [|congruence].
    destruct (decide (_ \/ _)) as [_|Hn]; [|exfalso; apply Hn; auto].
    apply t_mean_scale.
  - destruct (decide ("sum" = "mean")%string); [discriminate|].
    destruct (decide ("sum" = "sum")%string); [|congruence].
    destruct (decide (_ \/ _)) as [[?|?]|_]; [discriminate..|].
    unfold t_sum. cbn [mbind res_bind scale]. now rewrite sum_R_scale.
Qed.

Lemma FocalLoss_gamma0_alpha_half_halves_witness :
  exists w h',
    FocalLoss_init [mkBCE 1 "mean"] 0 0 0.5 = Ok (w, h')
    /\ (forall z t, 0 <= t <= 1 -> focal_factor 0 0.5 z t = 0.5)
    /\ forall pred true : list R,
        Forall (fun t => 0 <= t <= 1) true ->
        FocalLoss_forward h' w pred true
        = (v ← BCE_call [mkBCE 1 "mean"] 0 pred true; Ok (scale v 0.5)).
Proof.
  apply (FocalLoss_gamma0_alpha_half_halves [mkBCE 1 "mean"] 0 (mkBCE 1 "mean")).
  - reflexivity.
  - right; left; reflexivity.
Defined.

(** C2 as stated fails: for the logit 0 and the target 1, a base loss with
    positive weight 1 and reduction [mean] returns [ln 2], and the wrapper
    with [gamma = 0], [alpha = 0.5] around it returns half of that. *)
Lemma FocalLoss_gamma0_alpha_half_not_identity :
  exists w h',
    FocalLoss_init [mkBCE 1 "mean"] 0 0 0.5 = Ok (w, h')
    /\ BCE_call [mkBCE 1 "mean"] 0 [0] [1] = Ok (Scalar (ln 2))
    /\ FocalLoss_forward h' w [0] [1] = Ok (Scalar (ln 2 * 0.5))
    /\ FocalLoss_forward h' w [0] [1] ≠ BCE_call [mkBCE 1 "mean"] 0 [0] [1].
Proof.
  assert (Hb : BCE_call [mkBCE 1 "mean"] 0 [0] [1] = Ok (Scalar (ln 2))).
  { rewrite (BCE_call_lookup _ _ (mkBCE 1 "mean")) by reflexivity.
    rewrite bce_with_logits_mean by reflexivity.
    simpl zip_with. now rewrite t_mean_singleton, bce_elem_0_1. }
  assert (Hf : FocalLoss_forward [mkBCE 1 "none"] (mkFocal 0 0 0.5 "mean") [0] [1]
               = Ok (Scalar (ln 2 * 0.5))).
  { etransitivity;
      [exact (FocalLoss_forward_wrapped [mkBCE 1 "mean"] 0 (mkBCE 1 "mean")
                0 0.5 [0] [1] eq_refl)|].
    simpl. rewrite t_mean_singleton, bce_elem_0_1, focal_factor_0_half.
    reflexivity. }
  exists (mkFocal 0 0 0.5 "mean"), [mkBCE 1 "none"].
  split; [reflexivity|]. split; [exact Hb|]. split; [exact Hf|].
  rewrite Hb, Hf. intros [=Heq]. pose proof ln_2_pos. lra.
Qed.

(** ** The scaling step *)

Lemma item_scale (v : value) (c : R) :
  item (scale v c) = (r ← item v; Ok (r * c)).
Proof. destruct v as [r|[|x [|y l]]]; reflexivity. Qed.

Lemma item_freeze (v : value) :
  item (freeze v) = (r ← item v; Ok (0 * r)).
Proof. destruct v as [r|[|x [|y l]]]; reflexivity. Qed.

Lemma weigh_eq (self : MultiHeadLoss) (no : nat) (st : Acc) (v : value)
    (lam0 lam1 lam2 lam3 : R) :
  no ≠ 0%nat ->
  lambdas self !! 0%nat = Some lam0 -> lambdas self !! 1%nat = Some lam1 ->
  lambdas self !! 2%nat = Some lam2 -> lambdas self !! 3%nat = Some lam3 ->
  weigh self no st v
  = (rseg ← item v;
     let lseg := if FREEZE_SEG (TRAIN (cfg self)) then 0
                 else lseg_term self rseg lam3 in
     let loss := lbox_term self no st lam2 + lobj_term self no st lam1
                 + lcls_term self no st lam0 + lseg in
     Ok (loss, (lbox_term self no st lam2, lobj_term self no st lam1,
                lcls_term self no st lam0, lseg, loss))).
Proof.
  intros Hno H0 H1 H2 H3. unfold weigh.
  destruct (decide (no = 0%nat)); [congruence|].
  rewrite (getitem_lookup _ _ _ H0), (getitem_lookup _ _ _ H1),
    (getitem_lookup _ _ _ H2), (getitem_lookup _ _ _ H3).
  cbn [mbind res_bind].
  destruct (FREEZE_SEG (TRAIN (cfg self))).
  - rewrite item_freeze, item_scale. destruct (item v) as [r|e]; [|reflexivity].
    cbn [mbind res_bind]. unfold lbox_term, lobj_term, lcls_term.
    replace (0 * (r * (SEG_GAIN (LOSS (cfg self)) * lam3))) with 0 by lra.
    reflexivity.
  - rewrite item_scale. destruct (item v) as [r|e]; reflexivity.
Qed.

Lemma weigh_Ok (self : MultiHeadLoss) (no : nat) (st : Acc) (v : value)
    (r : R * (R * R * R * R * R)) :
  weigh self no st v = Ok r ->
  exists lam0 lam1 lam2 lam3,
    no ≠ 0%nat
    /\ lambdas self !! 0%nat = Some lam0 /\ lambdas self !! 1%nat = Some lam1
    /\ lambdas self !! 2%nat = Some lam2 /\ lambdas self !! 3%nat = Some lam3.
Proof.
  unfold weigh. destruct (decide (no = 0%nat)); [discriminate|].
  intros H.
  apply bind_Ok in H as (lam0 & H0 & H).
  apply bind_Ok in H as (lam1 & H1 & H).
  apply bind_Ok in H as (lam2 & H2 & H).
  apply bind_Ok in H as (lam3 & H3 & H).
  exists lam0, lam1, lam2, lam3.
  rewrite getitem_Ok in H0, H1, H2, H3. auto.
Qed.

(** ** The scaling step on float32 values *)

Lemma f32_of_Fin (r : R) :
  - FLT_OVERFLOW < r < FLT_OVERFLOW -> f32_of r = Fin r.
Proof. intros H. unfold f32_of. repeat case_decide; try lra. reflexivity. Qed.

Lemma f32_of_Inf (r : R) : FLT_OVERFLOW <= r -> f32_of r = Inf false.
Proof. intros H. unfold f32_of. case_decide; [reflexivity | lra]. Qed.

Lemma f32_of_0 : f32_of 0 = Fin 0.
Proof. apply f32_of_Fin. unfold FLT_OVERFLOW. lra. Qed.

Lemma f32_of_representable (r : R) : representable (f32_of r).
Proof. unfold f32_of. repeat case_decide; simpl; auto. lra. Qed.

Lemma fadd_representable (x y : f32) : representable (fadd x y).
Proof.
  destruct x as [a|s|], y as [b|s'|]; simpl; auto using f32_of_representable.
  case_decide; simpl; auto.
Qed.

Lemma fmul_0_l (x : f32) :
  fmul (Fin 0) x = if is_finite x then Fin 0 else NaN.
Proof.
  destruct x as [b|s|]; simpl; [|case_decide; [reflexivity | congruence]|reflexivity].
  rewrite Rmult_0_l. apply f32_of_0.
Qed.

Lemma fadd_0_r (x : f32) : representable x -> fadd x (Fin 0) = x.
Proof.
  destruct x as [a|s|]; simpl; auto. intros Ha.
  rewrite Rplus_0_r. now apply f32_of_Fin.
Qed.

Lemma fadd_NaN_r (x : f32) : fadd x NaN = NaN.
Proof. destruct x; reflexivity. Qed.

Lemma item32_map32 (f : f32 -> f32) (v : value32) :
  item32 (map32 f v) = (x ← item32 v; Ok (f x)).
Proof. destruct v as [x|[|x [|y l]]]; reflexivity. Qed.

Lemma item32_to32 (v : value) : item32 (to32 v) = (r ← item v; Ok (f32_of r)).
Proof. destruct v as [x|[|x [|y l]]]; reflexivity. Qed.

Lemma weigh32_eq (self : MultiHeadLoss) (no : nat) (st : Acc) (v : value)
    (lam0 lam1 lam2 lam3 : R) :
  no ≠ 0%nat ->
  lambdas self !! 0%nat = Some lam0 -> lambdas self !! 1%nat = Some lam1 ->
  lambdas self !! 2%nat = Some lam2 -> lambdas self !! 3%nat = Some lam3 ->
  weigh32 self no st v
  = (rseg ← item v;
     let lseg := if FREEZE_SEG (TRAIN (cfg self))
                 then fmul (Fin 0) (lseg_term32 self rseg lam3)
                 else lseg_term32 self rseg lam3 in
     let loss := fadd (fadd (fadd (lbox_term32 self no st lam2)
                               (lobj_term32 self no st lam1))
                         (lcls_term32 self no st lam0)) lseg in
     Ok (loss, (lbox_term32 self no st lam2, lobj_term32 self no st lam1,
                lcls_term32 self no st lam0, lseg, loss))).
Proof.
  intros Hno H0 H1 H2 H3. unfold weigh32.
  destruct (decide (no = 0%nat)); [congruence|].
  rewrite (getitem_lookup _ _ _ H0), (getitem_lookup _ _ _ H1),
    (getitem_lookup _ _ _ H2), (getitem_lookup _ _ _ H3).
  cbn [mbind res_bind]. unfold freeze32.
  destruct (FREEZE_SEG (TRAIN (cfg self))).
  - rewrite !item32_map32, item32_to32.
    destruct (item v) as [r|e]; reflexivity.
  - rewrite item32_map32, item32_to32.
    destruct (item v) as [r|e]; reflexivity.
Qed.

Lemma weigh32_Ok (self : MultiHeadLoss) (no : nat) (st : Acc) (v : value)
    (r : Result32) :
  weigh32 self no st v = Ok r ->
  exists lam0 lam1 lam2 lam3,
    no ≠ 0%nat
    /\ lambdas self !! 0%nat = Some lam0 /\ lambdas self !! 1%nat = Some lam1
    /\ lambdas self !! 2%nat = Some lam2 /\ lambdas self !! 3%nat = Some lam3.
Proof.
  unfold weigh32. destruct (decide (no = 0%nat)); [discriminate|].
  intros H.
  apply bind_Ok in H as (lam0 & H0 & H).
  apply bind_Ok in H as (lam1 & H1 & H).
  apply bind_Ok in H as (lam2 & H2 & H).
  apply bind_Ok in H as (lam3 & H3 & H).
  exists lam0, lam1, lam2, lam3.
  rewrite getitem_Ok in H0, H1, H2, H3. auto.
Qed.

(** The pass with the flag on is the pass with the flag off, with the
    segmentation entry multiplied by zero. *)
Lemma weigh32_freeze (self : MultiHeadLoss) (no : nat) (st : Acc) (v : value) :
  weigh32 (set_freeze true self) no st v
  = (r ← weigh32 (set_freeze false self) no st v;
     let '(_, (vbox, vobj, vcls, vseg, _)) := r in
     let z := fmul (Fin 0) vseg in
     Ok (fadd (fadd (fadd vbox vobj) vcls) z,
         (vbox, vobj, vcls, z, fadd (fadd (fadd vbox vobj) vcls) z))).
Proof.
  unfold weigh32. destruct (decide (no = 0%nat)); [reflexivity|].
  cbn [set_freeze cfg lambdas LOSS TRAIN FREEZE_SEG].
  destruct (getitem (lambdas self) 0) as [lam0|]; [|reflexivity].
  cbn [mbind res_bind].
  destruct (getitem (lambdas self) 1) as [lam1|]; [|reflexivity].
  cbn [mbind res_bind].
  destruct (getitem (lambdas self) 2) as [lam2|]; [|reflexivity].
  cbn [mbind res_bind].
  destruct (getitem (lambdas self) 3) as [lam3|]; [|reflexivity].
  cbn [mbind res_bind]. unfold freeze32.
  rewrite item32_map32. destruct (item32 (map32 _ _)) as [r|]; reflexivity.
Qed.

(** ** The detection loop and the whole pass *)

Section ForwardProperties.

Variable DetTargets : Type.
Variable build_targets :
  Cfg -> list Tensor -> DetTargets -> Model -> list (list Match).
Variable bbox_iou : Box -> Box -> R.

Lemma scale_targets_empty (h : store) (BCEcls : Criterion) (model : Model)
    (cp cn : R) (bt : list (list Match)) (i : nat) (pi : Tensor) (st : Acc) :
  bt !! i = Some [] ->
  scale_targets bbox_iou h BCEcls model cp cn bt i pi st
  = Ok (st, (fun _ => 0) <$> cells pi).
Proof.
  intros Hbt. unfold scale_targets. rewrite (getitem_lookup _ _ _ Hbt).
  reflexivity.
Qed.

Lemma scale_step_empty (h : store) (BCEcls BCEobj : Criterion)
    (model : Model) (cp cn : R) (bal : list R) (bt : list (list Match))
    (i : nat) (pi : Tensor) (st : Acc) :
  bt !! i = Some [] ->
  scale_step bbox_iou h BCEcls BCEobj model cp cn bal bt i pi st
  = (v ← call h BCEobj (obj <$> cells pi) ((fun _ => 0) <$> cells pi);
     w ← getitem bal i;
     lobj' ← iadd (lobj st) (scale v w);
     Ok (mkAcc (lcls st) (lbox st) lobj' (nt st))).
Proof.
  intros Hbt. unfold scale_step.
  now rewrite (scale_targets_empty _ _ _ _ _ _ _ _ _ Hbt).
Qed.

(** C3.  A scale without matches is not an error: its objectness target is
    the all-zero tensor of the shape of the objectness channel, the box and
    classification accumulators (and the target count) stay as they are, and
    the objectness loss of the full channel against that target, times the
    balance weight of the scale, is added to the objectness accumulator.  The
    step can only fail where any scale can: in the objectness criterion or
    for a scale index beyond the balance weights. *)
Theorem empty_scale_contributes_objectness_only (h : store)
    (BCEcls BCEobj : Criterion) (model : Model) (cp cn : R) (bal : list R)
    (bt : list (list Match)) (i : nat) (pi : Tensor) (st : Acc) :
  bt !! i = Some [] ->
  let tobj := (fun _ => 0) <$> cells pi in
  scale_targets bbox_iou h BCEcls model cp cn bt i pi st = Ok (st, tobj)
  /\ Forall (fun x => x = 0) tobj
  /\ length tobj = length (cells pi)
  /\ scale_step bbox_iou h BCEcls BCEobj model cp cn bal bt i pi st
     = (v ← call h BCEobj (obj <$> cells pi) tobj;
        w ← getitem bal i;
        lobj' ← iadd (lobj st) (scale v w);
        Ok (mkAcc (lcls st) (lbox st) lobj' (nt st)))
  /\ forall l w,
      call h BCEobj (obj <$> cells pi) tobj = Ok (Scalar l) ->
      bal !! i = Some w ->
      scale_step bbox_iou h BCEcls BCEobj model cp cn bal bt i pi st
      = Ok (mkAcc (lcls st) (lbox st) (lobj st + l * w) (nt st)).
Proof.
  intros Hbt tobj. split; [apply scale_targets_empty, Hbt|].
  split; [apply Forall_fmap, Forall_forall; reflexivity|].
  split; [apply length_fmap|].
  split; [apply scale_step_empty, Hbt|].
  intros l w Hcall Hw. rewrite (scale_step_empty _ _ _ _ _ _ _ _ _ _ _ Hbt).
  fold tobj. rewrite Hcall. cbn [mbind res_bind].
  rewrite (getitem_lookup _ _ _ Hw). reflexivity.
Qed.




Lemma forward_impl_unfold (h : store) (self : MultiHeadLoss)
    (predictions : Predictions) (targets : Targets DetTargets)
    (model : Model) (BCEcls BCEobj BCEseg : Criterion) :
  losses self = [BCEcls; BCEobj; BCEseg] ->
  _forward_impl DetTargets build_targets bbox_iou h self predictions targets model
  = (st ← run_loop DetTargets build_targets bbox_iou h self BCEcls BCEobj
            predictions targets model;
     lseg ← call h BCEseg (seg predictions) (seg_targets targets);
     weigh self (length (det predictions)) st lseg).
Proof. intros Hl. unfold _forward_impl. rewrite Hl. reflexivity. Qed.

Lemma forward_impl_losses (h : store) (self : MultiHeadLoss)
    (predictions : Predictions) (targets : Targets DetTargets)
    (model : Model) (r : Result) :
  _forward_impl DetTargets build_targets bbox_iou h self predictions targets model
  = Ok r ->
  exists BCEcls BCEobj BCEseg, losses self = [BCEcls; BCEobj; BCEseg].
Proof.
  unfold _forward_impl. cbn [smooth_BCE].
  destruct (losses self) as [|c1 [|c2 [|c3 [|c4 l]]]]; try discriminate.
  eauto.
Qed.

(** What a successful pass has computed. *)
Lemma forward_impl_Ok (h : store) (self : MultiHeadLoss)
    (predictions : Predictions) (targets : Targets DetTargets)
    (model : Model) (r : Result) :
  _forward_impl DetTargets build_targets bbox_iou h self predictions targets model
  = Ok r ->
  let no := length (det predictions) in
  exists BCEcls BCEobj BCEseg st vseg rseg lam0 lam1 lam2 lam3,
    losses self = [BCEcls; BCEobj; BCEseg]
    /\ lambdas self !! 0%nat = Some lam0 /\ lambdas self !! 1%nat = Some lam1
    /\ lambdas self !! 2%nat = Some lam2 /\ lambdas self !! 3%nat = Some lam3
    /\ run_loop DetTargets build_targets bbox_iou h self BCEcls BCEobj
         predictions targets model = Ok st
    /\ call h BCEseg (seg predictions) (seg_targets targets) = Ok vseg
    /\ item vseg = Ok rseg
    /\ r = (let lseg := if FREEZE_SEG (TRAIN (cfg self)) then 0
                        else lseg_term self rseg lam3 in
            let loss := lbox_term self no st lam2 + lobj_term self no st lam1
                        + lcls_term self no st lam0 + lseg in
            (loss, (lbox_term self no st lam2, lobj_term self no st lam1,
                    lcls_term self no st lam0, lseg, loss))).
Proof.
  intros H no.
  destruct (forward_impl_losses _ _ _ _ _ _ H) as (c1 & c2 & c3 & Hl).
  rewrite (forward_impl_unfold _ _ _ _ _ _ _ _ Hl) in H.
  apply bind_Ok in H as (st & Hloop & H).
  apply bind_Ok in H as (vseg & Hseg & H).
  destruct (weigh_Ok _ _ _ _ _ H)
    as (lam0 & lam1 & lam2 & lam3 & Hno & H0 & H1 & H2 & H3).
  rewrite (weigh_eq _ _ _ _ _ _ _ _ Hno H0 H1 H2 H3) in H.
  apply bind_Ok in H as (rseg & Hitem & H).
  exists c1, c2, c3, st, vseg, rseg, lam0, lam1, lam2, lam3.
  repeat (split; [assumption|]). now inversion H.
Qed.

Lemma forward_impl32_unfold (h : store) (self : MultiHeadLoss)
    (predictions : Predictions) (targets : Targets DetTargets)
    (model : Model) (BCEcls BCEobj BCEseg : Criterion) :
  losses self = [BCEcls; BCEobj; BCEseg] ->
  _forward_impl32 DetTargets build_targets bbox_iou h self predictions targets model
  = (st ← run_loop DetTargets build_targets bbox_iou h self BCEcls BCEobj
            predictions targets model;
     lseg ← call h BCEseg (seg predictions) (seg_targets targets);
     weigh32 self (length (det predictions)) st lseg).
Proof. intros Hl. unfold _forward_impl32. rewrite Hl. reflexivity. Qed.

Lemma forward_impl32_losses (h : store) (self : MultiHeadLoss)
    (predictions : Predictions) (targets : Targets DetTargets)
    (model : Model) (r : Result32) :
  _forward_impl32 DetTargets build_targets bbox_iou h self predictions targets model
  = Ok r ->
  exists BCEcls BCEobj BCEseg, losses self = [BCEcls; BCEobj; BCEseg].
Proof.
  unfold _forward_impl32. cbn [smooth_BCE].
  destruct (losses self) as [|c1 [|c2 [|c3 [|c4 l]]]]; try discriminate.
  eauto.
Qed.

(** What a successful pass has computed, on float32 values. *)
Lemma forward_impl32_Ok (h : store) (self : MultiHeadLoss)
    (predictions : Predictions) (targets : Targets DetTargets)
    (model : Model) (r : Result32) :
  _forward_impl32 DetTargets build_targets bbox_iou h self predictions targets model
  = Ok r ->
  let no := length (det predictions) in
  exists BCEcls BCEobj BCEseg st vseg rseg lam0 lam1 lam2 lam3,
    losses self = [BCEcls; BCEobj; BCEseg]
    /\ lambdas self !! 0%nat = Some lam0 /\ lambdas self !! 1%nat = Some lam1
    /\ lambdas self !! 2%nat = Some lam2 /\ lambdas self !! 3%nat = Some lam3
    /\ run_loop DetTargets build_targets bbox_iou h self BCEcls BCEobj
         predictions targets model = Ok st
    /\ call h BCEseg (seg predictions) (seg_targets targets) = Ok vseg
    /\ item vseg = Ok rseg
    /\ r = (let lseg := if FREEZE_SEG (TRAIN (cfg self))
                        then fmul (Fin 0) (lseg_term32 self rseg lam3)
                        else lseg_term32 self rseg lam3 in
            let loss := fadd (fadd (fadd (lbox_term32 self no st lam2)
                                      (lobj_term32 self no st lam1))
                                (lcls_term32 self no st lam0)) lseg in
            (loss, (lbox_term32 self no st lam2, lobj_term32 self no st lam1,
                    lcls_term32 self no st lam0, lseg, loss))).
Proof.
  intros H no.
  destruct (forward_impl32_losses _ _ _ _ _ _ H) as (c1 & c2 & c3 & Hl).
  rewrite (forward_impl32_unfold _ _ _ _ _ _ _ _ Hl) in H.
  apply bind_Ok in H as (st & Hloop & H).
  apply bind_Ok in H as (vseg & Hseg & H).
  destruct (weigh32_Ok _ _ _ _ _ H)
    as (lam0 & lam1 & lam2 & lam3 & Hno & H0 & H1 & H2 & H3).
  rewrite (weigh32_eq _ _ _ _ _ _ _ _ Hno H0 H1 H2 H3) in H.
  apply bind_Ok in H as (rseg & Hitem & H).
  exists c1, c2, c3, st, vseg, rseg, lam0, lam1, lam2, lam3.
  repeat (split; [assumption|]). now inversion H.
Qed.

(** C1, as amended.  The returned total is the float32 sum of the four
    entries of the returned tuple, in their order, and the fifth entry is
    that total.  The box, objectness and classification entries are the
    accumulators of the detection loop multiplied by the gain, by [3 / no],
    by 1.4 for the objectness when there are four scales, and by the
    weight.  The segmentation entry is the segmentation loss multiplied by
    its gain and its weight when [FREEZE_SEG] is off, and 0 times that
    product when it is on: 0 when the product is finite, nan when it is an
    infinity or nan. *)
Theorem total_loss_weighted_sum (h : store) (self : MultiHeadLoss)
    (predictions : Predictions) (targets : Targets DetTargets)
    (model : Model) (loss vbox vobj vcls vseg total : f32) :
  _forward_impl32 DetTargets build_targets bbox_iou h self predictions targets model
  = Ok (loss, (vbox, vobj, vcls, vseg, total)) ->
  let no := length (det predictions) in
  exists BCEcls BCEobj BCEseg st lseg rseg lam0 lam1 lam2 lam3,
    losses self = [BCEcls; BCEobj; BCEseg]
    /\ lambdas self !! 0%nat = Some lam0 /\ lambdas self !! 1%nat = Some lam1
    /\ lambdas self !! 2%nat = Some lam2 /\ lambdas self !! 3%nat = Some lam3
    /\ run_loop DetTargets build_targets bbox_iou h self BCEcls BCEobj
         predictions targets model = Ok st
    /\ call h BCEseg (seg predictions) (seg_targets targets) = Ok lseg
    /\ item lseg = Ok rseg
    /\ vcls = imul (f32_of (lcls st))
                (CLS_GAIN (LOSS (cfg self)) * (3 / INR no) * lam0)
    /\ vobj = imul (f32_of (lobj st))
                (OBJ_GAIN (LOSS (cfg self)) * (3 / INR no)
                 * (if decide (no = 4%nat) then 1.4 else 1.0) * lam1)
    /\ vbox = imul (f32_of (lbox st))
                (BOX_GAIN (LOSS (cfg self)) * (3 / INR no) * lam2)
    /\ (let scaled := imul (f32_of rseg) (SEG_GAIN (LOSS (cfg self)) * lam3) in
        vseg = (if FREEZE_SEG (TRAIN (cfg self))
                then (if is_finite scaled then Fin 0 else NaN)
                else scaled))
    /\ loss = fadd (fadd (fadd vbox vobj) vcls) vseg
    /\ total = loss.
Proof.
  intros H no.
  destruct (forward_impl32_Ok _ _ _ _ _ _ H)
    as (c1 & c2 & c3 & st & lseg & rseg & lam0 & lam1 & lam2 & lam3
        & Hl & H0 & H1 & H2 & H3 & Hloop & Hseg & Hitem & Hr).
  cbv zeta in Hr. inversion Hr; subst; clear Hr.
  exists c1, c2, c3, st, lseg, rseg, lam0, lam1, lam2, lam3.
  repeat (split; [assumption|]).
  split; [reflexivity|]. split; [reflexivity|]. split; [reflexivity|].
  split; [|split; reflexivity].
  cbv zeta. destruct (FREEZE_SEG (TRAIN (cfg self))); [|reflexivity].
  apply fmul_0_l.
Qed.

(** C8, as amended.  With [FREEZE_SEG] set, the segmentation entry of the
    returned tuple is 0 times the scaled segmentation loss (the loss of the
    segmentation criterion multiplied by its gain and its weight).  It is 0,
    and the total is the sum of the three other entries, when that scaled
    loss is finite; it is nan, and so is the total, when the scaled loss is
    an infinity or nan.  Against the same pass with the flag off (the
    matches of [build_targets] being the same), the pass with the flag on
    fails exactly when that one fails, and returns its box, objectness and
    classification entries unchanged and its segmentation entry multiplied
    by 0. *)
Theorem freeze_seg_zeroes_segmentation (h : store) (self : MultiHeadLoss)
    (predictions : Predictions) (targets : Targets DetTargets)
    (model : Model) :
  (forall loss vbox vobj vcls vseg total,
     FREEZE_SEG (TRAIN (cfg self)) = true ->
     _forward_impl32 DetTargets build_targets bbox_iou h self predictions
       targets model
     = Ok (loss, (vbox, vobj, vcls, vseg, total)) ->
     exists BCEcls BCEobj BCEseg lseg rseg lam3,
       losses self = [BCEcls; BCEobj; BCEseg]
       /\ lambdas self !! 3%nat = Some lam3
       /\ call h BCEseg (seg predictions) (seg_targets targets) = Ok lseg
       /\ item lseg = Ok rseg
       /\ total = loss
       /\ let scaled := imul (f32_of rseg) (SEG_GAIN (LOSS (cfg self)) * lam3) in
          (is_finite scaled = true ->
           vseg = Fin 0 /\ loss = fadd (fadd vbox vobj) vcls)
          /\ (is_finite scaled = false -> vseg = NaN /\ loss = NaN))
  /\ (matches_of DetTargets build_targets (set_freeze true self) predictions
        targets model
      = matches_of DetTargets build_targets (set_freeze false self) predictions
          targets model ->
      _forward_impl32 DetTargets build_targets bbox_iou h (set_freeze true self)
        predictions targets model
      = (r ← _forward_impl32 DetTargets build_targets bbox_iou h
               (set_freeze false self) predictions targets model;
         let '(_, (vbox, vobj, vcls, vseg, _)) := r in
         let z := fmul (Fin 0) vseg in
         Ok (fadd (fadd (fadd vbox vobj) vcls) z,
             (vbox, vobj, vcls, z, fadd (fadd (fadd vbox vobj) vcls) z))))
  /\ (forall vseg : f32,
        fmul (Fin 0) vseg = if is_finite vseg then Fin 0 else NaN).
Proof.
  split; [|split].
  - intros loss vbox vobj vcls vseg total Hfr H.
    destruct (forward_impl32_Ok _ _ _ _ _ _ H)
      as (c1 & c2 & c3 & st & lseg & rseg & lam0 & lam1 & lam2 & lam3
          & Hl & _ & _ & _ & H3 & _ & Hcall & Hitem & Hr).
    rewrite Hfr in Hr. cbv zeta in Hr.
    exists c1, c2, c3, lseg, rseg, lam3.
    split; [exact Hl|]. split; [exact H3|]. split; [exact Hcall|].
    split; [exact Hitem|].
    assert (Hb : vbox = lbox_term32 self (length (det predictions)) st lam2)
      by congruence.
    assert (Ho : vobj = lobj_term32 self (length (det predictions)) st lam1)
      by congruence.
    assert (Hc : vcls = lcls_term32 self (length (det predictions)) st lam0)
      by congruence.
    assert (Hs : vseg = fmul (Fin 0) (lseg_term32 self rseg lam3))
      by congruence.
    assert (Hlo : loss = fadd (fadd (fadd vbox vobj) vcls) vseg) by congruence.
    assert (Ht : total = loss) by congruence.
    clear Hr. split; [exact Ht|]. rewrite fmul_0_l in Hs. rewrite Hlo.
    change (imul (f32_of rseg) (SEG_GAIN (LOSS (cfg self)) * lam3))
      with (lseg_term32 self rseg lam3).
    cbv zeta. split; intros Hfin; rewrite Hfin in Hs; rewrite Hs.
    + split; [reflexivity|]. apply fadd_0_r, fadd_representable.
    + split; [reflexivity|]. apply fadd_NaN_r.
  - intros Hbt.
    destruct (losses self) as [|c1 [|c2 [|c3 [|c4 l]]]] eqn:Hl;
      try (unfold _forward_impl32; cbn [set_freeze losses]; rewrite Hl;
           reflexivity).
    rewrite (forward_impl32_unfold h (set_freeze true self) _ _ _ c1 c2 c3 Hl).
    rewrite (forward_impl32_unfold h (set_freeze false self) _ _ _ c1 c2 c3 Hl).
    unfold run_loop. rewrite Hbt.
    destruct (detection_loop _ _ _ _ _ _ _ _ _ _ _ _) as [st|e]; [|reflexivity].
    cbn [mbind res_bind].
    destruct (call h c3 _ _) as [lseg|e]; [|reflexivity].
    cbn [mbind res_bind]. apply weigh32_freeze.
  - apply fmul_0_l.
Qed.


End ForwardProperties.

(** ** The small run, evaluated *)

Lemma BCE_call_scenario (l : nat) (t : R) :
  (l < 3)%nat ->
  BCE_call h0 l [0] [t] = Ok (Scalar (bce_elem 1 0 t)).
Proof.
  intros Hl. destruct l as [|[|[|l]]]; [| | |lia];
    (erewrite BCE_call_lookup by reflexivity;
     simpl pos_weight; simpl reduction;
     rewrite bce_with_logits_mean by reflexivity;
     apply t_mean_singleton).
Qed.

Lemma run_loop_scenario (f : bool) :
  run_loop unit no_matches stub_iou h0 (self0 f) (Plain 0) (Plain 1)
    predictions0 targets0 model0
  = Ok (mkAcc 0 0 (0 + ln 2 * 4.0) 0).
Proof.
  unfold run_loop, matches_of, no_matches. simpl det.
  cbn [detection_loop]. rewrite bind_ret_r.
  rewrite scale_step_empty by reflexivity.
  simpl cells. simpl fmap.
  change (call h0 (Plain 1) [0] [0]) with (BCE_call h0 1 [0] [0]).
  rewrite BCE_call_scenario by lia. rewrite bce_elem_0_0. reflexivity.
Qed.

Lemma forward_scenario (f : bool) :
  _forward_impl unit no_matches stub_iou h0 (self0 f) predictions0 targets0 model0
  = Ok (let lseg := if f then 0 else ln 2 in
        (0 + 12 * ln 2 + 0 + lseg, (0, 12 * ln 2, 0, lseg, 0 + 12 * ln 2 + 0 + lseg))).
Proof.
  rewrite (forward_impl_unfold unit no_matches stub_iou h0 (self0 f) predictions0
             targets0 model0 (Plain 0) (Plain 1) (Plain 2) eq_refl).
  rewrite run_loop_scenario. cbn [mbind res_bind].
  change (call h0 (Plain 2) (seg predictions0) (seg_targets targets0))
    with (BCE_call h0 2 [0] [1]).
  rewrite BCE_call_scenario by lia. rewrite bce_elem_0_1. cbn [mbind res_bind].
  erewrite weigh_eq; [|simpl; lia|reflexivity..].
  cbn [item mbind res_bind]. cbv zeta.
  assert (Hb : lbox_term (self0 f) (length (det predictions0))
                 (mkAcc 0 0 (0 + ln 2 * 4.0) 0) 1 = 0).
  { unfold lbox_term. simpl. lra. }
  assert (Ho : lobj_term (self0 f) (length (det predictions0))
                 (mkAcc 0 0 (0 + ln 2 * 4.0) 0) 1 = 12 * ln 2).
  { unfold lobj_term. simpl. lra. }
  assert (Hc : lcls_term (self0 f) (length (det predictions0))
                 (mkAcc 0 0 (0 + ln 2 * 4.0) 0) 1 = 0).
  { unfold lcls_term. simpl. lra. }
  assert (Hs : (if FREEZE_SEG (TRAIN (cfg (self0 f))) then 0
                else lseg_term (self0 f) (ln 2) 1)
               = if f then 0 else ln 2).
  { destruct f; [reflexivity|]. unfold lseg_term. simpl. lra. }
  rewrite Hb, Ho, Hc, Hs. reflexivity.
Qed.

Lemma empty_scale_contributes_objectness_only_witness :
  scale_targets stub_iou h0 (Plain 0) model0 1 0 [[]] 0 pi0 st0 = Ok (st0, [0])
  /\ scale_step stub_iou h0 (Plain 0) (Plain 1) model0 1 0 (balance 1) [[]] 0
       pi0 st0
     = Ok (mkAcc 0 0 (0 + ln 2 * 4.0) 0).
Proof.
  destruct (empty_scale_contributes_objectness_only stub_iou h0 (Plain 0)
              (Plain 1) model0 1 0 (balance 1) [[]] 0 pi0 st0 eq_refl)
    as (Ht & _ & _ & _ & Hstep).
  split; [exact Ht|].
  apply (Hstep (ln 2) 4.0); [|reflexivity].
  change (BCE_call h0 1 [0] [0] = Ok (Scalar (ln 2))).
  rewrite BCE_call_scenario by lia. now rewrite bce_elem_0_0.
Defined.

(** ** The objectness target *)

Lemma scatter_app (t : list R) (ws1 ws2 : list (nat * R)) :
  scatter t (ws1 ++ ws2) = scatter (scatter t ws1) ws2.
Proof. apply foldl_app. Qed.

Lemma scatter_length (ws : list (nat * R)) (t : list R) :
  length (scatter t ws) = length t.
Proof.
  revert t. induction ws as [|w ws IH]; intros t; [reflexivity|].
  simpl. unfold scatter in IH. rewrite IH. apply length_insert.
Qed.

Lemma scatter_lookup_other (ws : list (nat * R)) (t : list R) (o : nat) :
  Forall (fun w => w.1 ≠ o) ws -> scatter t ws !! o = t !! o.
Proof.
  revert t. induction ws as [|w ws IH]; intros t Hall; [reflexivity|].
  apply Forall_cons in Hall as [Hw Hall]. simpl.
  unfold scatter in IH. rewrite IH by assumption.
  now apply list_lookup_insert_ne.
Qed.

Lemma scatter_lookup_last (ws : list (nat * R)) (t : list R) (k o : nat) (v : R) :
  ws !! k = Some (o, v) -> (o < length t)%nat ->
  (forall j w, (k < j)%nat -> ws !! j = Some w -> w.1 ≠ o) ->
  scatter t ws !! o = Some v.
Proof.
  intros Hk Ho Hlater.
  rewrite <- (take_drop_middle ws k (o, v) Hk), scatter_app.
  change (scatter ?t ((o, v) :: ?l)) with (scatter (<[o := v]> t) l).
  rewrite scatter_lookup_other.
  - apply list_lookup_insert_eq. now rewrite scatter_length.
  - apply Forall_forall. intros w Hw.
    apply list_elem_of_lookup in Hw as [j Hj].
    rewrite lookup_drop in Hj. apply (Hlater (S k + j)%nat); [lia | exact Hj].
Qed.

Lemma last_write (ws : list (nat * R)) (k : nat) (w : nat * R) :
  ws !! k = Some w ->
  exists j w', (k <= j)%nat /\ ws !! j = Some w' /\ w'.1 = w.1
    /\ forall j' w'', (j < j')%nat -> ws !! j' = Some w'' -> w''.1 ≠ w.1.
Proof.
  revert k w. induction ws as [|a ws IH] using rev_ind; intros k w Hk.
  - discriminate.
  - destruct (decide (a.1 = w.1)) as [Heq|Hne].
    + exists (length ws), a. split; [|split; [|split]].
      * apply lookup_lt_Some in Hk. rewrite length_app in Hk. simpl in Hk. lia.
      * apply list_lookup_middle. reflexivity.
      * exact Heq.
      * intros j' w'' Hj' Hw''. apply lookup_lt_Some in Hw''.
        rewrite length_app in Hw''. simpl in Hw''. lia.
    + assert (Hk' : ws !! k = Some w).
      { destruct (decide (k < length ws)%nat) as [Hlt|Hge].
        - now rewrite lookup_app_l in Hk.
        - pose proof (lookup_lt_Some _ _ _ Hk) as Hlen.
          rewrite length_app in Hlen. simpl in Hlen.
          assert (k = length ws) as -> by lia.
          rewrite list_lookup_middle in Hk by reflexivity.
          congruence. }
      destruct (IH _ _ Hk') as (j & w' & Hkj & Hj & Hw' & Hlater).
      exists j, w'. split; [exact Hkj|]. split.
      * rewrite lookup_app_l; [exact Hj|]. eapply lookup_lt_Some, Hj.
      * split; [exact Hw'|]. intros j' w'' Hj' Hw''.
        destruct (decide (j' < length ws)%nat) as [Hlt|Hge].
        -- rewrite lookup_app_l in Hw'' by assumption. eapply Hlater; eauto.
        -- pose proof (lookup_lt_Some _ _ _ Hw'') as Hlen.
           rewrite length_app in Hlen. simpl in Hlen.
           assert (j' = length ws) as -> by lia.
           rewrite list_lookup_middle in Hw'' by reflexivity.
           congruence.
Qed.

Lemma norm_index_lt (size : nat) (i : Z) (n : nat) :
  norm_index size i = Ok n -> (n < size)%nat.
Proof.
  unfold norm_index. repeat case_decide; intros [=]; subst; lia.
Qed.

Lemma cell_of_in_bounds (sh : nat * nat * nat * nat) (m : Match)
    (c : nat * nat * nat * nat) :
  cell_of sh m = Ok c -> in_bounds sh c.
Proof.
  destruct sh as [[[B A] H] W]. unfold cell_of. intros Hc.
  apply bind_Ok in Hc as (b & Hb & Hc). apply bind_Ok in Hc as (a & Ha & Hc).
  apply bind_Ok in Hc as (gj & Hgj & Hc). apply bind_Ok in Hc as (gi & Hgi & Hc).
  inversion Hc; subst. simpl.
  repeat split; eapply norm_index_lt; eassumption.
Qed.

Lemma offset_inj (sh c1 c2 : nat * nat * nat * nat) :
  in_bounds sh c1 -> in_bounds sh c2 ->
  offset sh c1 = offset sh c2 -> c1 = c2.
Proof.
  destruct sh as [[[B A] H] W], c1 as [[[b1 a1] j1] i1], c2 as [[[b2 a2] j2] i2].
  simpl. intros (_ & Ha1 & Hj1 & Hi1) (_ & Ha2 & Hj2 & Hi2) Heq.
  assert (Hstep : forall x1 y1 x2 y2 n : nat,
             (y1 < n -> y2 < n -> x1 * n + y1 = x2 * n + y2 ->
              x1 = x2 /\ y1 = y2)%nat).
  { intros x1 y1 x2 y2 n H1 H2 E.
    assert (x1 = x2) by nia. subst. split; [reflexivity | lia]. }
  apply Hstep in Heq as [Heq ->]; [|assumption..].
  apply Hstep in Heq as [Heq ->]; [|assumption..].
  apply Hstep in Heq as [-> ->]; [|assumption..].
  reflexivity.
Qed.

Lemma gather_Ok (pi : Tensor) (m : Match) (o : nat) (x : Cell) :
  gather pi m = Ok (o, x) ->
  exists c, cell_of (shape pi) m = Ok c /\ o = offset (shape pi) c
            /\ cells pi !! o = Some x.
Proof.
  unfold gather. intros H. apply bind_Ok in H as (c & Hc & H).
  apply bind_Ok in H as (x' & Hx & H). inversion H; subst.
  exists c. rewrite getitem_Ok in Hx. auto.
Qed.

Lemma writes_length (bbox_iou : Box -> Box -> R) (model : Model) (pi : Tensor)
    (ms : list Match) (ps : list (nat * Cell)) :
  mapM_res (gather pi) ms = Ok ps ->
  length (writes bbox_iou model ms ps) = length ms.
Proof.
  intros Hps. destruct (mapM_res_lookup _ _ _ Hps) as [Hlen _].
  unfold writes, ious. rewrite length_zip_with, !length_fmap, length_zip_with. lia.
Qed.

Lemma writes_lookup (bbox_iou : Box -> Box -> R) (model : Model) (pi : Tensor)
    (ms : list Match) (ps : list (nat * Cell)) (k : nat) (m : Match) :
  mapM_res (gather pi) ms = Ok ps -> ms !! k = Some m ->
  exists c x,
    cell_of (shape pi) m = Ok c
    /\ cells pi !! offset (shape pi) c = Some x
    /\ writes bbox_iou model ms ps !! k
       = Some (offset (shape pi) c, match_target bbox_iou model m x).
Proof.
  intros Hps Hk. destruct (mapM_res_lookup _ _ _ Hps) as [_ Hl].
  destruct (Hl _ _ Hk) as ([o x] & Hpk & Hg).
  destruct (gather_Ok _ _ _ _ Hg) as (c & Hc & -> & Hx).
  exists c, x. split; [exact Hc|]. split; [exact Hx|].
  unfold writes, ious. apply lookup_zip_Some. split.
  - now rewrite list_lookup_fmap, Hpk.
  - rewrite list_lookup_fmap, lookup_zip_with, Hk. cbn [mbind option_bind].
    rewrite Hpk. reflexivity.
Qed.

Lemma match_block_tobj (bbox_iou : Box -> Box -> R) (h : store)
    (BCEcls : Criterion) (model : Model) (cp cn : R) (pi : Tensor)
    (ms : list Match) (st : Acc) (tobj : list R) (st' : Acc) (tobj' : list R) :
  match_block bbox_iou h BCEcls model cp cn pi ms st tobj = Ok (st', tobj') ->
  exists ps, mapM_res (gather pi) ms = Ok ps
             /\ tobj' = scatter tobj (writes bbox_iou model ms ps).
Proof.
  unfold match_block. intros H.
  apply bind_Ok in H as (ps & Hps & H). apply bind_Ok in H as (l & _ & H).
  apply bind_Ok in H as (lc & _ & H). inversion H; subst.
  exists ps. auto.
Qed.

Lemma obj_target_gr1 (model : Model) (iou : R) :
  gr model = 1 -> 0 <= iou -> obj_target model iou = iou.
Proof.
  intros Hgr Hiou. unfold obj_target. rewrite Hgr, Rmax_left by lra. lra.
Qed.

Lemma scale_targets_matches (bbox_iou : Box -> Box -> R) (h : store)
    (BCEcls : Criterion) (model : Model) (cp cn : R) (bt : list (list Match))
    (i : nat) (pi : Tensor) (st : Acc) (ms : list Match) :
  bt !! i = Some ms -> ms ≠ [] ->
  scale_targets bbox_iou h BCEcls model cp cn bt i pi st
  = match_block bbox_iou h BCEcls model cp cn pi ms st ((fun _ => 0) <$> cells pi).
Proof.
  intros Hbt Hne. unfold scale_targets. rewrite (getitem_lookup _ _ _ Hbt).
  cbn [mbind res_bind]. destruct (decide (length ms ≠ 0%nat)) as [|Hn]; [reflexivity|].
  destruct ms; [congruence|]. exfalso. apply Hn. discriminate.
Qed.

Lemma match_block_single_class_eq (bbox_iou : Box -> Box -> R) (h : store)
    (BCEcls : Criterion) (model : Model) (cp cn : R) (pi : Tensor)
    (ms : list Match) (st : Acc) (tobj : list R) (ps : list (nat * Cell)) :
  mapM_res (gather pi) ms = Ok ps -> (nc model <= 1)%Z ->
  match_block bbox_iou h BCEcls model cp cn pi ms st tobj
  = (l ← mean_R ((fun x => 1.0 - x) <$> ious bbox_iou ms ps);
     Ok (mkAcc (lcls st) (lbox st + l) (lobj st) (nt st + length ms),
         scatter tobj (zip (fst <$> ps) (obj_target model <$> ious bbox_iou ms ps)))).
Proof.
  intros Hps Hnc. unfold match_block. rewrite Hps. cbn [mbind res_bind].
  fold (ious bbox_iou ms ps).
  destruct (mean_R _) as [l|e]; [|reflexivity]. cbn [mbind res_bind].
  destruct (decide (1 < nc model)%Z); [lia|]. reflexivity.
Qed.

(** The writes in their order are one of the outcomes of the assignment. *)
Lemma scatter_assigned (t : list R) (ws : list (nat * R)) :
  assigned t ws (scatter t ws).
Proof.
  split; [apply scatter_length|]. split.
  - intros o Hall. now apply scatter_lookup_other.
  - intros o Ho Hex. apply Exists_exists in Hex as (w & Hw & Hwo).
    apply list_elem_of_lookup in Hw as [k Hk].
    destruct (last_write _ _ _ Hk) as (j & w' & _ & Hj & Hw' & Hlater).
    destruct w' as [o' v]. simpl in Hw'. rewrite Hwo in Hw'. subst o'.
    exists v. split; [eapply list_elem_of_lookup_2, Hj|].
    apply (scatter_lookup_last _ _ j _ _ Hj Ho).
    intros j' w'' Hj' Hw''. rewrite <- Hwo. eapply Hlater; eauto.
Qed.

(** C4, as amended.  The objectness target of a scale is the all-zero
    tensor after the assignment [tobj[b, a, gj, gi] = ...] of the values
    (1 - gr) + gr * max(IoU, 0) of its matches, the IoU being that of the box
    decoded from the matched cell against the target box of the match.  For
    every match whose cell no other match of the scale addresses (every
    match, when the matched cells are pairwise distinct) the cell holds the
    value of that match, and with [gr = 1] and an IoU of 1 it holds 1.  This
    is so for the target the model computes and for every other outcome of
    the assignment: it does not depend on which write to a repeated cell
    stays. *)
Theorem objectness_target_at_matched_cell (bbox_iou : Box -> Box -> R)
    (h : store) (BCEcls : Criterion)
    (model : Model) (cp cn : R) (bt : list (list Match)) (i : nat)
    (pi : Tensor) (st st' : Acc) (tobj : list R) (ms : list Match)
    (k : nat) (m : Match) :
  bt !! i = Some ms ->
  scale_targets bbox_iou h BCEcls model cp cn bt i pi st = Ok (st', tobj) ->
  ms !! k = Some m ->
  (forall j m', j ≠ k -> ms !! j = Some m' ->
     cell_of (shape pi) m' ≠ cell_of (shape pi) m) ->
  exists c x ps,
    cell_of (shape pi) m = Ok c
    /\ cells pi !! offset (shape pi) c = Some x
    /\ mapM_res (gather pi) ms = Ok ps
    /\ assigned ((fun _ => 0) <$> cells pi) (writes bbox_iou model ms ps) tobj
    /\ forall t : list R,
        assigned ((fun _ => 0) <$> cells pi) (writes bbox_iou model ms ps) t ->
        t !! offset (shape pi) c = Some (match_target bbox_iou model m x)
        /\ (gr model = 1 ->
            bbox_iou (decode x (m_anchor m)) (m_tbox m) = 1 ->
            t !! offset (shape pi) c = Some 1).
Proof.
  intros Hbt Hst Hk Hown.
  assert (Hne : ms ≠ []) by (intros ->; discriminate).
  rewrite (scale_targets_matches _ _ _ _ _ _ _ _ _ _ _ Hbt Hne) in Hst.
  destruct (match_block_tobj _ _ _ _ _ _ _ _ _ _ _ _ Hst) as (ps & Hps & ->).
  destruct (writes_lookup bbox_iou model _ _ _ _ _ Hps Hk) as (c & x & Hc & Hx & Hw).
  exists c, x, ps. split; [exact Hc|]. split; [exact Hx|]. split; [exact Hps|].
  split; [apply scatter_assigned|].
  intros t (Hlen & _ & Hwritten).
  assert (Ho : (offset (shape pi) c
                < length ((fun _ : Cell => 0%R) <$> cells pi))%nat).
  { rewrite length_fmap. eapply lookup_lt_Some, Hx. }
  destruct (Hwritten _ Ho) as (v & Hv & Htv).
  { apply Exists_exists. eexists. split; [eapply list_elem_of_lookup_2, Hw|].
    reflexivity. }
  apply list_elem_of_lookup in Hv as [j Hj].
  assert (Hjk : j = k).
  { destruct (decide (j = k)) as [|Hjk]; [assumption|exfalso].
    pose proof (lookup_lt_Some _ _ _ Hj) as Hlt.
    rewrite (writes_length _ _ _ _ _ Hps) in Hlt.
    apply lookup_lt_is_Some in Hlt as [m' Hm'].
    destruct (writes_lookup bbox_iou model _ _ _ _ _ Hps Hm')
      as (c' & x' & Hc' & Hx' & Hw').
    rewrite Hj in Hw'. inversion Hw' as [[Hoff Hval]].
    apply (Hown _ _ Hjk Hm'). rewrite Hc, Hc'. f_equal.
    symmetry. eapply offset_inj; eauto using cell_of_in_bounds. }
  subst j. rewrite Hw in Hj. inversion Hj; subst v; clear Hj.
  split; [exact Htv|].
  intros Hgr Hiou. rewrite Htv. f_equal.
  unfold match_target. rewrite Hiou. apply obj_target_gr1; [exact Hgr | lra].
Qed.

Lemma gather_one : mapM_res (gather pi0) one_match
  = Ok [(0%nat, mkCell 0 0 0 0 0 [])].
Proof. reflexivity. Qed.

Lemma gather_two : mapM_res (gather pi0) two_matches
  = Ok [(0%nat, mkCell 0 0 0 0 0 []); (0%nat, mkCell 0 0 0 0 0 [])].
Proof. reflexivity. Qed.

Lemma scale_targets_two :
  exists st',
    scale_targets stub_iou h0 (Plain 0) model0 1 0 [two_matches] 0 pi0 st0
    = Ok (st', [obj_target model0 0.5]).
Proof.
  rewrite (scale_targets_matches stub_iou h0 (Plain 0) model0 1 0
             [two_matches] 0 pi0 st0 two_matches eq_refl) by discriminate.
  rewrite (match_block_single_class_eq _ _ _ _ _ _ _ _ _ _ _ gather_two)
    by (simpl; lia).
  eexists. reflexivity.
Qed.

Lemma gather_apart : mapM_res (gather pi2) apart
  = Ok [(0%nat, mkCell 0 0 0 0 0 []); (1%nat, mkCell 0 0 0 0 0 [])].
Proof. reflexivity. Qed.

Lemma scale_targets_apart :
  exists st',
    scale_targets stub_iou h0 (Plain 0) model0 1 0 [apart] 0 pi2 st0
    = Ok (st', [obj_target model0 1; obj_target model0 0.5]).
Proof.
  rewrite (scale_targets_matches stub_iou h0 (Plain 0) model0 1 0
             [apart] 0 pi2 st0 apart eq_refl) by discriminate.
  rewrite (match_block_single_class_eq _ _ _ _ _ _ _ _ _ _ _ gather_apart)
    by (simpl; lia).
  eexists. reflexivity.
Qed.

Lemma apart_cells (j k : nat) (m m' : Match) :
  j ≠ k -> apart !! k = Some m -> apart !! j = Some m' ->
  cell_of (shape pi2) m' ≠ cell_of (shape pi2) m.
Proof.
  intros Hjk Hk Hj.
  destruct k as [|[|k]]; destruct j as [|[|j]]; try discriminate; try congruence;
    inversion Hk; inversion Hj; discriminate.
Qed.

Lemma objectness_target_at_matched_cell_witness :
  exists st' tobj,
    scale_targets stub_iou h0 (Plain 0) model0 1 0 [apart] 0 pi2 st0
    = Ok (st', tobj)
    /\ tobj !! offset (shape pi2) (0, 0, 0, 0)%nat = Some 1
    /\ tobj !! offset (shape pi2) (0, 0, 0, 1)%nat = Some (obj_target model0 0.5).
Proof.
  destruct scale_targets_apart as [st' Hst].
  exists st', [obj_target model0 1; obj_target model0 0.5].
  split; [exact Hst|]. split.
  - destruct (objectness_target_at_matched_cell stub_iou h0 (Plain 0) model0 1 0
                [apart] 0 pi2 st0 st' _ apart 0
                (mkMatch 0 0 0 0 (mkBox 1 0 0 0) 0 (1, 1)) eq_refl Hst eq_refl)
      as (c & x & ps & Hc & Hx & Hps & Hown & Hall).
    { intros j m' Hj Hm'. now apply (apart_cells j 0%nat). }
    assert (c = (0, 0, 0, 0)%nat) as -> by (inversion Hc; reflexivity).
    apply (Hall _ Hown); reflexivity.
  - destruct (objectness_target_at_matched_cell stub_iou h0 (Plain 0) model0 1 0
                [apart] 0 pi2 st0 st' _ apart 1
                (mkMatch 0 0 0 1 (mkBox 0.5 0 0 0) 0 (1, 1)) eq_refl Hst eq_refl)
      as (c & x & ps & Hc & Hx & Hps & Hown & Hall).
    { intros j m' Hj Hm'. now apply (apart_cells j 1%nat). }
    assert (c = (0, 0, 0, 1)%nat) as -> by (inversion Hc; reflexivity).
    apply (Hall _ Hown).
Defined.

(** C4 as stated fails for two matches on one cell: with [gr = 1], the
    first match having an IoU of 1 and the second of 0.5, the claim asks
    the one cell to hold 1 and to hold 0.5.  The scale is processed without
    an error, and no target tensor meets the claim for both matches. *)
Lemma objectness_target_overwritten :
  exists m1 m2 x st' tobj,
    two_matches = [m1; m2]
    /\ scale_targets stub_iou h0 (Plain 0) model0 1 0 [two_matches] 0 pi0 st0
       = Ok (st', tobj)
    /\ cell_of (shape pi0) m1 = Ok (0, 0, 0, 0)%nat
    /\ cell_of (shape pi0) m2 = Ok (0, 0, 0, 0)%nat
    /\ cells pi0 !! offset (shape pi0) (0, 0, 0, 0)%nat = Some x
    /\ gr model0 = 1
    /\ match_target stub_iou model0 m1 x = 1
    /\ match_target stub_iou model0 m2 x = 0.5
    /\ forall t : list R,
        ~ (t !! offset (shape pi0) (0, 0, 0, 0)%nat
           = Some (match_target stub_iou model0 m1 x)
           /\ t !! offset (shape pi0) (0, 0, 0, 0)%nat
              = Some (match_target stub_iou model0 m2 x)).
Proof.
  destruct scale_targets_two as [st' Hst].
  assert (H1 : match_target stub_iou model0
                 (mkMatch 0 0 0 0 (mkBox 1 0 0 0) 0 (1, 1))
                 (mkCell 0 0 0 0 0 []) = 1).
  { unfold match_target. apply obj_target_gr1; [reflexivity | simpl; lra]. }
  assert (H2 : match_target stub_iou model0
                 (mkMatch 0 0 0 0 (mkBox 0.5 0 0 0) 0 (1, 1))
                 (mkCell 0 0 0 0 0 []) = 0.5).
  { unfold match_target. apply obj_target_gr1; [reflexivity | simpl; lra]. }
  eexists _, _, (mkCell 0 0 0 0 0 []), st', _.
  split; [reflexivity|]. split; [exact Hst|].
  do 4 (split; [reflexivity|]).
  split; [exact H1|]. split; [exact H2|].
  intros t [Ht1 Ht2]. rewrite H1 in Ht1. rewrite H2 in Ht2.
  rewrite Ht1 in Ht2. assert (E : (1 : R) = 0.5) by congruence. lra.
Qed.

(** ** The run with a match, evaluated *)

Lemma ln_2_lt_1 : ln 2 < 1.
Proof.
  rewrite <- (ln_exp 1). apply ln_increasing; [lra|].
  pose proof (exp_ineq1 1 ltac:(lra)). lra.
Qed.

Lemma bce_elem_1_0 (t : R) : bce_elem 1 0 t = ln 2.
Proof.
  unfold bce_elem. rewrite sigmoid_0.
  replace (1 - / 2) with (/ 2) by lra. rewrite ln_Rinv by lra. ring.
Qed.

Lemma BCE_call_scenario2 (l : nat) (t1 t2 : R) :
  (l < 3)%nat ->
  BCE_call h0 l [0; 0] [t1; t2] = Ok (Scalar (ln 2)).
Proof.
  intros Hl. destruct l as [|[|[|l]]]; [| | |lia];
    (erewrite BCE_call_lookup by reflexivity;
     simpl pos_weight; simpl reduction;
     rewrite bce_with_logits_mean by reflexivity;
     simpl zip_with; rewrite !bce_elem_1_0;
     unfold t_mean, mean_R, sum_R; simpl; do 2 f_equal; lra).
Qed.

Lemma gather_a_match (tbox : Box) :
  mapM_res (gather pi1) [a_match tbox] = Ok [(0%nat, cell1)].
Proof. reflexivity. Qed.

(** The detection loop of the run: the match adds [1 - IoU] to the box
    loss, the classification loss of its two logits when there is more than
    one class, and its scale the objectness loss with the balance weight 4. *)
Lemma run_loop_matched (iou : Box -> Box -> R) (self : MultiHeadLoss)
    (tbox : Box) (n : Z) (sg tg : list R) :
  run_loop unit (matched_by [a_match tbox]) iou h0 self (Plain 0) (Plain 1)
    (mkPredictions [pi1] sg) (mkTargets tt tg) (model1 n)
  = Ok (mkAcc (if decide (1 < n)%Z then ln 2 else 0)
          (1 - iou (decode cell1 (1, 1)) tbox) (4 * ln 2) 1).
Proof.
  unfold run_loop, matches_of, matched_by. simpl det.
  cbn [detection_loop]. rewrite bind_ret_r. unfold scale_step.
  rewrite (scale_targets_matches iou h0 (Plain 0) (model1 n) _ _
             [[a_match tbox]] 0 pi1 (mkAcc 0 0 0 0) [a_match tbox] eq_refl)
    by discriminate.
  unfold match_block. rewrite gather_a_match. cbn [mbind res_bind].
  simpl zip_with. simpl fmap. cbn [mean_R mbind res_bind].
  set (v := iou (decode cell1 (1, 1)) tbox).
  assert (Hobj : forall t, call h0 (Plain 1) [0] [t] = Ok (Scalar (ln 2))).
  { intros t. change (BCE_call h0 1 [0] [t] = Ok (Scalar (ln 2))).
    rewrite BCE_call_scenario by lia. now rewrite bce_elem_1_0. }
  assert (Hsc : forall x : R, scatter [0] [(0%nat, x)] = [x]) by reflexivity.
  destruct (decide (1 < nc (model1 n))%Z) as [Hn|Hn]; simpl in Hn.
  - destruct (decide (1 < n)%Z); [|lia].
    cbn [zip zip_with mapM_res fst snd mbind res_bind].
    assert (Hrow : cls_target_row (smooth_BCE 0.0).1 (smooth_BCE 0.0).2
                     (a_match tbox) cell1
                   = Ok [(smooth_BCE 0.0).2; (smooth_BCE 0.0).1])
      by reflexivity.
    rewrite Hrow. cbn [mbind res_bind concat app cls cell1].
    change (call h0 (Plain 0) [0; 0] ?t) with (BCE_call h0 0 [0; 0] t).
    rewrite BCE_call_scenario2 by lia. cbn [mbind res_bind iadd].
    rewrite Hsc, Hobj. simpl. f_equal. f_equal; unfold sum_R; simpl; lra.
  - destruct (decide (1 < n)%Z); [lia|].
    cbn [mbind res_bind]. rewrite Hsc, Hobj. simpl.
    f_equal. f_equal; unfold sum_R; simpl; lra.
Qed.

Lemma seg_call_scenario :
  call h0 (Plain 2) (seg predictions1) (seg_targets targets0)
  = Ok (Scalar (ln 2)).
Proof.
  change (BCE_call h0 2 [0] [1] = Ok (Scalar (ln 2))).
  rewrite BCE_call_scenario by lia. now rewrite bce_elem_0_1.
Qed.

(** A segmentation loss above 1: the logit -2 against the target 1. *)
Lemma ln_1_exp_2 : 2 < ln (1 + exp 2) < 3.
Proof.
  pose proof (exp_pos 2) as Hp. split.
  - rewrite <- (ln_exp 2) at 1. apply ln_increasing; lra.
  - rewrite <- (ln_exp 3). apply ln_increasing; [lra|].
    replace 3 with (1 + 2) by lra. rewrite (exp_plus 1 2).
    pose proof (exp_ineq1 1 ltac:(lra)) as H1.
    pose proof (exp_ineq1 2 ltac:(lra)) as H2. nra.
Qed.

Lemma seg_call_steep :
  call h0 (Plain 2) [-2] [1] = Ok (Scalar (ln (1 + exp 2))).
Proof.
  simpl. erewrite BCE_call_lookup by reflexivity.
  simpl pos_weight. simpl reduction.
  rewrite bce_with_logits_mean by reflexivity.
  simpl zip_with. rewrite t_mean_singleton. do 2 f_equal.
  unfold bce_elem, sigmoid. replace (- -2) with 2 by lra.
  pose proof (exp_pos 2) as Hp.
  replace (1 / (1 + exp 2)) with (/ (1 + exp 2)) by (unfold Rdiv; lra).
  rewrite ln_Rinv by lra. lra.
Qed.


(** The run with its end on float32 values. *)
Lemma forward32_matched (iou : Box -> Box -> R) (self : MultiHeadLoss)
    (tbox : Box) (n : Z) (sg tg : list R) (rseg lam0 lam1 lam2 lam3 : R) :
  losses self = [Plain 0; Plain 1; Plain 2]%nat ->
  lambdas self !! 0%nat = Some lam0 -> lambdas self !! 1%nat = Some lam1 ->
  lambdas self !! 2%nat = Some lam2 -> lambdas self !! 3%nat = Some lam3 ->
  call h0 (Plain 2) sg tg = Ok (Scalar rseg) ->
  let st := mkAcc (if decide (1 < n)%Z then ln 2 else 0)
              (1 - iou (decode cell1 (1, 1)) tbox) (4 * ln 2) 1 in
  _forward_impl32 unit (matched_by [a_match tbox]) iou h0 self
    (mkPredictions [pi1] sg) (mkTargets tt tg) (model1 n)
  = Ok (let lseg := if FREEZE_SEG (TRAIN (cfg self))
                    then fmul (Fin 0) (lseg_term32 self rseg lam3)
                    else lseg_term32 self rseg lam3 in
        let loss := fadd (fadd (fadd (lbox_term32 self 1 st lam2)
                                  (lobj_term32 self 1 st lam1))
                            (lcls_term32 self 1 st lam0)) lseg in
        (loss, (lbox_term32 self 1 st lam2, lobj_term32 self 1 st lam1,
                lcls_term32 self 1 st lam0, lseg, loss))).
Proof.
  intros Hl H0 H1 H2 H3 Hseg st.
  rewrite (forward_impl32_unfold unit _ iou h0 self _ _
             (model1 n) (Plain 0) (Plain 1) (Plain 2) Hl).
  rewrite run_loop_matched. cbn [mbind res_bind seg seg_targets].
  rewrite Hseg. cbn [mbind res_bind].
  assert (Hno : length (det (mkPredictions [pi1] sg)) ≠ 0%nat) by (simpl; lia).
  rewrite (weigh32_eq _ _ _ _ _ _ _ _ Hno H0 H1 H2 H3). reflexivity.
Qed.

Lemma imul_Fin (a c : R) :
  representable (Fin a) -> representable (Fin c) -> representable (Fin (a * c)) ->
  imul (f32_of a) c = Fin (a * c).
Proof.
  simpl. intros Ha Hc Hac. unfold imul.
  rewrite (f32_of_Fin a Ha), (f32_of_Fin c Hc). simpl. now apply f32_of_Fin.
Qed.

Lemma fadd_Fin (a b : R) :
  representable (Fin (a + b)) -> fadd (Fin a) (Fin b) = Fin (a + b).
Proof. simpl. apply f32_of_Fin. Qed.

(** The values of the run with an IoU of 0.5, two classes and the
    segmentation gain 0.2: box 0.5 * (0.05 * 3 * 3), objectness
    4 ln 2 * (1 * 3 * 2), classification ln 2 * (0.5 * 3 * 1), segmentation
    ln 2 * (0.2 * 4), or 0 when the segmentation is frozen. *)
Lemma forward32_rich (iou : Box -> Box -> R) (tbox : Box) (f : bool) :
  iou (decode cell1 (1, 1)) tbox = 0.5 ->
  _forward_impl32 unit (matched_by [a_match tbox]) iou h0 (self1 0.2 f)
    predictions1 targets0 (model1 2)
  = Ok (let vseg := if f then Fin 0 else Fin (0.8 * ln 2) in
        let loss := if f then Fin (0.225 + 25.5 * ln 2)
                    else Fin (0.225 + 26.3 * ln 2) in
        (loss, (Fin 0.225, Fin (24 * ln 2), Fin (1.5 * ln 2), vseg, loss))).
Proof.
  intros Hiou.
  change predictions1 with (mkPredictions [pi1] [0]).
  change targets0 with (mkTargets tt [1]).
  rewrite (forward32_matched iou (self1 0.2 f) tbox 2 [0] [1] (ln 2) 1 2 3 4
             eq_refl eq_refl eq_refl eq_refl eq_refl seg_call_scenario).
  rewrite Hiou. cbv zeta. cbn [det length].
  pose proof ln_2_pos as Hp. pose proof ln_2_lt_1 as Hl.
  assert (Hb : lbox_term32 (self1 0.2 f) 1
                 (mkAcc (if decide (1 < 2)%Z then ln 2 else 0) (1 - 0.5)
                    (4 * ln 2) 1) 3 = Fin 0.225).
  { unfold lbox_term32. simpl.
    rewrite imul_Fin by (simpl; unfold FLT_OVERFLOW; lra). f_equal. lra. }
  assert (Ho : lobj_term32 (self1 0.2 f) 1
                 (mkAcc (if decide (1 < 2)%Z then ln 2 else 0) (1 - 0.5)
                    (4 * ln 2) 1) 2 = Fin (24 * ln 2)).
  { unfold lobj_term32. simpl.
    rewrite imul_Fin by (simpl; unfold FLT_OVERFLOW; lra). f_equal. lra. }
  assert (Hc : lcls_term32 (self1 0.2 f) 1
                 (mkAcc (if decide (1 < 2)%Z then ln 2 else 0) (1 - 0.5)
                    (4 * ln 2) 1) 1 = Fin (1.5 * ln 2)).
  { unfold lcls_term32. simpl.
    rewrite imul_Fin by (simpl; unfold FLT_OVERFLOW; lra). f_equal. lra. }
  assert (Hs : lseg_term32 (self1 0.2 f) (ln 2) 4 = Fin (0.8 * ln 2)).
  { unfold lseg_term32. simpl.
    rewrite imul_Fin by (simpl; unfold FLT_OVERFLOW; lra). f_equal. lra. }
  rewrite Hb, Ho, Hc, Hs.
  change (FREEZE_SEG (TRAIN (cfg (self1 0.2 f)))) with f.
  rewrite !fadd_Fin by (simpl; unfold FLT_OVERFLOW; lra).
  destruct f.
  - rewrite fmul_0_l. cbn [is_finite].
    rewrite fadd_Fin by (simpl; unfold FLT_OVERFLOW; lra).
    replace (0.225 + 24 * ln 2 + 1.5 * ln 2 + 0) with (0.225 + 25.5 * ln 2)
      by lra.
    reflexivity.
  - rewrite fadd_Fin by (simpl; unfold FLT_OVERFLOW; lra).
    replace (0.225 + 24 * ln 2 + 1.5 * ln 2 + 0.8 * ln 2)
      with (0.225 + 26.3 * ln 2) by lra.
    reflexivity.
Qed.

Lemma stub_iou_half :
  stub_iou (decode cell1 (1, 1)) (mkBox 0.5 0 0 0) = 0.5.
Proof. reflexivity. Qed.

Lemma total_loss_weighted_sum_witness :
  exists BCEcls BCEobj BCEseg st lseg rseg lam0 lam1 lam2 lam3,
    losses (self1 0.2 false) = [BCEcls; BCEobj; BCEseg]
    /\ lambdas (self1 0.2 false) !! 0%nat = Some lam0
    /\ lambdas (self1 0.2 false) !! 1%nat = Some lam1
    /\ lambdas (self1 0.2 false) !! 2%nat = Some lam2
    /\ lambdas (self1 0.2 false) !! 3%nat = Some lam3
    /\ run_loop unit (matched_by [a_match (mkBox 0.5 0 0 0)]) stub_iou h0
         (self1 0.2 false) BCEcls BCEobj predictions1 targets0 (model1 2)
       = Ok st
    /\ call h0 BCEseg (seg predictions1) (seg_targets targets0) = Ok lseg
    /\ item lseg = Ok rseg
    /\ Fin (1.5 * ln 2) = imul (f32_of (lcls st)) (0.5 * (3 / INR 1) * lam0)
    /\ Fin (24 * ln 2) = imul (f32_of (lobj st)) (1 * (3 / INR 1) * 1.0 * lam1)
    /\ Fin 0.225 = imul (f32_of (lbox st)) (0.05 * (3 / INR 1) * lam2)
    /\ Fin (0.8 * ln 2) = imul (f32_of rseg) (0.2 * lam3)
    /\ Fin (0.225 + 26.3 * ln 2)
       = fadd (fadd (fadd (Fin 0.225) (Fin (24 * ln 2))) (Fin (1.5 * ln 2)))
           (Fin (0.8 * ln 2))
    /\ Fin (0.225 + 26.3 * ln 2) = Fin (0.225 + 26.3 * ln 2).
Proof.
  exact (total_loss_weighted_sum unit (matched_by [a_match (mkBox 0.5 0 0 0)])
           stub_iou h0 (self1 0.2 false) predictions1 targets0 (model1 2)
           _ _ _ _ _ _
           (forward32_rich stub_iou (mkBox 0.5 0 0 0) false stub_iou_half)).
Defined.

(** C1 as stated fails when [FREEZE_SEG] is set: in the run with a match
    the four scaled losses add up to [0.225 + 26.3 ln 2], of which the
    segmentation loss is [0.8 ln 2], but the returned total is
    [0.225 + 25.5 ln 2]. *)
Lemma total_loss_omits_frozen_segmentation :
  exists loss breakdown st rseg,
    _forward_impl32 unit (matched_by [a_match (mkBox 0.5 0 0 0)]) stub_iou h0
      (self1 0.2 true) predictions1 targets0 (model1 2) = Ok (loss, breakdown)
    /\ run_loop unit (matched_by [a_match (mkBox 0.5 0 0 0)]) stub_iou h0
         (self1 0.2 true) (Plain 0) (Plain 1) predictions1 targets0 (model1 2)
       = Ok st
    /\ call h0 (Plain 2) (seg predictions1) (seg_targets targets0)
       = Ok (Scalar rseg)
    /\ loss = Fin (0.225 + 25.5 * ln 2)
    /\ fadd (fadd (fadd (lbox_term32 (self1 0.2 true) 1 st 3)
                     (lobj_term32 (self1 0.2 true) 1 st 2))
               (lcls_term32 (self1 0.2 true) 1 st 1))
         (lseg_term32 (self1 0.2 true) rseg 4)
       = Fin (0.225 + 26.3 * ln 2)
    /\ loss ≠ fadd (fadd (fadd (lbox_term32 (self1 0.2 true) 1 st 3)
                            (lobj_term32 (self1 0.2 true) 1 st 2))
                      (lcls_term32 (self1 0.2 true) 1 st 1))
                (lseg_term32 (self1 0.2 true) rseg 4).
Proof.
  pose proof ln_2_pos as Hp. pose proof ln_2_lt_1 as Hl.
  set (st := mkAcc (if decide (1 < 2)%Z then ln 2 else 0)
               (1 - stub_iou (decode cell1 (1, 1)) (mkBox 0.5 0 0 0))
               (4 * ln 2) 1).
  assert (Hsum : fadd (fadd (fadd (lbox_term32 (self1 0.2 true) 1 st 3)
                               (lobj_term32 (self1 0.2 true) 1 st 2))
                         (lcls_term32 (self1 0.2 true) 1 st 1))
                   (lseg_term32 (self1 0.2 true) (ln 2) 4)
                 = Fin (0.225 + 26.3 * ln 2)).
  { unfold lbox_term32, lobj_term32, lcls_term32, lseg_term32, st. simpl.
    rewrite !imul_Fin by (simpl; unfold FLT_OVERFLOW; lra).
    rewrite !fadd_Fin by (simpl; unfold FLT_OVERFLOW; lra).
    f_equal. lra. }
  eexists _, _, st, (ln 2).
  split; [exact (forward32_rich stub_iou (mkBox 0.5 0 0 0) true stub_iou_half)|].
  split; [apply run_loop_matched|].
  split; [apply seg_call_scenario|].
  split; [reflexivity|]. split; [exact Hsum|].
  rewrite Hsum. intros Heq.
  assert (E : 0.225 + 25.5 * ln 2 = 0.225 + 26.3 * ln 2) by congruence.
  lra.
Qed.

Lemma freeze_seg_zeroes_segmentation_witness :
  (exists loss vbox vobj vcls,
     _forward_impl32 unit (matched_by [a_match (mkBox 0.5 0 0 0)]) stub_iou h0
       (self1 0.2 true) predictions1 targets0 (model1 2)
     = Ok (loss, (vbox, vobj, vcls, Fin 0, loss))
     /\ loss = fadd (fadd vbox vobj) vcls)
  /\ _forward_impl32 unit (matched_by [a_match (mkBox 0.5 0 0 0)]) stub_iou h0
       (set_freeze true (self1 0.2 false)) predictions1 targets0 (model1 2)
     = (r ← _forward_impl32 unit (matched_by [a_match (mkBox 0.5 0 0 0)])
              stub_iou h0 (set_freeze false (self1 0.2 false)) predictions1
              targets0 (model1 2);
        let '(_, (vbox, vobj, vcls, vseg, _)) := r in
        let z := fmul (Fin 0) vseg in
        Ok (fadd (fadd (fadd vbox vobj) vcls) z,
            (vbox, vobj, vcls, z, fadd (fadd (fadd vbox vobj) vcls) z))).
Proof.
  split.
  - eexists _, _, _, _.
    split; [exact (forward32_rich stub_iou (mkBox 0.5 0 0 0) true stub_iou_half)|].
    destruct (proj1 (freeze_seg_zeroes_segmentation unit
                       (matched_by [a_match (mkBox 0.5 0 0 0)]) stub_iou h0
                       (self1 0.2 true) predictions1 targets0 (model1 2))
                _ _ _ _ _ _ eq_refl
                (forward32_rich stub_iou (mkBox 0.5 0 0 0) true stub_iou_half))
      as (c1 & c2 & c3 & lseg & rseg & lam3 & Hl & H3 & Hcall & Hitem & _
          & Hfin & _).
    assert (c3 = Plain 2) as -> by (inversion Hl; reflexivity).
    assert (lam3 = 4) as -> by (inversion H3; reflexivity).
    rewrite seg_call_scenario in Hcall.
    assert (lseg = Scalar (ln 2)) as -> by congruence.
    assert (rseg = ln 2) as -> by (simpl in Hitem; congruence).
    apply Hfin. pose proof ln_2_pos. pose proof ln_2_lt_1.
    simpl SEG_GAIN.
    now rewrite imul_Fin by (simpl; unfold FLT_OVERFLOW; lra).
  - apply (proj1 (proj2 (freeze_seg_zeroes_segmentation unit
                    (matched_by [a_match (mkBox 0.5 0 0 0)]) stub_iou h0
                    (self1 0.2 false) predictions1 targets0 (model1 2)))).
    reflexivity.
Defined.

(** C8 as stated fails when the scaled segmentation loss is not finite.  In
    the run with a match, let the segmentation logit be -2 against the
    target 1, so that the segmentation loss is [ln (1 + e^2)], between 2 and
    3, and let [SEG_GAIN] be 2^125, so that the loss is multiplied by 2^127.
    Both are float32 numbers; their product is beyond the range of float32,
    an infinity, and with [FREEZE_SEG] set the segmentation entry and the
    total are nan, not 0. *)
Lemma freeze_seg_entry_nan_on_overflow :
  FREEZE_SEG (TRAIN (cfg (self1 steep_gain true))) = true
  /\ call h0 (Plain 2) [-2] [1] = Ok (Scalar (ln (1 + exp 2)))
  /\ 2 < ln (1 + exp 2) < 3
  /\ f32_of (ln (1 + exp 2)) = Fin (ln (1 + exp 2))
  /\ f32_of (steep_gain * 4) = Fin 170141183460469231731687303715884105728
  /\ lseg_term32 (self1 steep_gain true) (ln (1 + exp 2)) 4 = Inf false
  /\ _forward_impl32 unit (matched_by [a_match (mkBox 0.5 0 0 0)]) stub_iou h0
       (self1 steep_gain true) (mkPredictions [pi1] [-2]) (mkTargets tt [1])
       (model1 2)
     = Ok (NaN, (Fin 0.225, Fin (24 * ln 2), Fin (1.5 * ln 2), NaN, NaN))
  /\ NaN ≠ Fin 0.
Proof.
  pose proof ln_2_pos as Hp. pose proof ln_2_lt_1 as Hl.
  pose proof ln_1_exp_2 as Hr.
  assert (Hf : f32_of (ln (1 + exp 2)) = Fin (ln (1 + exp 2))).
  { apply f32_of_Fin. unfold FLT_OVERFLOW. lra. }
  assert (Hg : f32_of (steep_gain * 4)
               = Fin 170141183460469231731687303715884105728).
  { rewrite f32_of_Fin by (unfold steep_gain, FLT_OVERFLOW; lra).
    f_equal. unfold steep_gain. lra. }
  assert (Hs : lseg_term32 (self1 steep_gain true) (ln (1 + exp 2)) 4
               = Inf false).
  { unfold lseg_term32, imul. simpl SEG_GAIN. rewrite Hf, Hg. simpl.
    apply f32_of_Inf. unfold FLT_OVERFLOW. lra. }
  split; [reflexivity|]. split; [apply seg_call_steep|].
  split; [exact Hr|]. split; [exact Hf|]. split; [exact Hg|].
  split; [exact Hs|]. split; [|discriminate].
  rewrite (forward32_matched stub_iou (self1 steep_gain true) (mkBox 0.5 0 0 0)
             2 [-2] [1] (ln (1 + exp 2)) 1 2 3 4
             eq_refl eq_refl eq_refl eq_refl eq_refl seg_call_steep).
  cbv zeta. change (FREEZE_SEG (TRAIN (cfg (self1 steep_gain true)))) with true.
  cbv iota. rewrite Hs, fmul_0_l. cbn [is_finite]. rewrite fadd_NaN_r.
  cbn [det length].
  assert (Hb : lbox_term32 (self1 steep_gain true) 1
                 (mkAcc (if decide (1 < 2)%Z then ln 2 else 0)
                    (1 - stub_iou (decode cell1 (1, 1)) (mkBox 0.5 0 0 0))
                    (4 * ln 2) 1) 3 = Fin 0.225).
  { unfold lbox_term32. simpl.
    rewrite imul_Fin by (simpl; unfold FLT_OVERFLOW; lra). f_equal. lra. }
  assert (Ho : lobj_term32 (self1 steep_gain true) 1
                 (mkAcc (if decide (1 < 2)%Z then ln 2 else 0)
                    (1 - stub_iou (decode cell1 (1, 1)) (mkBox 0.5 0 0 0))
                    (4 * ln 2) 1) 2 = Fin (24 * ln 2)).
  { unfold lobj_term32. simpl.
    rewrite imul_Fin by (simpl; unfold FLT_OVERFLOW; lra). f_equal. lra. }
  assert (Hc : lcls_term32 (self1 steep_gain true) 1
                 (mkAcc (if decide (1 < 2)%Z then ln 2 else 0)
                    (1 - stub_iou (decode cell1 (1, 1)) (mkBox 0.5 0 0 0))
                    (4 * ln 2) 1) 1 = Fin (1.5 * ln 2)).
  { unfold lcls_term32. simpl.
    rewrite imul_Fin by (simpl; unfold FLT_OVERFLOW; lra). f_equal. lra. }
  rewrite Hb, Ho, Hc. reflexivity.
Qed.


(** * Further properties *)

(** ** tools/train.py *)

(** X1.  The [shuffle] argument that [main] passes to the training
    [DataLoader] is [False] for every value of [cfg.TRAIN.SHUFFLE] and every
    rank: [SHUFFLE & rank] is 0 or 1, never -1. *)
Theorem train_shuffle_never (SHUFFLE : bool) (rank : Z) :
  train_shuffle SHUFFLE rank = false.
Proof.
  unfold train_shuffle. apply bool_decide_eq_false. intros H.
  assert (Hnn : (0 <= Z.land (Z.b2z SHUFFLE) rank)%Z).
  { apply Z.land_nonneg. left. destruct SHUFFLE; simpl; lia. }
  lia.
Qed.

(** X2.  For every epoch of the training loop, validation runs exactly when
    the epoch is a multiple of [VAL_FREQ], on every rank: inside
    [range(begin_epoch+1, END_EPOCH+1)] the test [epoch == END_EPOCH+1] never
    holds, so the rank is never looked at.  A [VAL_FREQ] of 0 raises
    [ZeroDivisionError] in the first epoch. *)
Theorem validates_ignores_rank (VAL_FREQ END_EPOCH begin_epoch rank epoch : Z) :
  epoch ∈ epochs begin_epoch END_EPOCH ->
  (begin_epoch < epoch <= END_EPOCH)%Z
  /\ validates VAL_FREQ END_EPOCH rank epoch
     = (if decide (VAL_FREQ = 0)%Z then Raise ZeroDivisionError
        else Ok (bool_decide (epoch `mod` VAL_FREQ = 0)%Z)).
Proof.
  unfold epochs. rewrite elem_of_seqZ. intros Hin.
  split; [lia|]. unfold validates.
  destruct (decide (VAL_FREQ = 0)%Z); [reflexivity|].
  rewrite (bool_decide_eq_false_2 (epoch = END_EPOCH + 1)%Z) by lia.
  now rewrite andb_false_l, orb_false_r.
Qed.

Lemma validates_ignores_rank_witness :
  (0 < 2 <= 3)%Z
  /\ validates 2 3 5 2
     = (if decide (2 = 0)%Z then Raise ZeroDivisionError
        else Ok (bool_decide (2 `mod` 2 = 0)%Z)).
Proof.
  apply (validates_ignores_rank 2 3 0 5 2).
  unfold epochs. apply elem_of_seqZ. lia.
Defined.

(** ** smooth_BCE, get_loss *)



Lemma get_loss_eq (cfg : Cfg) (h : store) :
  get_loss cfg h
  = (let g := FL_GAMMA (LOSS cfg) in
     let n := length h in
     let red := if decide (0 < g) then "none"%string else "mean"%string in
     let crit := fun l => if decide (0 < g) then Focal (mkFocal l g 0.25 "mean")
                          else Plain l in
     loss ← MultiHeadLoss_init [crit n; crit (n + 1)%nat; Plain (n + 2)%nat] cfg
               (MULTI_HEAD_LAMBDA (LOSS cfg));
     Ok (loss, h ++ [mkBCE (CLS_POS_WEIGHT (LOSS cfg)) red;
                     mkBCE (OBJ_POS_WEIGHT (LOSS cfg)) red;
                     mkBCE (SEG_POS_WEIGHT (LOSS cfg)) "mean"])).
Proof.
  unfold get_loss, alloc. rewrite !length_app. simpl length.
  rewrite <- !app_assoc. simpl app. cbv zeta.
  replace (length h + 1 + 1)%nat with (length h + 2)%nat by lia.
  destruct (decide (0 < FL_GAMMA (LOSS cfg))) as [Hg|Hg].
  - erewrite FocalLoss_init_Ok
      by (rewrite lookup_app_r by lia; rewrite Nat.sub_diag; reflexivity).
    cbn [mbind res_bind pos_weight reduction].
    rewrite insert_app_r_alt by lia. rewrite Nat.sub_diag. simpl.
    erewrite FocalLoss_init_Ok
      by (rewrite lookup_app_r by lia;
          replace (length h + 1 - length h)%nat with 1%nat by lia; reflexivity).
    cbn [mbind res_bind pos_weight reduction].
    rewrite insert_app_r_alt by lia.
    replace (length h + 1 - length h)%nat with 1%nat by lia. reflexivity.
  - reflexivity.
Qed.

Lemma MultiHeadLoss_init_cases (ls : list Criterion) (config : Cfg)
    (lams : option (list R)) :
  (MultiHeadLoss_init ls config lams = Raise AssertionError
   /\ exists l, lams = Some l /\ Exists (fun lam => lam < 0) l)
  \/ (exists self, MultiHeadLoss_init ls config lams = Ok self
                   /\ cfg self = config
                   /\ losses self = ls
                   /\ Forall (fun lam => 0 <= lam) (lambdas self)
                   /\ forall l, lams = Some l ->
                        ~ Exists (fun lam => lam < 0) l).
Proof.
  destruct (falsy lams) eqn:Hf.
  - right. rewrite (MultiHeadLoss_init_falsy _ _ _ Hf). eexists.
    split; [reflexivity|]. split; [reflexivity|]. split; [reflexivity|].
    split.
    + simpl. apply Forall_replicate. lra.
    + intros l ->. destruct l; [|discriminate]. intros H. inversion H.
  - destruct lams as [[|x l]|]; try discriminate.
    destruct (decide (Forall (fun lam => 0 <= lam) (x :: l))) as [Hall|Hn].
    + right. rewrite MultiHeadLoss_init_given by (auto; discriminate).
      eexists. split; [reflexivity|]. split; [reflexivity|].
      split; [reflexivity|]. split; [exact Hall|].
      intros l' [= <-] Hex. apply Exists_exists in Hex as (y & Hy & Hneg).
      rewrite Forall_forall in Hall. specialize (Hall y Hy). lra.
    + left. apply not_Forall_Exists in Hn; [|apply _].
      assert (Hex : Exists (fun lam => lam < 0) (x :: l)).
      { eapply Exists_impl; [exact Hn|]. simpl. intros y Hy. lra. }
      split; [|eauto].
      unfold MultiHeadLoss_init. simpl falsy. cbv iota. simpl default.
      now rewrite (negative_forallb _ Hex).
Qed.

Lemma zip_with_mul (f g : R -> R -> R) (xs ys : list R) :
  zip_with Rmult (zip_with f xs ys) (zip_with g xs ys)
  = zip_with (fun z t => f z t * g z t) xs ys.
Proof.
  revert ys. induction xs as [|x xs IH]; intros [|y ys]; simpl; try reflexivity.
  f_equal. apply IH.
Qed.

Lemma t_mean_nonempty (l : list R) :
  l ≠ [] -> t_mean l = Ok (Scalar (sum_R l / INR (length l))).
Proof. destruct l; [congruence | reflexivity]. Qed.

Lemma zip_with_nonempty {A B C} (f : A -> B -> C) (xs : list A) (ys : list B) :
  length xs = length ys -> xs ≠ [] ->
  zip_with f xs ys ≠ [] /\ length (zip_with f xs ys) = length xs.
Proof.
  intros Hlen Hne. split.
  - destruct xs, ys; simpl in *; congruence.
  - rewrite length_zip_with. lia.
Qed.

Lemma FocalLoss_forward_none (h : store) (w : FocalLoss) (o : BCEWithLogitsLoss)
    (pred true : list R) :
  h !! loss_fcn w = Some o -> reduction o = "none"%string ->
  FocalLoss_forward h w pred true
  = if decide (length pred = length true) then
      let e := zip_with (fun z t => bce_elem (pos_weight o) z t
                                    * focal_factor (gamma w) (alpha w) z t)
                 pred true in
      if decide (fl_reduction w = "mean"%string) then t_mean e
      else if decide (fl_reduction w = "sum"%string) then t_sum e
      else Ok (Elems e)
    else Raise ValueError.
Proof.
  intros Hl Hred. unfold FocalLoss_forward.
  rewrite (BCE_call_lookup _ _ _ _ _ Hl), Hred, bce_with_logits_none.
  destruct (decide (length pred = length true)); [|reflexivity].
  cbn [mbind res_bind]. rewrite focal_scale_Elems, zip_with_mul. reflexivity.
Qed.

Lemma get_loss_call_plain (h : store) (l : loc) (pw : R) (input target : list R) :
  h !! l = Some (mkBCE pw "mean") ->
  length input = length target -> input ≠ [] ->
  call h (Plain l) input target
  = Ok (Scalar (sum_R (zip_with (bce_elem pw) input target) / INR (length input))).
Proof.
  intros Hl Hlen Hne. simpl. rewrite (BCE_call_lookup _ _ _ _ _ Hl). simpl.
  rewrite bce_with_logits_mean by assumption.
  destruct (zip_with_nonempty (bce_elem pw) _ _ Hlen Hne) as [Hz Hzl].
  rewrite t_mean_nonempty by assumption. now rewrite Hzl.
Qed.

Lemma get_loss_call_focal (h : store) (l : loc) (pw g : R) (input target : list R) :
  h !! l = Some (mkBCE pw "none") -> 0 < g ->
  length input = length target -> input ≠ [] ->
  call h (Focal (mkFocal l g 0.25 "mean")) input target
  = Ok (Scalar (sum_R (zip_with (criterion_elem g pw) input target)
                / INR (length input))).
Proof.
  intros Hl Hg Hlen Hne. simpl.
  rewrite (FocalLoss_forward_none h (mkFocal l g 0.25 "mean")
             (mkBCE pw "none") input target Hl eq_refl). simpl.
  destruct (decide (length input = length target)); [|congruence].
  replace (zip_with (criterion_elem g pw) input target)
    with (zip_with (fun z t => bce_elem pw z t * focal_factor g 0.25 z t)
            input target).
  2:{ unfold criterion_elem. destruct (decide (0 < g)); [reflexivity|lra]. }
  destruct (zip_with_nonempty
              (fun z t => bce_elem pw z t * focal_factor g 0.25 z t)
              _ _ Hlen Hne) as [Hz Hzl].
  rewrite t_mean_nonempty by assumption. now rewrite Hzl.
Qed.

Lemma get_loss_Ok_criteria (config : Cfg) (h h' : store) (self : MultiHeadLoss) :
  get_loss config h = Ok (self, h') ->
  cfg self = config
  /\ length h' = (length h + 3)%nat
  /\ (forall l o, h !! l = Some o -> h' !! l = Some o)
  /\ exists BCEcls BCEobj BCEseg,
      losses self = [BCEcls; BCEobj; BCEseg]
      /\ forall input target : list R,
          length input = length target -> input ≠ [] ->
          let mean_of f :=
            Ok (Scalar (sum_R (zip_with f input target) / INR (length input))) in
          call h' BCEcls input target
          = mean_of (criterion_elem (FL_GAMMA (LOSS config))
                       (CLS_POS_WEIGHT (LOSS config)))
          /\ call h' BCEobj input target
             = mean_of (criterion_elem (FL_GAMMA (LOSS config))
                          (OBJ_POS_WEIGHT (LOSS config)))
          /\ call h' BCEseg input target
             = mean_of (bce_elem (SEG_POS_WEIGHT (LOSS config))).
Proof.
  rewrite get_loss_eq. cbv zeta. intros H.
  apply bind_Ok in H as (loss & Hinit & H). inversion H; subst self h'; clear H.
  match type of Hinit with
  | MultiHeadLoss_init ?a ?b ?c = _ =>
      destruct (MultiHeadLoss_init_cases a b c)
        as [[Hr _]|(s & Hs & Hc & Hl & _)];
      [rewrite Hinit in Hr; discriminate | idtac]
  end.
  rewrite Hinit in Hs. inversion Hs; subst s; clear Hs.
  split; [exact Hc|]. split; [rewrite length_app; reflexivity|].
  split; [intros l o Hlo; now apply lookup_app_l_Some|].
  eexists _, _, _. split; [exact Hl|].
  intros input target Hlen Hne.
  assert (H0 : forall a b c : BCEWithLogitsLoss,
             (h ++ [a; b; c]) !! length h = Some a).
  { intros. rewrite lookup_app_r by lia. now rewrite Nat.sub_diag. }
  assert (H1 : forall a b c : BCEWithLogitsLoss,
             (h ++ [a; b; c]) !! (length h + 1)%nat = Some b).
  { intros. rewrite lookup_app_r by lia.
    now replace (length h + 1 - length h)%nat with 1%nat by lia. }
  assert (H2 : forall a b c : BCEWithLogitsLoss,
             (h ++ [a; b; c]) !! (length h + 2)%nat = Some c).
  { intros. rewrite lookup_app_r by lia.
    now replace (length h + 2 - length h)%nat with 2%nat by lia. }
  split; [|split].
  - destruct (decide (0 < FL_GAMMA (LOSS config))) as [Hg|Hg].
    + apply get_loss_call_focal; auto.
    + rewrite get_loss_call_plain with (pw := CLS_POS_WEIGHT (LOSS config)); auto.
      unfold criterion_elem. destruct (decide _); [lra | reflexivity].
  - destruct (decide (0 < FL_GAMMA (LOSS config))) as [Hg|Hg].
    + apply get_loss_call_focal; auto.
    + rewrite get_loss_call_plain with (pw := OBJ_POS_WEIGHT (LOSS config)); auto.
      unfold criterion_elem. destruct (decide _); [lra | reflexivity].
  - apply get_loss_call_plain; auto.
Qed.


(** X5.  The object [get_loss] returns holds the configuration and exactly
    three criteria, backed by three objects it adds to the store without
    touching those already there.  Called on two tensors of the same,
    non-zero, size, the targets lying between 0 and 1, each criterion
    returns a scalar: the mean of the elementwise BCE with the configured
    positive weight, multiplied elementwise by the focal factor with
    [alpha = 0.25] for the classification and objectness criteria exactly
    when [FL_GAMMA > 0], and never for the segmentation criterion. *)
Theorem get_loss_criteria (config : Cfg) (h h' : store) (self : MultiHeadLoss) :
  get_loss config h = Ok (self, h') ->
  cfg self = config
  /\ length h' = (length h + 3)%nat
  /\ (forall l o, h !! l = Some o -> h' !! l = Some o)
  /\ exists BCEcls BCEobj BCEseg,
      losses self = [BCEcls; BCEobj; BCEseg]
      /\ forall input target : list R,
          length input = length target -> input ≠ [] ->
          Forall (fun t => 0 <= t <= 1) target ->
          let mean_of f :=
            Ok (Scalar (sum_R (zip_with f input target) / INR (length input))) in
          call h' BCEcls input target
          = mean_of (criterion_elem (FL_GAMMA (LOSS config))
                       (CLS_POS_WEIGHT (LOSS config)))
          /\ call h' BCEobj input target
             = mean_of (criterion_elem (FL_GAMMA (LOSS config))
                          (OBJ_POS_WEIGHT (LOSS config)))
          /\ call h' BCEseg input target
             = mean_of (bce_elem (SEG_POS_WEIGHT (LOSS config))).
Proof.
  intros H. destruct (get_loss_Ok_criteria _ _ _ _ H)
    as (Hc & Hlen & Hold & c1 & c2 & c3 & Hl & Hcalls).
  split; [exact Hc|]. split; [exact Hlen|]. split; [exact Hold|].
  exists c1, c2, c3. split; [exact Hl|].
  intros input target Hsize Hne _. now apply Hcalls.
Qed.

Lemma get_loss_focal : get_loss cfg_focal [] = Ok (self_focal, h_focal).
Proof.
  rewrite get_loss_eq. cbv zeta.
  change (FL_GAMMA (LOSS cfg_focal)) with 1.5.
  destruct (decide (0 < 1.5)) as [_|Hn]; [|lra].
  change (MULTI_HEAD_LAMBDA (LOSS cfg_focal)) with (@None (list R)).
  rewrite (MultiHeadLoss_init_falsy _ _ None eq_refl). reflexivity.
Qed.

Lemma get_loss_criteria_witness :
  cfg self_focal = cfg_focal
  /\ length h_focal = (length (@nil BCEWithLogitsLoss) + 3)%nat
  /\ (forall l o, (@nil BCEWithLogitsLoss) !! l = Some o -> h_focal !! l = Some o)
  /\ exists BCEcls BCEobj BCEseg,
      losses self_focal = [BCEcls; BCEobj; BCEseg]
      /\ forall input target : list R,
          length input = length target -> input ≠ [] ->
          Forall (fun t => 0 <= t <= 1) target ->
          let mean_of f :=
            Ok (Scalar (sum_R (zip_with f input target) / INR (length input))) in
          call h_focal BCEcls input target = mean_of (criterion_elem 1.5 1)
          /\ call h_focal BCEobj input target = mean_of (criterion_elem 1.5 1)
          /\ call h_focal BCEseg input target = mean_of (bce_elem 1).
Proof.
  exact (get_loss_criteria cfg_focal [] h_focal self_focal get_loss_focal).
Defined.

(** ** FocalLoss: bounds and aliasing *)

Lemma sigmoid_range (z : R) : 0 < sigmoid z < 1.
Proof.
  unfold sigmoid. pose proof (exp_pos (- z)) as He.
  assert (H1 : 0 < 1 + exp (- z)) by lra.
  split.
  - apply Rdiv_lt_0_compat; lra.
  - apply (Rmult_lt_reg_r (1 + exp (- z))); [lra|].
    unfold Rdiv. rewrite Rmult_assoc, Rinv_l by lra. lra.
Qed.

Lemma ln_neg (x : R) : 0 < x < 1 -> ln x < 0.
Proof. intros [H0 H1]. rewrite <- ln_1. now apply ln_increasing. Qed.

Lemma bce_elem_nonneg (pw z t : R) :
  0 <= pw -> 0 <= t <= 1 -> 0 <= bce_elem pw z t.
Proof.
  intros Hpw Ht. unfold bce_elem.
  pose proof (sigmoid_range z) as Hs.
  assert (H1 : ln (sigmoid z) < 0) by (apply ln_neg; lra).
  assert (H2 : ln (1 - sigmoid z) < 0) by (apply ln_neg; lra).
  assert (0 <= pw * t) by (apply Rmult_le_pos; lra).
  nra.
Qed.

Lemma tpow_nonneg (x y : R) : 0 <= tpow x y.
Proof.
  unfold tpow. repeat case_decide; try lra.
  unfold Rpower. left. apply exp_pos.
Qed.

Lemma tpow_le_1 (x y : R) : 0 <= x <= 1 -> 0 <= y -> tpow x y <= 1.
Proof.
  intros Hx Hy. unfold tpow. repeat case_decide; try lra.
  unfold Rpower. rewrite <- exp_0.
  destruct (Req_dec x 1) as [->|Hne].
  - rewrite ln_1, Rmult_0_r. lra.
  - left. apply exp_increasing.
    assert (ln x < 0) by (apply ln_neg; lra). nra.
Qed.

Lemma focal_factor_range (g a z t : R) :
  0 <= t <= 1 -> 0 <= a <= 1 ->
  0 <= focal_factor g a z t /\ (0 <= g -> focal_factor g a z t <= 1).
Proof.
  intros Ht Ha. unfold focal_factor. cbv zeta.
  pose proof (sigmoid_range z) as Hs.
  set (p_t := t * sigmoid z + (1 - t) * (1 - sigmoid z)).
  assert (Hp : 0 <= 1.0 - p_t <= 1) by (unfold p_t; nra).
  assert (Haf : 0 <= t * a + (1 - t) * (1 - a) <= 1) by nra.
  pose proof (tpow_nonneg (1.0 - p_t) g) as Hm0.
  split; [apply Rmult_le_pos; lra|].
  intros Hg. pose proof (tpow_le_1 _ _ Hp Hg). nra.
Qed.

Lemma focal_elems_between (pw g a : R) (pred true : list R) :
  0 <= pw -> 0 <= a <= 1 -> 0 <= g ->
  Forall (fun t => 0 <= t <= 1) true ->
  Forall2 (fun x y => 0 <= x <= y)
    (zip_with Rmult (zip_with (bce_elem pw) pred true)
       (zip_with (focal_factor g a) pred true))
    (zip_with (bce_elem pw) pred true).
Proof.
  intros Hpw Ha Hg Ht. revert pred.
  induction Ht as [|t true Ht0 Ht IH]; intros [|z pred]; simpl; try constructor.
  - pose proof (bce_elem_nonneg pw z t Hpw Ht0).
    destruct (focal_factor_range g a z t Ht0 Ha) as [Hf0 Hf1].
    specialize (Hf1 Hg). nra.
  - apply IH.
Qed.

Lemma sum_R_between (xs ys : list R) :
  Forall2 (fun x y => 0 <= x <= y) xs ys -> 0 <= sum_R xs <= sum_R ys.
Proof.
  unfold sum_R. induction 1 as [|x y xs ys Hxy _ IH]; simpl; lra.
Qed.

Lemma t_mean_between (xs ys : list R) (vx vy : value) :
  Forall2 (fun x y => 0 <= x <= y) xs ys ->
  t_mean xs = Ok vx -> t_mean ys = Ok vy -> value_between vx vy.
Proof.
  intros HF Hx Hy. pose proof (Forall2_length _ _ _ HF) as Hlen.
  pose proof (sum_R_between _ _ HF) as Hs.
  destruct xs as [|x xs]; [discriminate|]. destruct ys as [|y ys]; [discriminate|].
  rewrite t_mean_nonempty in Hx, Hy by discriminate.
  rewrite Hlen in Hx.
  assert (Ex : vx = Scalar (sum_R (x :: xs) / INR (length (y :: ys))))
    by congruence.
  assert (Ey : vy = Scalar (sum_R (y :: ys) / INR (length (y :: ys))))
    by congruence.
  subst vx vy. cbn [value_between].
  assert (Hn : 0 < INR (length (y :: ys))) by (apply lt_0_INR; simpl; lia).
  assert (Hi : 0 < / INR (length (y :: ys))) by now apply Rinv_0_lt_compat.
  unfold Rdiv. split.
  - apply Rmult_le_pos; lra.
  - apply Rmult_le_compat_r; lra.
Qed.

(** X6.  For targets between 0 and 1, a non-negative positive weight,
    [alpha] between 0 and 1 and [gamma >= 0], the focal wrapper never
    increases the loss and never makes it negative: whenever the wrapper and
    the base loss (under its original reduction [none], [mean] or [sum])
    both return, the wrapper's value lies between 0 and the base value,
    element by element for [none]. *)
Theorem FocalLoss_between_zero_and_base (h : store) (l : loc)
    (o : BCEWithLogitsLoss) (g a : R) (pred true : list R) :
  h !! l = Some o ->
  (reduction o = "none" \/ reduction o = "mean" \/ reduction o = "sum")%string ->
  0 <= pos_weight o -> 0 <= a <= 1 -> 0 <= g ->
  Forall (fun t => 0 <= t <= 1) true ->
  exists w h',
    FocalLoss_init h l g a = Ok (w, h')
    /\ forall vf vb,
        FocalLoss_forward h' w pred true = Ok vf ->
        BCE_call h l pred true = Ok vb ->
        value_between vf vb.
Proof.
  intros Hl Hred Hpw Ha Hg Ht. eexists _, _.
  split; [apply (FocalLoss_init_Ok _ _ _ _ _ Hl)|].
  intros vf vb. rewrite (FocalLoss_forward_wrapped _ _ _ _ _ _ _ Hl).
  rewrite (BCE_call_lookup _ _ _ _ _ Hl). unfold bce_with_logits.
  destruct (decide (_ \/ _)) as [_|Hn]; [|tauto].
  destruct (decide (length pred = length true)); [|discriminate].
  cbv zeta.
  pose proof (focal_elems_between (pos_weight o) g a pred true Hpw Ha Hg Ht) as HF.
  destruct Hred as [Hr|[Hr|Hr]]; rewrite Hr.
  - intros [= <-] [= <-]. exact HF.
  - destruct (decide ("mean" = "mean")%string); [|congruence].
    destruct (decide (_ \/ _)) as [_|Hn]; [|exfalso; apply Hn; auto].
    apply t_mean_between, HF.
  - destruct (decide ("sum" = "mean")%string); [discriminate|].
    destruct (decide ("sum" = "sum")%string); [|congruence].
    destruct (decide (_ \/ _)) as [[?|?]|_]; [discriminate..|].
    unfold t_sum. intros [= <-] [= <-]. simpl. now apply sum_R_between.
Qed.

Lemma FocalLoss_between_zero_and_base_witness :
  exists w h',
    FocalLoss_init [mkBCE 1 "mean"] 0 1.5 0.25 = Ok (w, h')
    /\ forall vf vb,
        FocalLoss_forward h' w [0] [1] = Ok vf ->
        BCE_call [mkBCE 1 "mean"] 0 [0] [1] = Ok vb ->
        value_between vf vb.
Proof.
  apply (FocalLoss_between_zero_and_base [mkBCE 1 "mean"] 0 (mkBCE 1 "mean")
           1.5 0.25 [0] [1]).
  - reflexivity.
  - right; left; reflexivity.
  - simpl; lra.
  - lra.
  - lra.
  - repeat constructor; lra.
Defined.

(** X7.  Wrapping changes only the wrapped object, and wrapping an object
    that is already wrapped loses its reduction: the second wrapper records
    ["none"], leaves the store as it is, and every value it returns is an
    unreduced tensor, which the accumulators of [MultiHeadLoss] refuse with
    [RuntimeError]. *)
Theorem FocalLoss_rewrap_loses_reduction (h : store) (l : loc)
    (o : BCEWithLogitsLoss) (g a g' a' : R) :
  h !! l = Some o ->
  exists w1 h1 w2,
    FocalLoss_init h l g a = Ok (w1, h1)
    /\ FocalLoss_init h1 l g' a' = Ok (w2, h1)
    /\ fl_reduction w1 = reduction o
    /\ fl_reduction w2 = "none"%string
    /\ length h1 = length h
    /\ (forall l', l' ≠ l -> h1 !! l' = h !! l')
    /\ forall pred true v acc,
        FocalLoss_forward h1 w2 pred true = Ok v ->
        (exists e, v = Elems e) /\ iadd acc v = Raise RuntimeError.
Proof.
  intros Hl. pose proof (FocalLoss_init_lookup _ _ _ Hl) as Hl1.
  eexists _, _, _. split; [apply (FocalLoss_init_Ok _ _ _ _ _ Hl)|].
  split.
  { rewrite (FocalLoss_init_Ok _ _ _ _ _ Hl1). simpl.
    now rewrite list_insert_insert_eq. }
  split; [reflexivity|]. split; [reflexivity|].
  split; [apply length_insert|].
  split; [intros l' Hne; now apply list_lookup_insert_ne|].
  intros pred true v acc.
  rewrite (FocalLoss_forward_none
             (<[l := mkBCE (pos_weight o) "none"]> h)
             (mkFocal l g' a' "none") (mkBCE (pos_weight o) "none")
             pred true Hl1 eq_refl). simpl.
  destruct (decide (length pred = length true)); [|discriminate].
  intros [= <-]. split; [eauto | reflexivity].
Qed.

Lemma FocalLoss_rewrap_loses_reduction_witness :
  exists w1 h1 w2,
    FocalLoss_init [mkBCE 1 "mean"] 0 1.5 0.25 = Ok (w1, h1)
    /\ FocalLoss_init h1 0 1.5 0.25 = Ok (w2, h1)
    /\ fl_reduction w1 = "mean"%string
    /\ fl_reduction w2 = "none"%string
    /\ length h1 = 1%nat
    /\ (forall l', l' ≠ 0%nat -> h1 !! l' = [mkBCE 1 "mean"] !! l')
    /\ forall pred true v acc,
        FocalLoss_forward h1 w2 pred true = Ok v ->
        (exists e, v = Elems e) /\ iadd acc v = Raise RuntimeError.
Proof.
  exact (FocalLoss_rewrap_loses_reduction [mkBCE 1 "mean"] 0 (mkBCE 1 "mean")
           1.5 0.25 1.5 0.25 eq_refl).
Defined.

(** ** MultiHeadLoss._forward_impl: when it fails, what it needs *)

Lemma weigh_take (self : MultiHeadLoss) (no : nat) (st : Acc) (v : value) :
  weigh self no st v
  = weigh (mkMultiHeadLoss (losses self) (take 4 (lambdas self)) (cfg self))
      no st v.
Proof.
  unfold weigh, getitem. cbn [lambdas cfg].
  now rewrite !lookup_take_lt by lia.
Qed.

Section ForwardEdges.

Variable DetTargets : Type.
Variable build_targets :
  Cfg -> list Tensor -> DetTargets -> Model -> list (list Match).
Variable bbox_iou : Box -> Box -> R.

Lemma scale_step_Ok_bounds (h : store) (BCEcls BCEobj : Criterion)
    (model : Model) (cp cn : R) (bal : list R) (bt : list (list Match))
    (i : nat) (pi : Tensor) (st st' : Acc) :
  scale_step bbox_iou h BCEcls BCEobj model cp cn bal bt i pi st = Ok st' ->
  (i < length bal)%nat /\ (i < length bt)%nat.
Proof.
  unfold scale_step, scale_targets. intros H.
  apply bind_Ok in H as ([st1 tobj] & Ht & H).
  apply bind_Ok in Ht as (ms & Hms & _).
  apply bind_Ok in H as (v & _ & H).
  apply bind_Ok in H as (w & Hw & _).
  apply getitem_Ok in Hms. apply getitem_Ok in Hw.
  split; eapply lookup_lt_Some; eassumption.
Qed.

Lemma detection_loop_Ok_bounds (h : store) (BCEcls BCEobj : Criterion)
    (model : Model) (cp cn : R) (bal : list R) (bt : list (list Match))
    (pis : list Tensor) :
  forall (i : nat) (st st' : Acc),
    detection_loop bbox_iou h BCEcls BCEobj model cp cn bal bt i pis st = Ok st' ->
    pis = [] \/ ((i + length pis <= length bal)%nat
                 /\ (i + length pis <= length bt)%nat).
Proof.
  induction pis as [|pi pis IH]; intros i st st' H; [now left|right].
  simpl in H. apply bind_Ok in H as (st1 & H1 & H).
  apply scale_step_Ok_bounds in H1 as [Hb Ht].
  destruct (IH _ _ _ H) as [->|[Hb' Ht']]; simpl; lia.
Qed.

(** X8.  A pass that returns had exactly three criteria, between one and
    four detection scales, at least four weights, and matches for every
    scale.  So with no scale or more than four, with a weight vector shorter
    than four (which the constructor accepts), or with fewer match lists
    than scales, the pass always raises. *)
Theorem forward_impl_needs (h : store) (self : MultiHeadLoss)
    (predictions : Predictions) (targets : Targets DetTargets)
    (model : Model) (r : Result) :
  _forward_impl DetTargets build_targets bbox_iou h self predictions targets model
  = Ok r ->
  let no := length (det predictions) in
  length (losses self) = 3%nat
  /\ (1 <= no <= 4)%nat
  /\ (4 <= length (lambdas self))%nat
  /\ (no <= length (matches_of DetTargets build_targets self predictions
                      targets model))%nat.
Proof.
  intros H no.
  destruct (forward_impl_losses _ _ _ _ _ _ _ _ _ H) as (c1 & c2 & c3 & Hl).
  rewrite (forward_impl_unfold _ _ _ _ _ _ _ _ _ _ _ Hl) in H.
  apply bind_Ok in H as (st & Hloop & H).
  apply bind_Ok in H as (vseg & _ & H).
  destruct (weigh_Ok _ _ _ _ _ H) as (l0 & l1 & l2 & l3 & Hno & _ & _ & _ & H3).
  apply lookup_lt_Some in H3. fold no in Hno.
  unfold run_loop in Hloop.
  apply detection_loop_Ok_bounds in Hloop as [Hnil|[Hb Ht]].
  { exfalso. apply Hno. unfold no. now rewrite Hnil. }
  fold no in Hb, Ht. simpl in Hb, Ht.
  assert (Hbal : (length (balance no) <= 4)%nat).
  { unfold balance. destruct (decide (no = 3%nat)); simpl; lia. }
  rewrite Hl. simpl. repeat split; lia.
Qed.

(** X9.  Only the first four weights are read: a pass with a longer weight
    vector behaves as the pass with that vector cut to four entries. *)
Theorem forward_impl_reads_four_lambdas (h : store) (self : MultiHeadLoss)
    (predictions : Predictions) (targets : Targets DetTargets)
    (model : Model) :
  _forward_impl DetTargets build_targets bbox_iou h self predictions targets model
  = _forward_impl DetTargets build_targets bbox_iou h
      (mkMultiHeadLoss (losses self) (take 4 (lambdas self)) (cfg self))
      predictions targets model.
Proof.
  unfold _forward_impl. cbn [losses cfg].
  destruct (smooth_BCE 0.0) as [cp cn].
  destruct (losses self) as [|c1 [|c2 [|c3 [|c4 l]]]]; try reflexivity.
  destruct (detection_loop _ _ _ _ _ _ _ _ _ _ _ _) as [st|e]; [|reflexivity].
  cbn [mbind res_bind].
  destruct (call h c3 _ _) as [v|e]; [|reflexivity].
  cbn [mbind res_bind]. apply weigh_take.
Qed.

(** X10.  The two failures that do not depend on the tensors: a loss object
    that does not hold exactly three criteria raises [ValueError]; with no
    detection scale the pass computes the segmentation loss and then raises
    [ZeroDivisionError] (or the segmentation criterion's own error). *)
Theorem forward_impl_errors (h : store) (self : MultiHeadLoss)
    (predictions : Predictions) (targets : Targets DetTargets)
    (model : Model) :
  (length (losses self) ≠ 3%nat ->
   _forward_impl DetTargets build_targets bbox_iou h self predictions targets
     model = Raise ValueError)
  /\ (forall BCEcls BCEobj BCEseg,
        losses self = [BCEcls; BCEobj; BCEseg] ->
        det predictions = [] ->
        _forward_impl DetTargets build_targets bbox_iou h self predictions
          targets model
        = (lseg ← call h BCEseg (seg predictions) (seg_targets targets);
           Raise ZeroDivisionError)).
Proof.
  split.
  - intros Hlen. unfold _forward_impl. destruct (smooth_BCE 0.0) as [cp cn].
    destruct (losses self) as [|c1 [|c2 [|c3 [|c4 l]]]]; try reflexivity.
    simpl in Hlen. congruence.
  - intros c1 c2 c3 Hl Hdet.
    rewrite (forward_impl_unfold _ _ _ _ _ _ _ _ _ _ _ Hl).
    unfold run_loop. rewrite Hdet. cbn [detection_loop mbind res_bind].
    destruct (call h c3 _ _) as [v|e]; reflexivity.
Qed.

(** *** What one scale leaves behind *)

Lemma obj_target_range (model : Model) (iou : R) :
  0 <= gr model <= 1 -> iou <= 1 -> 0 <= obj_target model iou <= 1.
Proof.
  intros Hgr Hiou. unfold obj_target.
  assert (Hm : 0 <= Rmax iou 0 <= 1).
  { unfold Rmax. destruct (Rle_dec iou 0); lra. }
  nra.
Qed.

Lemma scatter_Forall (P : R -> Prop) (ws : list (nat * R)) (t : list R) :
  Forall P t -> Forall (fun w => P w.2) ws -> Forall P (scatter t ws).
Proof.
  revert t. induction ws as [|w ws IH]; intros t Ht Hws; [exact Ht|].
  apply Forall_cons in Hws as [Hw Hws]. simpl. unfold scatter in IH.
  apply IH; [|exact Hws]. now apply Forall_insert.
Qed.

Lemma Forall_zip_snd {A B} (P : B -> Prop) (xs : list A) (ys : list B) :
  Forall P ys -> Forall (fun w => P w.2) (zip xs ys).
Proof.
  intros Hys. revert xs. induction Hys as [|y ys Hy _ IH]; intros [|x xs];
    simpl; constructor; auto.
Qed.

Lemma mean_R_nonneg (l : list R) (r : R) :
  Forall (fun x => 0 <= x) l -> mean_R l = Ok r -> 0 <= r.
Proof.
  intros Hl. unfold mean_R. destruct l as [|x l]; [discriminate|].
  intros [= <-].
  assert (Hs : 0 <= sum_R (x :: l)).
  { unfold sum_R. induction Hl; simpl; lra. }
  assert (Hn : 0 < INR (length (x :: l))) by (apply lt_0_INR; simpl; lia).
  apply Rmult_le_pos; [exact Hs|]. left. now apply Rinv_0_lt_compat.
Qed.

Lemma match_block_Ok (h : store) (BCEcls : Criterion) (model : Model)
    (cp cn : R) (pi : Tensor) (ms : list Match) (st : Acc) (tobj : list R)
    (st' : Acc) (tobj' : list R) :
  match_block bbox_iou h BCEcls model cp cn pi ms st tobj = Ok (st', tobj') ->
  exists ps l,
    mapM_res (gather pi) ms = Ok ps
    /\ mean_R ((fun x => 1.0 - x) <$> ious bbox_iou ms ps) = Ok l
    /\ lbox st' = lbox st + l
    /\ lobj st' = lobj st
    /\ nt st' = (nt st + length ms)%nat
    /\ tobj' = scatter tobj (writes bbox_iou model ms ps)
    /\ (if decide (1 < nc model)%Z then
          exists t v,
            mapM_res (fun mp => cls_target_row cp cn mp.1 mp.2.2) (zip ms ps)
            = Ok t
            /\ call h BCEcls (concat ((fun p => cls p.2) <$> ps)) (concat t)
               = Ok v
            /\ iadd (lcls st) v = Ok (lcls st')
        else lcls st' = lcls st).
Proof.
  unfold match_block. intros H.
  apply bind_Ok in H as (ps & Hps & H). apply bind_Ok in H as (l & Hl & H).
  apply bind_Ok in H as (lc & Hlc & H). inversion H; subst; clear H.
  exists ps, l. repeat (split; [assumption || reflexivity|]).
  destruct (decide (1 < nc model)%Z).
  - apply bind_Ok in Hlc as (t & Ht & Hlc). apply bind_Ok in Hlc as (v & Hv & Hlc).
    exists t, v. auto.
  - now inversion Hlc.
Qed.

Lemma ious_Forall (P : R -> Prop) (ms : list Match) (ps : list (nat * Cell)) :
  (forall p t, P (bbox_iou p t)) -> Forall P (ious bbox_iou ms ps).
Proof.
  intros HP. unfold ious. revert ps.
  induction ms as [|m ms IH]; intros [|p ps]; simpl; constructor; auto.
Qed.

Lemma sum_R_nonneg (l : list R) : Forall (fun x => 0 <= x) l -> 0 <= sum_R l.
Proof. unfold sum_R. induction 1; simpl; lra. Qed.

Lemma t_mean_nonneg (l : list R) (v : value) :
  Forall (fun x => 0 <= x) l -> t_mean l = Ok v -> value_nonneg v.
Proof.
  intros Hl H. unfold t_mean in H. apply bind_Ok in H as (r & Hr & [= <-]).
  simpl. eapply mean_R_nonneg; eauto.
Qed.

Lemma bce_elems_nonneg (pw : R) (input target : list R) :
  0 <= pw -> Forall (fun t => 0 <= t <= 1) target ->
  Forall (fun x => 0 <= x) (zip_with (bce_elem pw) input target).
Proof.
  intros Hpw Ht. revert input.
  induction Ht as [|t target Ht0 _ IH]; intros [|z input]; simpl; constructor.
  - now apply bce_elem_nonneg.
  - apply IH.
Qed.

Lemma bce_with_logits_nonneg (pw : R) (red : string) (input target : list R)
    (v : value) :
  0 <= pw -> Forall (fun t => 0 <= t <= 1) target ->
  bce_with_logits pw red input target = Ok v -> value_nonneg v.
Proof.
  intros Hpw Ht. pose proof (bce_elems_nonneg pw input target Hpw Ht) as He.
  unfold bce_with_logits. repeat case_decide; try discriminate.
  - now apply t_mean_nonneg.
  - intros [= <-]. simpl. now apply sum_R_nonneg.
  - intros [= <-]. exact He.
Qed.

Lemma focal_scale_nonneg (g a : R) (loss : value) (pred true l : list R) :
  0 <= a <= 1 -> Forall (fun t => 0 <= t <= 1) true -> value_nonneg loss ->
  focal_scale g a loss pred true = Ok l -> Forall (fun x => 0 <= x) l.
Proof.
  intros Ha Ht Hloss. unfold focal_scale.
  destruct loss as [r|xs]; [discriminate|]. case_decide; [|discriminate].
  intros [= <-]. simpl in Hloss. clear H.
  assert (Hf : Forall (fun x => 0 <= x) (zip_with (focal_factor g a) pred true)).
  { clear Hloss. revert pred.
    induction Ht as [|t true Ht0 _ IH]; intros [|z pred]; simpl; constructor.
    - now apply focal_factor_range.
    - apply IH. }
  revert Hf. generalize (zip_with (focal_factor g a) pred true).
  induction Hloss as [|x xs Hx _ IH]; intros [|f fs] Hf; simpl; constructor.
  - apply Forall_cons in Hf as [Hf0 _]. now apply Rmult_le_pos.
  - apply IH. now apply Forall_cons in Hf as [_ Hf].
Qed.

Lemma call_nonneg (h : store) (c : Criterion) (input target : list R) (v : value) :
  criterion_nonneg h c -> Forall (fun t => 0 <= t <= 1) target ->
  call h c input target = Ok v -> value_nonneg v.
Proof.
  intros Hc Ht. destruct c as [l|w]; simpl in *.
  - destruct Hc as (o & Hl & Hpw). rewrite (BCE_call_lookup _ _ _ _ _ Hl).
    now apply bce_with_logits_nonneg.
  - destruct Hc as (o & Hl & Hpw & Ha). unfold FocalLoss_forward.
    rewrite (BCE_call_lookup _ _ _ _ _ Hl). intros H.
    apply bind_Ok in H as (loss & Hloss & H).
    apply bind_Ok in H as (l' & Hl' & H).
    apply bce_with_logits_nonneg in Hloss; [|assumption..].
    pose proof (focal_scale_nonneg _ _ _ _ _ _ Ha Ht Hloss Hl') as Hnn.
    repeat case_decide.
    + now apply t_mean_nonneg in H.
    + inversion H. simpl. now apply sum_R_nonneg.
    + inversion H. exact Hnn.
Qed.

Lemma iadd_mono (acc acc' : R) (v : value) :
  value_nonneg v -> iadd acc v = Ok acc' -> acc <= acc'.
Proof. destruct v; simpl; [|discriminate]. intros Hv [= <-]. lra. Qed.

Lemma scale_nonneg (v : value) (w : R) :
  0 <= w -> value_nonneg v -> value_nonneg (scale v w).
Proof.
  intros Hw. destruct v as [r|l]; simpl.
  - intros Hr. now apply Rmult_le_pos.
  - intros Hl. apply Forall_fmap. eapply Forall_impl; [exact Hl|].
    simpl. intros x Hx. now apply Rmult_le_pos.
Qed.

Lemma mapM_res_Forall {A B} (f : A -> res B) (P : B -> Prop) (l : list A)
    (ys : list B) :
  (forall x y, f x = Ok y -> P y) -> mapM_res f l = Ok ys -> Forall P ys.
Proof.
  intros Hf. revert ys. induction l as [|a l IH]; intros ys H; simpl in H.
  - inversion H. constructor.
  - apply bind_Ok in H as (y & Hy & H). apply bind_Ok in H as (ys' & Hys & H).
    inversion H; subst. constructor; eauto.
Qed.

Lemma cls_target_row_range (cp cn : R) (m : Match) (c : Cell) (row : list R) :
  0 <= cp <= 1 -> 0 <= cn <= 1 ->
  cls_target_row cp cn m c = Ok row -> Forall (fun t => 0 <= t <= 1) row.
Proof.
  intros Hcp Hcn. unfold cls_target_row. intros H.
  apply bind_Ok in H as (k & _ & [= <-]).
  apply Forall_insert; [|exact Hcp].
  apply Forall_fmap, Forall_forall. intros ? _. exact Hcn.
Qed.

Lemma scale_targets_facts (h : store) (BCEcls : Criterion)
    (model : Model) (cp cn : R) (bt : list (list Match)) (i : nat)
    (pi : Tensor) (st st' : Acc) (tobj : list R) :
  scale_targets bbox_iou h BCEcls model cp cn bt i pi st = Ok (st', tobj) ->
  length tobj = length (cells pi)
  /\ lobj st' = lobj st
  /\ (0 <= gr model <= 1 -> (forall p t, bbox_iou p t <= 1) ->
      Forall (fun x => 0 <= x <= 1) tobj /\ lbox st <= lbox st')
  /\ (criterion_nonneg h BCEcls -> 0 <= cp <= 1 -> 0 <= cn <= 1 ->
      lcls st <= lcls st').
Proof.
  unfold scale_targets. intros H. apply bind_Ok in H as (ms & _ & H).
  assert (Hz : Forall (fun x => 0 <= x <= 1) ((fun _ : Cell => 0) <$> cells pi)).
  { apply Forall_fmap, Forall_forall. intros ? _. simpl. lra. }
  destruct (decide (length ms ≠ 0%nat)).
  - destruct (match_block_Ok _ _ _ _ _ _ _ _ _ _ _ H)
      as (ps & l & Hps & Hl & Hbox & Hobj & _ & -> & Hcls).
    split; [now rewrite scatter_length, length_fmap|].
    split; [exact Hobj|]. split; [intros Hgr Hiou; split|].
    + apply scatter_Forall; [exact Hz|]. unfold writes.
      apply (Forall_zip_snd (fun x => 0 <= x <= 1)), Forall_fmap.
      apply (ious_Forall (fun x => 0 <= obj_target model x <= 1)).
      intros p t. now apply obj_target_range.
    + rewrite Hbox. apply mean_R_nonneg in Hl; [lra|].
      apply Forall_fmap.
      apply (ious_Forall (fun x => 0 <= 1.0 - x)).
      intros p t. specialize (Hiou p t). lra.
    + intros Hc Hcp Hcn. destruct (decide (1 < nc model)%Z); [|lra].
      destruct Hcls as (t & v & Ht & Hv & Hadd).
      apply (iadd_mono _ _ v); [|exact Hadd].
      apply (call_nonneg _ _ _ _ _ Hc) in Hv; [exact Hv|].
      apply Forall_concat.
      apply (mapM_res_Forall _ _ _ _ (fun mp row =>
               cls_target_row_range cp cn mp.1 mp.2.2 row Hcp Hcn) Ht).
  - inversion H; subst. split; [apply length_fmap|]. split; [reflexivity|].
    split; [intros _ _; split; [exact Hz | lra]|]. intros _ _ _. lra.
Qed.

(** X11.  Whatever the matches of a scale are, building its targets leaves
    the objectness accumulator alone and yields an objectness target of the
    shape of the objectness channel.  When [gr] lies between 0 and 1 and the
    IoU function never exceeds 1, every element of that target lies between
    0 and 1 (it is a valid BCE target) and the box loss accumulator does not
    decrease. *)
Theorem scale_targets_invariants (h : store) (BCEcls : Criterion)
    (model : Model) (cp cn : R) (bt : list (list Match)) (i : nat)
    (pi : Tensor) (st st' : Acc) (tobj : list R) :
  scale_targets bbox_iou h BCEcls model cp cn bt i pi st = Ok (st', tobj) ->
  length tobj = length (cells pi)
  /\ lobj st' = lobj st
  /\ (0 <= gr model <= 1 -> (forall p t, bbox_iou p t <= 1) ->
      Forall (fun x => 0 <= x <= 1) tobj /\ lbox st <= lbox st').
Proof.
  intros H. destruct (scale_targets_facts _ _ _ _ _ _ _ _ _ _ _ H)
    as (Hlen & Hobj & Hrange & _).
  auto.
Qed.

(** *** Non-negative losses *)

Lemma balance_nonneg (no : nat) : Forall (fun w => 0 <= w) (balance no).
Proof. unfold balance. case_decide; repeat constructor; lra. Qed.

Lemma scale_step_mono (h : store) (BCEcls BCEobj : Criterion) (model : Model)
    (cp cn : R) (bal : list R) (bt : list (list Match)) (i : nat)
    (pi : Tensor) (st st' : Acc) :
  criterion_nonneg h BCEcls -> criterion_nonneg h BCEobj ->
  0 <= cp <= 1 -> 0 <= cn <= 1 -> 0 <= gr model <= 1 ->
  (forall p t, bbox_iou p t <= 1) -> Forall (fun w => 0 <= w) bal ->
  scale_step bbox_iou h BCEcls BCEobj model cp cn bal bt i pi st = Ok st' ->
  lcls st <= lcls st' /\ lbox st <= lbox st' /\ lobj st <= lobj st'.
Proof.
  intros Hc Ho Hcp Hcn Hgr Hiou Hbal H. unfold scale_step in H.
  apply bind_Ok in H as ([st1 tobj] & Ht & H).
  apply bind_Ok in H as (v & Hv & H).
  apply bind_Ok in H as (w & Hw & H).
  apply bind_Ok in H as (lo & Hadd & H).
  inversion H; subst st'; clear H. cbn [lcls lbox lobj].
  destruct (scale_targets_facts _ _ _ _ _ _ _ _ _ _ _ Ht)
    as (_ & Hobj & Hrange & Hcls).
  destruct (Hrange Hgr Hiou) as [Htobj Hbox].
  split; [now apply Hcls|]. split; [exact Hbox|].
  rewrite <- Hobj. apply (iadd_mono _ _ (scale v w)); [|exact Hadd].
  apply scale_nonneg.
  - apply getitem_Ok in Hw. rewrite Forall_forall in Hbal.
    apply Hbal. eapply list_elem_of_lookup_2, Hw.
  - eapply call_nonneg; eauto.
Qed.

Lemma detection_loop_mono (h : store) (BCEcls BCEobj : Criterion)
    (model : Model) (cp cn : R) (bal : list R) (bt : list (list Match))
    (pis : list Tensor) :
  criterion_nonneg h BCEcls -> criterion_nonneg h BCEobj ->
  0 <= cp <= 1 -> 0 <= cn <= 1 -> 0 <= gr model <= 1 ->
  (forall p t, bbox_iou p t <= 1) -> Forall (fun w => 0 <= w) bal ->
  forall (i : nat) (st st' : Acc),
    detection_loop bbox_iou h BCEcls BCEobj model cp cn bal bt i pis st = Ok st' ->
    lcls st <= lcls st' /\ lbox st <= lbox st' /\ lobj st <= lobj st'.
Proof.
  intros Hc Ho Hcp Hcn Hgr Hiou Hbal.
  induction pis as [|pi pis IH]; intros i st st' H; simpl in H.
  - inversion H. lra.
  - apply bind_Ok in H as (st1 & H1 & H).
    apply scale_step_mono in H1; try assumption.
    apply IH in H. lra.
Qed.

Lemma f32_of_not_negative (r : R) : 0 <= r -> not_negative (f32_of r).
Proof.
  intros Hr. unfold f32_of. repeat case_decide; simpl; auto.
  unfold FLT_OVERFLOW in *. lra.
Qed.

Lemma fmul_not_negative (x y : f32) :
  not_negative x -> not_negative y -> not_negative (fmul x y).
Proof.
  destruct x as [a|s|], y as [b|s'|]; simpl; auto.
  - intros Ha Hb. apply f32_of_not_negative. now apply Rmult_le_pos.
  - intros Ha ->. case_decide; simpl; auto.
    unfold negative. now rewrite bool_decide_eq_false_2 by lra.
  - intros -> Hb. case_decide; simpl; auto.
    unfold negative. now rewrite bool_decide_eq_false_2 by lra.
  - now intros -> ->.
Qed.

Lemma fadd_not_negative (x y : f32) :
  not_negative x -> not_negative y -> not_negative (fadd x y).
Proof.
  destruct x as [a|s|], y as [b|s'|]; simpl; auto.
  - intros Ha Hb. apply f32_of_not_negative. lra.
  - intros -> ->. reflexivity.
Qed.

Lemma imul_not_negative (r c : R) :
  0 <= r -> 0 <= c -> not_negative (imul (f32_of r) c).
Proof.
  intros Hr Hc. apply fmul_not_negative; now apply f32_of_not_negative.
Qed.

(** X12.  When the criteria have non-negative positive weights (and focal
    [alpha] between 0 and 1), the gains and the weights are non-negative,
    [gr] lies between 0 and 1, the IoU function never exceeds 1 and the
    segmentation targets lie between 0 and 1, no entry of the returned
    tuple is negative, nor is the total: each is a non-negative number, the
    positive infinity, or nan. *)
Theorem forward_impl_nonneg (h : store) (self : MultiHeadLoss)
    (predictions : Predictions) (targets : Targets DetTargets)
    (model : Model) (loss vbox vobj vcls vseg total : f32) :
  Forall (criterion_nonneg h) (losses self) ->
  0 <= CLS_GAIN (LOSS (cfg self)) -> 0 <= OBJ_GAIN (LOSS (cfg self)) ->
  0 <= BOX_GAIN (LOSS (cfg self)) -> 0 <= SEG_GAIN (LOSS (cfg self)) ->
  Forall (fun lam => 0 <= lam) (lambdas self) ->
  0 <= gr model <= 1 -> (forall p t, bbox_iou p t <= 1) ->
  Forall (fun t => 0 <= t <= 1) (seg_targets targets) ->
  _forward_impl32 DetTargets build_targets bbox_iou h self predictions targets
    model
  = Ok (loss, (vbox, vobj, vcls, vseg, total)) ->
  not_negative vbox /\ not_negative vobj /\ not_negative vcls
  /\ not_negative vseg /\ not_negative loss /\ total = loss.
Proof.
  intros Hcrit Hgc Hgo Hgb Hgs Hlam Hgr Hiou Hseg H.
  destruct (forward_impl32_Ok _ _ _ _ _ _ _ _ _ H)
    as (c1 & c2 & c3 & st & lseg & rseg & lam0 & lam1 & lam2 & lam3
        & Hl & H0 & H1 & H2 & H3 & Hloop & Hcall & Hitem & Hr).
  assert (Hno : length (det predictions) ≠ 0%nat).
  { rewrite (forward_impl32_unfold _ _ _ _ _ _ _ _ _ _ _ Hl) in H.
    rewrite Hloop, Hcall in H. cbn [mbind res_bind] in H.
    now destruct (weigh32_Ok _ _ _ _ _ H) as (_ & _ & _ & _ & Hno & _). }
  rewrite Hl in Hcrit.
  apply Forall_cons in Hcrit as [Hc1 Hcrit].
  apply Forall_cons in Hcrit as [Hc2 Hcrit].
  apply Forall_cons in Hcrit as [Hc3 _].
  unfold run_loop in Hloop.
  apply detection_loop_mono in Hloop; try assumption;
    [| unfold smooth_BCE; simpl; lra | unfold smooth_BCE; simpl; lra
     | apply balance_nonneg].
  cbn [lcls lbox lobj] in Hloop.
  assert (Hrseg : 0 <= rseg).
  { apply (call_nonneg _ _ _ _ _ Hc3 Hseg) in Hcall.
    destruct lseg as [r|[|x [|y l]]]; simpl in Hitem; try discriminate;
      inversion Hitem; subst; simpl in Hcall; [exact Hcall|].
    now apply Forall_cons in Hcall as [Hx _]. }
  assert (Hlams : 0 <= lam0 /\ 0 <= lam1 /\ 0 <= lam2 /\ 0 <= lam3).
  { rewrite Forall_forall in Hlam.
    repeat split; apply Hlam; eapply list_elem_of_lookup_2; eassumption. }
  assert (Hs : 0 <= 3 / INR (length (det predictions))).
  { apply Rlt_le, Rdiv_lt_0_compat; [lra|]. apply lt_0_INR. lia. }
  assert (Hk : 0 <= (if decide (length (det predictions) = 4%nat)
                     then 1.4 else 1.0)) by (case_decide; lra).
  assert (Hb : not_negative (lbox_term32 self (length (det predictions)) st lam2)).
  { unfold lbox_term32. apply imul_not_negative; [lra|].
    repeat apply Rmult_le_pos; lra. }
  assert (Ho : not_negative (lobj_term32 self (length (det predictions)) st lam1)).
  { unfold lobj_term32. apply imul_not_negative; [lra|].
    repeat apply Rmult_le_pos; lra. }
  assert (Hc : not_negative (lcls_term32 self (length (det predictions)) st lam0)).
  { unfold lcls_term32. apply imul_not_negative; [lra|].
    repeat apply Rmult_le_pos; lra. }
  assert (Hsc : not_negative (lseg_term32 self rseg lam3)).
  { unfold lseg_term32. apply imul_not_negative; [lra|].
    repeat apply Rmult_le_pos; lra. }
  assert (Hsg : not_negative
                  (if FREEZE_SEG (TRAIN (cfg self))
                   then fmul (Fin 0) (lseg_term32 self rseg lam3)
                   else lseg_term32 self rseg lam3)).
  { destruct (FREEZE_SEG _); [|exact Hsc].
    apply fmul_not_negative; [simpl; lra | exact Hsc]. }
  cbv zeta in Hr.
  assert (Eb : vbox = lbox_term32 self (length (det predictions)) st lam2)
    by congruence.
  assert (Eo : vobj = lobj_term32 self (length (det predictions)) st lam1)
    by congruence.
  assert (Ec : vcls = lcls_term32 self (length (det predictions)) st lam0)
    by congruence.
  assert (Es : vseg = (if FREEZE_SEG (TRAIN (cfg self))
                       then fmul (Fin 0) (lseg_term32 self rseg lam3)
                       else lseg_term32 self rseg lam3)) by congruence.
  assert (El : loss = fadd (fadd (fadd vbox vobj) vcls) vseg) by congruence.
  assert (Et : total = loss) by congruence.
  clear Hr. rewrite <- Eb in Hb. rewrite <- Eo in Ho. rewrite <- Ec in Hc.
  rewrite <- Es in Hsg.
  repeat (split; [assumption|]). split; [|exact Et].
  rewrite El. auto using fadd_not_negative.
Qed.

(** *** When the pass returns *)

Lemma rows_fit (nc : Z) (cp cn : R) (pi : Tensor) (ms : list Match) :
  (forall m, m ∈ ms ->
     exists c x,
       cell_of (shape pi) m = Ok c
       /\ cells pi !! offset (shape pi) c = Some x
       /\ ((1 < nc)%Z ->
           exists k, norm_index (length (cls x)) (m_tcls m) = Ok k)) ->
  exists ps,
    mapM_res (gather pi) ms = Ok ps
    /\ length ps = length ms
    /\ ((1 < nc)%Z ->
        exists t,
          mapM_res (fun mp => cls_target_row cp cn mp.1 mp.2.2) (zip ms ps) = Ok t
          /\ length (concat ((fun p => cls p.2) <$> ps)) = length (concat t)
          /\ (ms ≠ [] -> concat ((fun p => cls p.2) <$> ps) ≠ [])).
Proof.
  induction ms as [|m ms IH]; intros Hfit.
  - exists []. split; [reflexivity|]. split; [reflexivity|].
    intros _. exists []. split; [reflexivity|]. split; [reflexivity|]. congruence.
  - destruct (Hfit m) as (c & x & Hc & Hx & Hk); [apply list_elem_of_here|].
    destruct IH as (ps & Hps & Hlen & Hrows).
    { intros m' Hm'. apply Hfit. now apply list_elem_of_further. }
    exists ((offset (shape pi) c, x) :: ps).
    split.
    { assert (Hg : gather pi m = Ok (offset (shape pi) c, x)).
      { unfold gather. rewrite Hc. cbn [mbind res_bind].
        now rewrite (getitem_lookup _ _ _ Hx). }
      cbn [mapM_res]. rewrite Hg. cbn [mbind res_bind].
      rewrite Hps. reflexivity. }
    split; [simpl; congruence|].
    intros Hnc. destruct (Hk Hnc) as (k & Hkk).
    destruct (Hrows Hnc) as (t & Ht & Hlt & _).
    exists (<[k := cp]> ((fun _ => cn) <$> cls x) :: t).
    split.
    { assert (Hrow : cls_target_row cp cn m x
                     = Ok (<[k := cp]> ((fun _ => cn) <$> cls x))).
      { unfold cls_target_row. rewrite length_fmap, Hkk. reflexivity. }
      cbn [zip_with mapM_res fst snd]. rewrite Hrow. cbn [mbind res_bind].
      rewrite Ht. reflexivity. }
    split.
    { rewrite fmap_cons. cbn [concat snd].
      rewrite !length_app, length_insert, length_fmap, Hlt. reflexivity. }
    intros _. rewrite fmap_cons. cbn [concat snd]. apply norm_index_lt in Hkk.
    destruct (cls x); simpl in *; [lia | discriminate].
Qed.

Lemma match_block_returns (h : store) (BCEcls : Criterion) (model : Model)
    (cp cn : R) (pi : Tensor) (ms : list Match) (st : Acc) (tobj : list R) :
  scale_fits (nc model) pi ms -> ms ≠ [] -> returns_scalar h BCEcls ->
  exists r, match_block bbox_iou h BCEcls model cp cn pi ms st tobj = Ok r.
Proof.
  intros [_ Hfit] Hne Hcls.
  destruct (rows_fit (nc model) cp cn pi ms Hfit) as (ps & Hps & Hlen & Hrows).
  unfold match_block. rewrite Hps. cbn [mbind res_bind].
  destruct (mean_R _) as [l|e] eqn:Hmean.
  2:{ exfalso. unfold mean_R in Hmean.
      destruct ms as [|m ms]; [congruence|]. destruct ps as [|p ps]; [discriminate|].
      discriminate. }
  cbn [mbind res_bind].
  destruct (decide (1 < nc model)%Z) as [Hnc|Hnc]; [|eauto].
  destruct (Hrows Hnc) as (t & Ht & Hlt & Hnn). rewrite Ht.
  cbn [mbind res_bind].
  destruct (Hcls _ _ Hlt (Hnn Hne)) as (r & ->). cbn [mbind res_bind iadd]. eauto.
Qed.

Lemma scale_step_returns (h : store) (BCEcls BCEobj : Criterion)
    (model : Model) (cp cn : R) (bal : list R) (bt : list (list Match))
    (i : nat) (pi : Tensor) (st : Acc) (ms : list Match) :
  bt !! i = Some ms -> scale_fits (nc model) pi ms -> (i < length bal)%nat ->
  returns_scalar h BCEcls -> returns_scalar h BCEobj ->
  exists st', scale_step bbox_iou h BCEcls BCEobj model cp cn bal bt i pi st
              = Ok st'.
Proof.
  intros Hbt Hfit Hi Hcls Hobj.
  assert (Ht : exists r, scale_targets bbox_iou h BCEcls model cp cn bt i pi st
                         = Ok r).
  { destruct ms as [|m ms].
    - rewrite scale_targets_empty by assumption. eauto.
    - rewrite (scale_targets_matches _ _ _ _ _ _ _ _ _ _ _ Hbt) by discriminate.
      apply match_block_returns; auto; discriminate. }
  destruct Ht as ([st1 tobj] & Ht). unfold scale_step. rewrite Ht.
  cbn [mbind res_bind].
  destruct (scale_targets_facts _ _ _ _ _ _ _ _ _ _ _ Ht) as (Hlen & _).
  destruct (Hobj (obj <$> cells pi) tobj) as (r & ->).
  { now rewrite length_fmap. }
  { destruct Hfit as [Hne _]. destruct (cells pi); [congruence | discriminate]. }
  cbn [mbind res_bind].
  apply lookup_lt_is_Some in Hi as [w Hw]. rewrite (getitem_lookup _ _ _ Hw).
  cbn [mbind res_bind scale iadd]. eauto.
Qed.

Lemma detection_loop_returns (h : store) (BCEcls BCEobj : Criterion)
    (model : Model) (cp cn : R) (bal : list R) (bt : list (list Match))
    (pis : list Tensor) :
  returns_scalar h BCEcls -> returns_scalar h BCEobj ->
  forall (i : nat) (st : Acc),
    (i + length pis <= length bal)%nat ->
    (forall k pi, pis !! k = Some pi ->
       exists ms, bt !! (i + k)%nat = Some ms /\ scale_fits (nc model) pi ms) ->
    exists st', detection_loop bbox_iou h BCEcls BCEobj model cp cn bal bt i pis st
                = Ok st'.
Proof.
  intros Hcls Hobj. induction pis as [|pi pis IH]; intros i st Hlen Hfit.
  - simpl. eauto.
  - simpl in Hlen. destruct (Hfit 0%nat pi eq_refl) as (ms & Hms & Hf).
    rewrite Nat.add_0_r in Hms.
    destruct (scale_step_returns h BCEcls BCEobj model cp cn bal bt i pi st ms)
      as (st1 & Hst1); auto; [lia|].
    simpl. rewrite Hst1. cbn [mbind res_bind]. apply IH; [lia|].
    intros k pi' Hk. destruct (Hfit (S k) pi' Hk) as (ms' & Hms' & Hf').
    exists ms'. split; [|exact Hf']. now rewrite Nat.add_succ_comm.
Qed.

Lemma forward_impl_Ok_if (h : store) (self : MultiHeadLoss)
    (predictions : Predictions) (targets : Targets DetTargets)
    (model : Model) (BCEcls BCEobj BCEseg : Criterion) :
  losses self = [BCEcls; BCEobj; BCEseg] ->
  returns_scalar h BCEcls -> returns_scalar h BCEobj -> returns_scalar h BCEseg ->
  (4 <= length (lambdas self))%nat ->
  (1 <= length (det predictions) <= 4)%nat ->
  (forall i pi, det predictions !! i = Some pi ->
     exists ms,
       matches_of DetTargets build_targets self predictions targets model !! i
       = Some ms
       /\ scale_fits (nc model) pi ms) ->
  seg predictions ≠ [] ->
  length (seg predictions) = length (seg_targets targets) ->
  exists r,
    _forward_impl DetTargets build_targets bbox_iou h self predictions targets
      model = Ok r.
Proof.
  intros Hl Hcls Hobj Hseg Hlam Hno Hfit Hne Hlen.
  rewrite (forward_impl_unfold _ _ _ _ _ _ _ _ _ _ _ Hl). unfold run_loop.
  destruct (detection_loop_returns h BCEcls BCEobj model
              (smooth_BCE 0.0).1 (smooth_BCE 0.0).2
              (balance (length (det predictions)))
              (matches_of DetTargets build_targets self predictions targets model)
              (det predictions) Hcls Hobj 0%nat (mkAcc 0 0 0 0))
    as (st & ->).
  { unfold balance. case_decide; simpl; lia. }
  { exact Hfit. }
  cbn [mbind res_bind].
  destruct (Hseg _ _ Hlen Hne) as (r & ->). cbn [mbind res_bind].
  destruct (lookup_lt_is_Some_2 (lambdas self) 0) as [l0 H0]; [lia|].
  destruct (lookup_lt_is_Some_2 (lambdas self) 1) as [l1 H1]; [lia|].
  destruct (lookup_lt_is_Some_2 (lambdas self) 2) as [l2 H2]; [lia|].
  destruct (lookup_lt_is_Some_2 (lambdas self) 3) as [l3 H3]; [lia|].
  assert (Hn0 : length (det predictions) ≠ 0%nat) by lia.
  rewrite (weigh_eq _ _ _ _ _ _ _ _ Hn0 H0 H1 H2 H3).
  cbn [item mbind res_bind]. eauto.
Qed.

(** X13.  The pass returns whenever: the loss object holds three criteria
    that reduce to a scalar, and at least four weights; there are between
    one and four detection scales; every scale has a non-empty objectness
    channel and a list of matches each of which addresses a stored cell and,
    with more than one class, a class logit of that cell; and the
    segmentation prediction and target have the same, non-zero, size. *)
Theorem forward_impl_returns (h : store) (self : MultiHeadLoss)
    (predictions : Predictions) (targets : Targets DetTargets)
    (model : Model) (BCEcls BCEobj BCEseg : Criterion) :
  losses self = [BCEcls; BCEobj; BCEseg] ->
  returns_scalar h BCEcls -> returns_scalar h BCEobj -> returns_scalar h BCEseg ->
  (4 <= length (lambdas self))%nat ->
  (1 <= length (det predictions) <= 4)%nat ->
  (forall i pi, det predictions !! i = Some pi ->
     exists ms,
       matches_of DetTargets build_targets self predictions targets model !! i
       = Some ms
       /\ scale_fits (nc model) pi ms) ->
  seg predictions ≠ [] ->
  length (seg predictions) = length (seg_targets targets) ->
  exists r,
    _forward_impl DetTargets build_targets bbox_iou h self predictions targets
      model = Ok r.
Proof.
  intros Hl Hcls Hobj Hseg Hlam Hno Hfit Hne Hlen.
  now apply (forward_impl_Ok_if h self predictions targets model
               BCEcls BCEobj BCEseg).
Qed.

(** *** Perfect boxes *)





(** X17.  The detection heads and the segmentation head do not leak into
    each other: of two passes of one loss object that both return, the
    segmentation entries agree when the segmentation prediction and target
    agree, and the box, objectness and classification entries agree when
    the detection predictions, the detection targets and the model agree. *)
Theorem forward_impl_heads_independent (h : store) (self : MultiHeadLoss)
    (p1 p2 : Predictions) (t1 t2 : Targets DetTargets) (m1 m2 : Model)
    (loss1 vbox1 vobj1 vcls1 vseg1 total1 : R)
    (loss2 vbox2 vobj2 vcls2 vseg2 total2 : R) :
  _forward_impl DetTargets build_targets bbox_iou h self p1 t1 m1
  = Ok (loss1, (vbox1, vobj1, vcls1, vseg1, total1)) ->
  _forward_impl DetTargets build_targets bbox_iou h self p2 t2 m2
  = Ok (loss2, (vbox2, vobj2, vcls2, vseg2, total2)) ->
  (seg p1 = seg p2 -> seg_targets t1 = seg_targets t2 -> vseg1 = vseg2)
  /\ (det p1 = det p2 -> det_targets t1 = det_targets t2 -> m1 = m2 ->
      vbox1 = vbox2 /\ vobj1 = vobj2 /\ vcls1 = vcls2).
Proof.
  intros H1 H2.
  destruct (forward_impl_Ok _ _ _ _ _ _ _ _ _ H1)
    as (c1 & c2 & c3 & st & lseg & rseg & lam0 & lam1 & lam2 & lam3
        & Hl & H0 & Hl1 & Hl2 & Hl3 & Hloop & Hcall & Hitem & Hr).
  destruct (forward_impl_Ok _ _ _ _ _ _ _ _ _ H2)
    as (c1' & c2' & c3' & st' & lseg' & rseg' & lam0' & lam1' & lam2' & lam3'
        & Hl' & H0' & Hl1' & Hl2' & Hl3' & Hloop' & Hcall' & Hitem' & Hr').
  rewrite Hl in Hl'. inversion Hl'; subst c1' c2' c3'; clear Hl'.
  rewrite H0 in H0'. rewrite Hl1 in Hl1'. rewrite Hl2 in Hl2'. rewrite Hl3 in Hl3'.
  inversion H0'; inversion Hl1'; inversion Hl2'; inversion Hl3'.
  subst lam0' lam1' lam2' lam3'.
  cbv zeta in Hr, Hr'. inversion Hr; inversion Hr'; subst; clear Hr Hr'.
  split.
  - intros Hs Ht. rewrite Hs, Ht in Hcall. rewrite Hcall in Hcall'.
    inversion Hcall'; subst lseg'. rewrite Hitem in Hitem'.
    inversion Hitem'; subst rseg'. reflexivity.
  - intros Hd Ht Hm. subst m2. unfold run_loop, matches_of in Hloop, Hloop'.
    rewrite Hd, Ht in Hloop. rewrite Hloop in Hloop'.
    inversion Hloop'; subst st'. rewrite Hd. auto.
Qed.

End ForwardEdges.

(** ** The classification target *)

(** X15.  The classification target of a match is one-hot: it has one entry
    per class logit of the cell, [cp] at the class of the match (counted
    from the end when negative) and [cn] everywhere else; a class outside
    the class logits raises [IndexError]. *)
Theorem cls_target_row_one_hot (cp cn : R) (m : Match) (c : Cell) :
  (forall row,
     cls_target_row cp cn m c = Ok row ->
     length row = length (cls c)
     /\ exists k,
         norm_index (length (cls c)) (m_tcls m) = Ok k
         /\ (k < length (cls c))%nat
         /\ row !! k = Some cp
         /\ forall j, j ≠ k -> (j < length (cls c))%nat -> row !! j = Some cn)
  /\ ((Z.of_nat (length (cls c)) <= m_tcls m
       \/ m_tcls m < - Z.of_nat (length (cls c)))%Z ->
      cls_target_row cp cn m c = Raise IndexError).
Proof.
  unfold cls_target_row. rewrite length_fmap. split.
  - intros row H. apply bind_Ok in H as (k & Hk & [= <-]).
    pose proof (norm_index_lt _ _ _ Hk) as Hlt.
    split; [now rewrite length_insert, length_fmap|].
    exists k. split; [exact Hk|]. split; [exact Hlt|]. split.
    + apply list_lookup_insert_eq. now rewrite length_fmap.
    + intros j Hj Hjl. rewrite list_lookup_insert_ne by congruence.
      rewrite list_lookup_fmap.
      apply lookup_lt_is_Some in Hjl as [x ->]. reflexivity.
  - intros Hout. unfold norm_index. repeat case_decide; try lia. reflexivity.
Qed.

Lemma cls_target_row_one_hot_witness :
  (exists k,
     norm_index 3 (-2) = Ok k /\ (k < 3)%nat
     /\ [0; 1; 0] !! k = Some 1
     /\ forall j, j ≠ k -> (j < 3)%nat -> [0; 1; 0] !! j = Some 0)
  /\ cls_target_row 1 0 (mkMatch 0 0 0 0 (mkBox 0 0 0 0) 5 (1, 1))
       (mkCell 0 0 0 0 0 [0; 0; 0])
     = Raise IndexError.
Proof.
  split.
  - apply (proj1 (cls_target_row_one_hot 1 0
                    (mkMatch 0 0 0 0 (mkBox 0 0 0 0) (-2) (1, 1))
                    (mkCell 0 0 0 0 0 [0; 0; 0])) [0; 1; 0]).
    reflexivity.
  - apply (proj2 (cls_target_row_one_hot 1 0
                    (mkMatch 0 0 0 0 (mkBox 0 0 0 0) 5 (1, 1))
                    (mkCell 0 0 0 0 0 [0; 0; 0]))).
    left. simpl. lia.
Defined.

(** ** get_loss and the pass together *)

Lemma get_loss_lambdas (config : Cfg) (h h' : store) (self : MultiHeadLoss) :
  get_loss config h = Ok (self, h') ->
  lambdas self
  = if falsy (MULTI_HEAD_LAMBDA (LOSS config)) then [1; 1; 1; 1]
    else default [] (MULTI_HEAD_LAMBDA (LOSS config)).
Proof.
  rewrite get_loss_eq. cbv zeta. intros H.
  apply bind_Ok in H as (loss & Hinit & H). inversion H; subst self h'; clear H.
  destruct (falsy (MULTI_HEAD_LAMBDA (LOSS config))) eqn:Hf.
  - rewrite (MultiHeadLoss_init_falsy _ _ _ Hf) in Hinit. now inversion Hinit.
  - unfold MultiHeadLoss_init in Hinit. rewrite Hf in Hinit.
    destruct (forallb _ _); [|discriminate]. now inversion Hinit.
Qed.

Lemma returns_scalar_of_mean (h : store) (c : Criterion) (f : R -> R -> R) :
  (forall input target : list R,
     length input = length target -> input ≠ [] ->
     call h c input target
     = Ok (Scalar (sum_R (zip_with f input target) / INR (length input)))) ->
  returns_scalar h c.
Proof. intros H input target Hlen Hne. rewrite H by assumption. eauto. Qed.

(** X16.  The loss object of [get_loss] always gets through the pass on
    well-formed input: when the configured weight list is missing, empty or
    has at least four entries, there are between one and four scales, every
    scale fits its matches, and the segmentation prediction and target have
    the same, non-zero, size, [_forward_impl] returns. *)
Theorem get_loss_forward_returns (DetTargets : Type)
    (build_targets : Cfg -> list Tensor -> DetTargets -> Model -> list (list Match))
    (bbox_iou : Box -> Box -> R) (config : Cfg) (h h' : store)
    (self : MultiHeadLoss) (predictions : Predictions)
    (targets : Targets DetTargets) (model : Model) :
  get_loss config h = Ok (self, h') ->
  (falsy (MULTI_HEAD_LAMBDA (LOSS config)) = true
   \/ exists l, MULTI_HEAD_LAMBDA (LOSS config) = Some l /\ (4 <= length l)%nat) ->
  (1 <= length (det predictions) <= 4)%nat ->
  (forall i pi, det predictions !! i = Some pi ->
     exists ms,
       build_targets config (det predictions) (det_targets targets) model !! i
       = Some ms
       /\ scale_fits (nc model) pi ms) ->
  seg predictions ≠ [] ->
  length (seg predictions) = length (seg_targets targets) ->
  exists r,
    _forward_impl DetTargets build_targets bbox_iou h' self predictions targets
      model = Ok r.
Proof.
  intros Hget Hlam Hno Hfit Hne Hlen.
  pose proof (get_loss_lambdas _ _ _ _ Hget) as Hlams.
  destruct (get_loss_Ok_criteria _ _ _ _ Hget)
    as (Hcfg & _ & _ & c1 & c2 & c3 & Hl & Hcalls).
  apply (forward_impl_Ok_if DetTargets build_targets bbox_iou h' self
           predictions targets model c1 c2 c3); auto.
  - eapply returns_scalar_of_mean. intros i t H1 H2. apply (Hcalls i t H1 H2).
  - eapply returns_scalar_of_mean. intros i t H1 H2. apply (Hcalls i t H1 H2).
  - eapply returns_scalar_of_mean. intros i t H1 H2. apply (Hcalls i t H1 H2).
  - rewrite Hlams. destruct Hlam as [->|(l & Hl' & Hlen')]; [simpl; lia|].
    rewrite Hl'. destruct l; simpl in *; [lia|lia].
  - unfold matches_of. now rewrite Hcfg.
Qed.

(** ** Runs of the pass *)

Lemma scale_targets_one_unit :
  exists st',
    scale_targets unit_iou h0 (Plain 0) model0 1 0 [one_match] 0 pi0 st0
    = Ok (st', [obj_target model0 1]).
Proof.
  rewrite (scale_targets_matches unit_iou h0 (Plain 0) model0 1 0
             [one_match] 0 pi0 st0 one_match eq_refl) by discriminate.
  rewrite (match_block_single_class_eq _ _ _ _ _ _ _ _ _ _ _ gather_one)
    by (simpl; lia).
  eexists. reflexivity.
Qed.

Lemma returns_scalar_scenario (l : nat) : (l < 3)%nat -> returns_scalar h0 (Plain l).
Proof.
  intros Hl input target Hlen Hne. eexists.
  apply (get_loss_call_plain h0 l 1); [|assumption..].
  destruct l as [|[|[|l]]]; [reflexivity..|lia].
Qed.

Lemma forward_impl_needs_witness :
  length (losses (self0 false)) = 3%nat
  /\ (1 <= length (det predictions0) <= 4)%nat
  /\ (4 <= length (lambdas (self0 false)))%nat
  /\ (length (det predictions0)
      <= length (matches_of unit no_matches (self0 false) predictions0
                   targets0 model0))%nat.
Proof.
  exact (forward_impl_needs unit no_matches stub_iou h0 (self0 false)
           predictions0 targets0 model0 _ (forward_scenario false)).
Defined.

Lemma forward_impl_errors_witness :
  _forward_impl unit no_matches stub_iou h0
    (mkMultiHeadLoss [Plain 0; Plain 1]%nat [1; 1; 1; 1] (cfg0 false))
    predictions0 targets0 model0 = Raise ValueError
  /\ _forward_impl unit no_matches stub_iou h0 (self0 false)
       (mkPredictions [] [0]) targets0 model0
     = (lseg ← call h0 (Plain 2) [0] [1]; Raise ZeroDivisionError).
Proof.
  split.
  - apply (proj1 (forward_impl_errors unit no_matches stub_iou h0
                    (mkMultiHeadLoss [Plain 0; Plain 1]%nat [1; 1; 1; 1]
                       (cfg0 false)) predictions0 targets0 model0)).
    simpl. lia.
  - apply (proj2 (forward_impl_errors unit no_matches stub_iou h0 (self0 false)
                    (mkPredictions [] [0]) targets0 model0)
             (Plain 0) (Plain 1) (Plain 2)); reflexivity.
Defined.

Lemma scale_targets_invariants_witness :
  exists st',
    scale_targets unit_iou h0 (Plain 0) model0 1 0 [one_match] 0 pi0 st0
    = Ok (st', [obj_target model0 1])
    /\ length [obj_target model0 1] = length (cells pi0)
    /\ lobj st' = lobj st0
    /\ Forall (fun x => 0 <= x <= 1) [obj_target model0 1]
    /\ lbox st0 <= lbox st'.
Proof.
  destruct scale_targets_one_unit as [st' Hst]. exists st'.
  destruct (scale_targets_invariants unit_iou h0 (Plain 0) model0 1 0
              [one_match] 0 pi0 st0 st' [obj_target model0 1] Hst)
    as (Hlen & Hobj & Hrange).
  split; [exact Hst|]. split; [exact Hlen|]. split; [exact Hobj|].
  apply Hrange.
  - simpl. lra.
  - intros p t. unfold unit_iou. lra.
Defined.

Lemma scale_fits_a_match (tbox : Box) (n : Z) :
  scale_fits n pi1 [a_match tbox].
Proof.
  split; [discriminate|]. intros m Hm.
  apply list_elem_of_singleton in Hm as ->.
  exists (0, 0, 0, 0)%nat, cell1. split; [reflexivity|]. split; [reflexivity|].
  intros _. exists 1%nat. reflexivity.
Qed.

Lemma scale_fits_matched (self : MultiHeadLoss) (tbox : Box) (n : Z) (i : nat)
    (pi : Tensor) :
  det predictions1 !! i = Some pi ->
  exists ms,
    matches_of unit (matched_by [a_match tbox]) self predictions1 targets0
      (model1 n) !! i = Some ms
    /\ scale_fits (nc (model1 n)) pi ms.
Proof.
  destruct i as [|i]; [|discriminate]. intros [= <-].
  exists [a_match tbox]. split; [reflexivity|]. apply scale_fits_a_match.
Qed.

Lemma get_loss_rich (f : bool) :
  get_loss (cfg1 0.2 f) [] = Ok (self1 0.2 f, h0).
Proof.
  rewrite get_loss_eq. cbv zeta.
  change (FL_GAMMA (LOSS (cfg1 0.2 f))) with 0.
  destruct (decide (0 < 0)) as [Hn|_]; [lra|].
  change (MULTI_HEAD_LAMBDA (LOSS (cfg1 0.2 f))) with (Some [1; 2; 3; 4]).
  rewrite MultiHeadLoss_init_given;
    [reflexivity | discriminate | repeat constructor; lra].
Qed.

Lemma forward_impl_nonneg_witness :
  not_negative (Fin 0.225) /\ not_negative (Fin (24 * ln 2))
  /\ not_negative (Fin (1.5 * ln 2)) /\ not_negative (Fin (0.8 * ln 2))
  /\ not_negative (Fin (0.225 + 26.3 * ln 2))
  /\ Fin (0.225 + 26.3 * ln 2) = Fin (0.225 + 26.3 * ln 2).
Proof.
  apply (forward_impl_nonneg unit (matched_by [a_match (mkBox 1 0 0 0)])
           half_iou h0 (self1 0.2 false) predictions1 targets0 (model1 2)).
  - repeat constructor; (eexists; split; [reflexivity | simpl; lra]).
  - simpl; lra.
  - simpl; lra.
  - simpl; lra.
  - simpl; lra.
  - repeat constructor; lra.
  - simpl; lra.
  - intros p t. unfold half_iou. lra.
  - repeat constructor; lra.
  - exact (forward32_rich half_iou (mkBox 1 0 0 0) false eq_refl).
Defined.

Lemma forward_impl_returns_witness :
  exists r,
    _forward_impl unit (matched_by [a_match (mkBox 0.5 0 0 0)]) stub_iou h0
      (self1 0.2 false) predictions1 targets0 (model1 2) = Ok r.
Proof.
  apply (forward_impl_returns unit (matched_by [a_match (mkBox 0.5 0 0 0)])
           stub_iou h0 (self1 0.2 false) predictions1 targets0 (model1 2)
           (Plain 0) (Plain 1) (Plain 2)).
  - reflexivity.
  - apply returns_scalar_scenario. lia.
  - apply returns_scalar_scenario. lia.
  - apply returns_scalar_scenario. lia.
  - simpl. lia.
  - simpl. lia.
  - apply scale_fits_matched.
  - discriminate.
  - reflexivity.
Defined.


Lemma get_loss_forward_returns_witness :
  exists r,
    _forward_impl unit (matched_by [a_match (mkBox 0.5 0 0 0)]) stub_iou h0
      (self1 0.2 false) predictions1 targets0 (model1 2) = Ok r.
Proof.
  apply (get_loss_forward_returns unit (matched_by [a_match (mkBox 0.5 0 0 0)])
           stub_iou (cfg1 0.2 false) [] h0 (self1 0.2 false) predictions1
           targets0 (model1 2)).
  - apply get_loss_rich.
  - right. exists [1; 2; 3; 4]. split; [reflexivity | simpl; lia].
  - simpl. lia.
  - apply (scale_fits_matched (self1 0.2 false)).
  - discriminate.
  - reflexivity.
Defined.

Lemma forward_returns_match_each (pis : list Tensor) (sg st : list R) (n : Z) :
  (1 <= length pis <= 4)%nat -> Forall (fun pi => pi = pi1) pis ->
  sg ≠ [] -> length sg = length st ->
  exists r,
    _forward_impl unit (match_each [a_match (mkBox 0.5 0 0 0)]) stub_iou h0
      (self1 0.2 false) (mkPredictions pis sg) (mkTargets tt st) (model1 n)
    = Ok r.
Proof.
  intros Hno Hpis Hne Hlen.
  apply (forward_impl_Ok_if unit _ stub_iou h0 (self1 0.2 false) _ _ _
           (Plain 0) (Plain 1) (Plain 2)); try assumption.
  - reflexivity.
  - apply returns_scalar_scenario. lia.
  - apply returns_scalar_scenario. lia.
  - apply returns_scalar_scenario. lia.
  - simpl. lia.
  - intros i pi Hi. simpl in Hi. exists [a_match (mkBox 0.5 0 0 0)]. split.
    + unfold matches_of, match_each. simpl det.
      now rewrite list_lookup_fmap, Hi.
    + rewrite Forall_forall in Hpis.
      rewrite (Hpis pi) by (eapply list_elem_of_lookup_2, Hi).
      apply scale_fits_a_match.
Qed.

Lemma forward_impl_heads_independent_witness :
  exists l1 b1 o1 c1 s1 t1 l2 b2 o2 c2 s2 t2 l3 b3 o3 c3 s3 t3,
    _forward_impl unit (match_each [a_match (mkBox 0.5 0 0 0)]) stub_iou h0
      (self1 0.2 false) (mkPredictions [pi1] [0]) (mkTargets tt [1]) (model1 2)
    = Ok (l1, (b1, o1, c1, s1, t1))
    /\ _forward_impl unit (match_each [a_match (mkBox 0.5 0 0 0)]) stub_iou h0
         (self1 0.2 false) (mkPredictions [pi1; pi1] [0]) (mkTargets tt [1])
         (model1 1)
       = Ok (l2, (b2, o2, c2, s2, t2))
    /\ _forward_impl unit (match_each [a_match (mkBox 0.5 0 0 0)]) stub_iou h0
         (self1 0.2 false) (mkPredictions [pi1] [5; 0]) (mkTargets tt [0; 1])
         (model1 2)
       = Ok (l3, (b3, o3, c3, s3, t3))
    /\ s1 = s2
    /\ b1 = b3 /\ o1 = o3 /\ c1 = c3.
Proof.
  destruct (forward_returns_match_each [pi1] [0] [1] 2)
    as ([l1 [[[[b1 o1] c1] s1] t1]] & H1);
    [simpl; lia | repeat constructor | discriminate | reflexivity |].
  destruct (forward_returns_match_each [pi1; pi1] [0] [1] 1)
    as ([l2 [[[[b2 o2] c2] s2] t2]] & H2);
    [simpl; lia | repeat constructor | discriminate | reflexivity |].
  destruct (forward_returns_match_each [pi1] [5; 0] [0; 1] 2)
    as ([l3 [[[[b3 o3] c3] s3] t3]] & H3);
    [simpl; lia | repeat constructor | discriminate | reflexivity |].
  exists l1, b1, o1, c1, s1, t1, l2, b2, o2, c2, s2, t2, l3, b3, o3, c3, s3, t3.
  split; [exact H1|]. split; [exact H2|]. split; [exact H3|].
  split.
  - apply (proj1 (forward_impl_heads_independent unit _ stub_iou h0 _ _ _ _ _
                    _ _ _ _ _ _ _ _ _ _ _ _ _ _ H1 H2)); reflexivity.
  - apply (proj2 (forward_impl_heads_independent unit _ stub_iou h0 _ _ _ _ _
                    _ _ _ _ _ _ _ _ _ _ _ _ _ _ H1 H3)); reflexivity.
Defined.
